(** * Playbook lifecycle governance: version control and approval gates

    A shallow embedding of [src/core/VersionControlEngine.js] and
    [src/core/ApprovalGateEngine.js], with the part of [server.js] that
    guards the reject route.  The engines are JavaScript classes holding
    [Map]s; here a call is a function from the engine's state to the new
    state and an outcome (a value or the exception thrown). *)

From Stdlib Require Import ZArith String Ascii List Bool Lia.
From stdpp Require Import gmap strings.
Import ListNotations.
Set Warnings "-register-all".
Local Open Scope string_scope.
Local Open Scope Z_scope.

(** ** JavaScript values, as far as the engines use them *)

Module JS.

(** A playbook reaches the engines as a parsed JSON document (the request
    body).  Numbers are the integers among the JSON numbers; an object is its
    list of properties in enumeration order. *)
Inductive json : Type :=
| JNull
| JBool (b : bool)
| JNum (n : Z)
| JStr (s : string)
| JArr (items : list json)
| JObj (fields : list (string * json)).

(** The result of reading a property: [None] is [undefined]. *)
Definition jsval : Type := option json.

(** What a call can throw.  [Thrown m] is [new Error(m)]; [Rethrown p e] is
    the [new Error(p + e.message)] of a catch block; the text of a runtime
    [TypeError] is the engine's own and is not modelled; [IOFailure] is a
    rejected file-system promise. *)
Inductive exn : Type :=
| Thrown (message : string)
| RuntimeTypeError
| IOFailure
| Rethrown (prefix : string) (cause : exn).

Definition result (A : Type) : Type := (exn + A)%type.

Definition bind {A B : Type} (r : result A) (k : A -> result B) : result B :=
  match r with
  | inl e => inl e
  | inr a => k a
  end.

Fixpoint assoc {A : Type} (k : string) (l : list (string * A)) : option A :=
  match l with
  | [] => None
  | (k', x) :: r => if String.eqb k k' then Some x else assoc k r
  end.

(** [o.k] for the property names the engines read, none of which is a
    built-in property of arrays, strings, numbers or booleans. *)
Definition get (k : string) (o : jsval) : result jsval :=
  match o with
  | None => inl RuntimeTypeError
  | Some JNull => inl RuntimeTypeError
  | Some (JObj fs) => inr (assoc k fs)
  | Some _ => inr None
  end.

(** [o?.k] *)
Definition get_opt (k : string) (o : jsval) : jsval :=
  match o with
  | Some (JObj fs) => assoc k fs
  | _ => None
  end.

(** ToBoolean *)
Definition truthy (v : jsval) : bool :=
  match v with
  | None => false
  | Some JNull => false
  | Some (JBool b) => b
  | Some (JNum n) => negb (n =? 0)
  | Some (JStr s) => negb (String.eqb s EmptyString)
  | Some (JArr _) => true
  | Some (JObj _) => true
  end.

Fixpoint join (sep : string) (l : list string) : string :=
  match l with
  | [] => EmptyString
  | [x] => x
  | x :: r => x +:+ sep +:+ join sep r
  end.

(** *** Numbers to strings and back *)

Definition digit (n : Z) : ascii := ascii_of_nat (48 + Z.to_nat n).

Fixpoint digits (fuel : nat) (n : Z) (acc : string) : string :=
  let acc' := String (digit (n mod 10)) acc in
  match fuel with
  | O => acc'
  | S f => if n <? 10 then acc' else digits f (n / 10) acc'
  end.

(** Number.prototype.toString on an integer: [fuel] is the number of bits,
    which bounds the number of decimal digits. *)
Definition string_of_nonneg (n : Z) : string :=
  digits (Z.to_nat (Z.log2 n + 1)) n EmptyString.

Definition string_of_Z (n : Z) : string :=
  if n <? 0 then String "-" (string_of_nonneg (- n)) else string_of_nonneg n.

(** [None] is NaN. *)
Definition string_of_number (n : option Z) : string :=
  match n with
  | Some z => string_of_Z z
  | None => "NaN"
  end.

Definition code (c : ascii) : Z := Z.of_nat (nat_of_ascii c).

Definition is_ws (c : ascii) : bool :=
  let n := code c in ((9 <=? n) && (n <=? 13)) || (n =? 32).

Fixpoint skip_ws (s : string) : string :=
  match s with
  | String c r => if is_ws c then skip_ws r else s
  | EmptyString => s
  end.

Definition digit_val (radix : Z) (c : ascii) : option Z :=
  let n := code c in
  let d := if (48 <=? n) && (n <=? 57) then Some (n - 48)
           else if (97 <=? n) && (n <=? 122) then Some (n - 87)
           else if (65 <=? n) && (n <=? 90) then Some (n - 55)
           else None in
  match d with
  | Some v => if v <? radix then Some v else None
  | None => None
  end.

Fixpoint parse_digits (radix : Z) (s : string) (acc : option Z) : option Z :=
  match s with
  | String c r =>
      match digit_val radix c with
      | Some d =>
          parse_digits radix r
            (Some (match acc with Some a => a * radix + d | None => d end))
      | None => acc
      end
  | EmptyString => acc
  end.

Definition is_x (c : ascii) : bool := (code c =? 120) || (code c =? 88).

(** parseInt(s) with no radix argument: leading white space, a sign, an
    optional 0x, then the longest run of digits; NaN when there is none. *)
Definition parseInt_string (s : string) : option Z :=
  let s1 := skip_ws s in
  let '(neg, s2) :=
    match s1 with
    | String c r => if code c =? 45 then (true, r)
                    else if code c =? 43 then (false, r) else (false, s1)
    | EmptyString => (false, s1)
    end in
  let '(radix, s3) :=
    match s2 with
    | String c0 (String c1 r) =>
        if (code c0 =? 48) && is_x c1 then (16, r) else (10, s2)
    | _ => (10, s2)
    end in
  match parse_digits radix s3 None with
  | Some n => Some (if neg then - n else n)
  | None => None
  end.

(** *** ToString *)

Fixpoint toStr (v : json) : string :=
  match v with
  | JNull => "null"
  | JBool true => "true"
  | JBool false => "false"
  | JNum n => string_of_Z n
  | JStr s => s
  | JArr l =>
      join "," (map (fun x => match x with JNull => EmptyString | _ => toStr x end) l)
  | JObj _ => "[object Object]"
  end.

(** String(v), which is also how a template literal renders v. *)
Definition to_string (v : jsval) : string :=
  match v with
  | None => "undefined"
  | Some x => toStr x
  end.

(** parseInt applied to an array element: a string, or [undefined] past the
    end ([None]). *)
Definition parseInt (v : option string) : option Z :=
  parseInt_string (match v with Some s => s | None => "undefined" end).

(** ToNumber, on the decimal integers among the numeric strings. *)
Definition string_to_number (s : string) : option Z :=
  let t := skip_ws s in
  match t with
  | EmptyString => Some 0
  | String c r =>
      let '(neg, body) :=
        if code c =? 45 then (true, r)
        else if code c =? 43 then (false, r) else (false, t) in
      let fix all_digits (u : string) : bool :=
        match u with
        | EmptyString => true
        | String d u' => (is_ws d && String.eqb (skip_ws u') EmptyString)
                         || (match digit_val 10 d with Some _ => all_digits u' | None => false end)
        end in
      match body with
      | EmptyString => None
      | String d _ =>
          match digit_val 10 d with
          | None => None
          | Some _ =>
              if all_digits body then
                match parse_digits 10 body None with
                | Some n => Some (if neg then - n else n)
                | None => None
                end
              else None
          end
      end
  end.

Definition to_number (v : jsval) : option Z :=
  match v with
  | None => None
  | Some JNull => Some 0
  | Some (JBool b) => Some (if b then 1 else 0)
  | Some (JNum n) => Some n
  | Some (JStr s) => string_to_number s
  | Some (JArr l) => string_to_number (toStr (JArr l))
  | Some (JObj _) => None
  end.

(** [a >= b] with a number on the right. *)
Definition ge_number (a : jsval) (b : Z) : bool :=
  match to_number a with
  | Some x => b <=? x
  | None => false
  end.

(** *** String.prototype.split and Array.prototype.join on one separator *)

Fixpoint split (sep : ascii) (s : string) : list string :=
  match s with
  | EmptyString => [EmptyString]
  | String c r =>
      if Ascii.eqb c sep then EmptyString :: split sep r
      else match split sep r with
           | h :: t => String c h :: t
           | [] => [String c EmptyString]
           end
  end.

(** [parts[i] = x]: the array grows when [i] is past its end, and the holes
    left in between are rendered as the empty string by [join]. *)
Fixpoint set_index (i : nat) (x : string) (l : list string) : list string :=
  match i, l with
  | O, [] => [x]
  | O, _ :: r => x :: r
  | S j, [] => EmptyString :: set_index j x []
  | S j, y :: r => y :: set_index j x r
  end.

(** *** Object.keys and Array.prototype.sort *)

Fixpoint indices (n : nat) (from : Z) : list string :=
  match n with
  | O => []
  | S m => string_of_Z from :: indices m (from + 1)
  end.

Definition keys (v : json) : result (list string) :=
  match v with
  | JNull => inl RuntimeTypeError
  | JBool _ => inr []
  | JNum _ => inr []
  | JStr s => inr (indices (String.length s) 0)
  | JArr l => inr (indices (List.length l) 0)
  | JObj fs => inr (map fst fs)
  end.

Fixpoint insert_sorted (k : string) (l : list string) : list string :=
  match l with
  | [] => [k]
  | x :: r => if String.leb k x then k :: l else x :: insert_sorted k r
  end.

(** The default sort orders strings by their code units. *)
Definition sort (l : list string) : list string :=
  fold_right insert_sorted [] l.

(** *** JSON.stringify *)

Definition dquote : ascii := ascii_of_nat 34.
Definition backslash : ascii := ascii_of_nat 92.

Definition hex_digit (n : Z) : ascii :=
  if n <? 10 then ascii_of_nat (48 + Z.to_nat n) else ascii_of_nat (87 + Z.to_nat n).

Definition escape (c : ascii) : string :=
  let n := code c in
  if n =? 8 then String backslash "b"
  else if n =? 9 then String backslash "t"
  else if n =? 10 then String backslash "n"
  else if n =? 12 then String backslash "f"
  else if n =? 13 then String backslash "r"
  else if n =? 34 then String backslash (String dquote EmptyString)
  else if n =? 92 then String backslash (String backslash EmptyString)
  else if n <? 32 then
    String backslash
      ("u00" +:+ String (hex_digit (n / 16)) (String (hex_digit (n mod 16)) EmptyString))
  else String c EmptyString.

Fixpoint escape_all (s : string) : string :=
  match s with
  | EmptyString => EmptyString
  | String c r => escape c +:+ escape_all r
  end.

(** QuoteJSONString *)
Definition quote (s : string) : string :=
  String dquote (escape_all s +:+ String dquote EmptyString).

Fixpoint filter_map {A B : Type} (f : A -> option B) (l : list A) : list B :=
  match l with
  | [] => []
  | x :: r => match f x with
              | Some y => y :: filter_map f r
              | None => filter_map f r
              end
  end.

(** The property list JSON.stringify builds from an array replacer: each
    name once, in order of first occurrence. *)
Fixpoint property_list (seen l : list string) : list string :=
  match l with
  | [] => []
  | k :: r => if existsb (String.eqb k) seen then property_list seen r
              else k :: property_list (k :: seen) r
  end.

(** [serialize K v] is JSON.stringify(v, K) once K is a property list, and
    JSON.stringify(v) when K is [None].  With a property list every object,
    at every depth, is written with the listed properties only, in the
    list's order; arrays are written whole. *)
Fixpoint serialize (K : option (list string)) (v : json) : string :=
  match v with
  | JNull => "null"
  | JBool true => "true"
  | JBool false => "false"
  | JNum n => string_of_Z n
  | JStr s => quote s
  | JArr l => "[" +:+ join "," (map (serialize K) l) +:+ "]"
  | JObj fs =>
      let fix member (k : string) (l : list (string * json)) : option string :=
        match l with
        | [] => None
        | (k', x) :: r =>
            if String.eqb k k' then Some (quote k +:+ ":" +:+ serialize K x)
            else member k r
        end in
      let names := match K with
                   | Some ks => ks
                   | None => map fst fs
                   end in
      "{" +:+ join "," (filter_map (fun k => member k fs) names) +:+ "}"
  end.

Definition stringify (v : json) (replacer : option (list string)) : string :=
  serialize (option_map (property_list []) replacer) v.

(** JSON.parse(JSON.stringify(v)) on a JSON document: a fresh value with the
    same content. *)
Fixpoint deepClone (v : json) : json :=
  match v with
  | JArr l => JArr (map deepClone l)
  | JObj fs => JObj (map (fun '(k, x) => (k, deepClone x)) fs)
  | _ => v
  end.

(** [project K v] keeps, in every object of [v] at every depth, the
    properties named in [K] and no others, in the order of [K]. *)
Fixpoint project (K : list string) (v : json) : json :=
  match v with
  | JArr l => JArr (map (project K) l)
  | JObj fs =>
      let fix pick (k : string) (l : list (string * json)) : option (string * json) :=
        match l with
        | [] => None
        | (k', x) :: r =>
            if String.eqb k k' then Some (k, project K x) else pick k r
        end in
      JObj (filter_map (fun k => pick k fs) K)
  | _ => v
  end.

End JS.

(** ** The regular expressions of the approval gates *)

Module Regex.
Import JS.

(** The patterns of [ApprovalGateEngine] use literals, [.], [\d], [*] on one
    atom, and [$]; all carry the [i] flag and none is anchored at the start. *)
Inductive atom : Type :=
| Lit (c : ascii)
| Dot
| Digit.

Inductive item : Type :=
| One (a : atom)
| Star (a : atom)
| Eol.

Definition regex : Type := list item.

Definition lower (c : ascii) : Z :=
  let n := code c in if (65 <=? n) && (n <=? 90) then n + 32 else n.

Definition atom_matches (a : atom) (c : ascii) : bool :=
  match a with
  | Lit x => lower x =? lower c
  | Dot => negb ((code c =? 10) || (code c =? 13))
  | Digit => (48 <=? code c) && (code c <=? 57)
  end.

(** Does [re] match a prefix of the text? *)
Fixpoint match_here (re : regex) : string -> bool :=
  match re with
  | [] => fun _ => true
  | One a :: re' =>
      fun s => match s with
               | String c r => atom_matches a c && match_here re' r
               | EmptyString => false
               end
  | Star a :: re' =>
      fix star (s : string) : bool :=
        match_here re' s
        || match s with
           | String c r => atom_matches a c && star r
           | EmptyString => false
           end
  | Eol :: re' =>
      fun s => match s with
               | EmptyString => match_here re' s
               | String _ _ => false
               end
  end.

(** RegExp.prototype.test for a pattern without the [g] or [y] flag. *)
Fixpoint test (re : regex) (s : string) : bool :=
  match_here re s
  || match s with
     | String _ r => test re r
     | EmptyString => false
     end.

Definition lit (s : string) : regex :=
  map (fun c => One (Lit c)) (list_ascii_of_string s).

Definition any_run : regex := [Star Dot].

End Regex.

(** ** VersionControlEngine *)

Module VersionControlEngine.
Import JS.

Record Metadata : Type := {
  size : Z;
  platform : jsval;
  category : jsval;
  severity : jsval;
  mitre_techniques : jsval;
  tags : jsval
}.

(** A stored version.  The fields a spread of a missing version would leave
    [undefined] are options; [parent_version] is [None] for [null] and for
    [undefined] alike. *)
Record Version : Type := {
  version_id : string;
  playbook_id : jsval;
  playbook_name : jsval;
  version_number : option string;
  branch : string;
  checksum : option string;
  created_at : Z;
  created_by : string;
  change_description : string;
  parent_version : option string;
  playbook_snapshot : jsval;
  metadata : option Metadata;
  merge_source : option string;
  rollback_from : option string
}.

Record AuditEntry : Type := {
  audit_id : string;
  action : string;
  audit_version_id : option string;
  audit_playbook_id : jsval;
  author : string;
  timestamp : Z;
  description : string;
  details : list (string * jsval)
}.

(** The order in which a call touches the maps, the disk and the audit
    trail. *)
Inductive effect : Type :=
| VersionsSet (id : string)
| BranchesSet (key id : string)
| BranchesDelete (key : string)
| FileWrite (id : string) (ok : bool)
| AuditPush (act : string).

(** The engine: its two maps and audit trail, the version files on disk, and
    the journal of effects so far (oldest first). *)
Record Engine : Type := {
  versions : gmap string Version;
  branches : gmap string string;
  auditTrail : list AuditEntry;
  storage : gmap string Version;
  journal : list effect
}.

Definition initial : Engine :=
  {| versions := ∅; branches := ∅; auditTrail := []; storage := ∅; journal := [] |}.

(** What one call draws from outside: the uuids, the clock, and whether the
    file write succeeds. *)
Record World : Type := {
  uuid : string;
  audit_uuid : string;
  now : Z;
  disk_ok : bool
}.

(** A call: from the engine before to the engine after and the outcome. *)
Definition M (A : Type) : Type := Engine -> Engine * result A.

Definition ret {A : Type} (a : A) : M A := fun st => (st, inr a).

Definition throw {A : Type} (e : exn) : M A := fun st => (st, inl e).

Definition mbind {A B : Type} (m : M A) (k : A -> M B) : M B :=
  fun st => match m st with
            | (st', inr a) => k a st'
            | (st', inl e) => (st', inl e)
            end.

Definition lift {A : Type} (r : result A) : M A := fun st => (st, r).

Definition reads {A : Type} (f : Engine -> A) : M A := fun st => (st, inr (f st)).

(** try { body } catch (error) { throw new Error(prefix + error.message) } *)
Definition rethrow {A : Type} (prefix : string) (body : M A) : M A :=
  fun st => match body st with
            | (st', inl e) => (st', inl (Rethrown prefix e))
            | r => r
            end.

Notation "'let*' x ':=' m 'in' k" := (mbind m (fun x => k))
  (at level 10, x name, m at level 100, k at level 200, only parsing).
Notation "'run' m 'then' k" := (mbind m (fun _ => k))
  (at level 10, m at level 100, k at level 200, only parsing).

Definition log (e : effect) (st : Engine) : Engine :=
  {| versions := versions st; branches := branches st;
     auditTrail := auditTrail st; storage := storage st;
     journal := (journal st ++ [e])%list |}.

Definition versions_set (id : string) (v : Version) : M unit :=
  fun st =>
    (log (VersionsSet id)
       {| versions := <[id := v]> (versions st); branches := branches st;
          auditTrail := auditTrail st; storage := storage st;
          journal := journal st |}, inr tt).

Definition branches_set (key id : string) : M unit :=
  fun st =>
    (log (BranchesSet key id)
       {| versions := versions st; branches := <[key := id]> (branches st);
          auditTrail := auditTrail st; storage := storage st;
          journal := journal st |}, inr tt).

Definition branches_delete (key : string) : M unit :=
  fun st =>
    (log (BranchesDelete key)
       {| versions := versions st; branches := delete key (branches st);
          auditTrail := auditTrail st; storage := storage st;
          journal := journal st |}, inr tt).

(** fs.writeJson(<storagePath>/<version_id>.json, version) *)
Definition persistVersion (w : World) (v : Version) : M unit :=
  fun st =>
    if disk_ok w then
      (log (FileWrite (version_id v) true)
         {| versions := versions st; branches := branches st;
            auditTrail := auditTrail st;
            storage := <[version_id v := v]> (storage st);
            journal := journal st |}, inr tt)
    else (log (FileWrite (version_id v) false) st, inl IOFailure).

Definition lastn {A : Type} (n : nat) (l : list A) : list A :=
  skipn (List.length l - n) l.

Definition addAuditEntry (e : AuditEntry) : M unit :=
  fun st =>
    let trail := (auditTrail st ++ [e])%list in
    let trail' := if 10000 <? Z.of_nat (List.length trail)
                  then lastn (Z.to_nat 5000) trail else trail in
    (log (AuditPush (action e))
       {| versions := versions st; branches := branches st;
          auditTrail := trail'; storage := storage st;
          journal := journal st |}, inr tt).

Fixpoint replace_dash (s : string) : string :=
  match s with
  | EmptyString => EmptyString
  | String c r => String (if code c =? 45 then ascii_of_nat 95 else c) (replace_dash r)
  end.

Definition generateVersionId (w : World) : string :=
  "v_" +:+ replace_dash (uuid w).

(** `${playbookId}:${branch}` *)
Definition branchKey (playbookId : jsval) (branch : string) : string :=
  to_string playbookId +:+ ":" +:+ branch.

Definition nonempty (s : string) : bool := negb (String.eqb s EmptyString).

(** The version number after [number]: its third dot-separated part, read
    by parseInt, plus one. *)
Definition increment (number : string) : string :=
  let parts := split "." number in
  let patch := parseInt (nth_error parts 2) in
  join "." (set_index 2 (string_of_number (option_map (Z.add 1) patch)) parts).

(** The patch component of a version number, as [increment] reads it. *)
Definition patch (number : string) : option Z :=
  parseInt (nth_error (split "." number) 2).

Definition getNextVersionNumber (playbookId : jsval) (branch : string) : M string :=
  fun st =>
    match branches st !! branchKey playbookId branch with
    | None => (st, inr "1.0.0")
    | Some currentVersionId =>
        if nonempty currentVersionId then
          match versions st !! currentVersionId with
          | None => (st, inr "1.0.0")
          | Some currentVersion =>
              match version_number currentVersion with
              | None => (st, inl RuntimeTypeError)
              | Some number => (st, inr (increment number))
              end
          end
        else (st, inr "1.0.0")
    end.

(** this.branches.get(branchKey), where a falsy id counts as none *)
Definition head_id (st : Engine) (key : string) : option string :=
  match branches st !! key with
  | Some id => if nonempty id then Some id else None
  | None => None
  end.

Definition getParentVersion (playbookId : jsval) (branch : string) : M (option string) :=
  reads (fun st => head_id st (branchKey playbookId branch)).

Section Checksum.

(** crypto.createHash('sha256').update(s).digest('hex') *)
Variable sha256 : string -> string.

Definition calculateChecksum (playbook : json) : result string :=
  bind (keys playbook) (fun ks =>
    inr (sha256 (stringify playbook (Some (sort ks))))).

Definition readMetadata (playbook : json) : result Metadata :=
  let p := Some playbook in
  bind (get "platform" p) (fun platform_ =>
  bind (get "use_case" p) (fun use_case =>
  bind (get "use_case_metadata" use_case) (fun ucm =>
  bind (get "category" ucm) (fun category_ =>
  bind (get "risk_model" use_case) (fun risk_model =>
  bind (get "base_severity" risk_model) (fun severity_ =>
  bind (get "mitre_techniques" use_case) (fun techniques =>
  bind (get "metadata" p) (fun md =>
    let t := get_opt "tags" md in
    inr {| size := Z.of_nat (String.length (stringify playbook None));
           platform := platform_;
           category := category_;
           severity := severity_;
           mitre_techniques := techniques;
           tags := if truthy t then t else Some (JArr []) |})))))))).

Definition createVersion (w : World) (playbook : json)
    (changeDescription author_ branch_ : string) : M Version :=
  rethrow "Version creation failed: "
    (let versionId := generateVersionId w in
     let* sum := lift (calculateChecksum playbook) in
     let* pid := lift (get "playbook_id" (Some playbook)) in
     let* pname := lift (get "playbook_name" (Some playbook)) in
     let* number := getNextVersionNumber pid branch_ in
     let* parent := getParentVersion pid branch_ in
     let* md := lift (readMetadata playbook) in
     let version :=
       {| version_id := versionId;
          playbook_id := pid;
          playbook_name := pname;
          version_number := Some number;
          branch := branch_;
          checksum := Some sum;
          created_at := now w;
          created_by := author_;
          change_description := changeDescription;
          parent_version := parent;
          playbook_snapshot := Some (deepClone playbook);
          metadata := Some md;
          merge_source := None;
          rollback_from := None |} in
     run versions_set versionId version then
     run branches_set (branchKey pid branch_) versionId then
     run persistVersion w version then
     run addAuditEntry
       {| audit_id := audit_uuid w;
          action := "create_version";
          audit_version_id := Some versionId;
          audit_playbook_id := pid;
          author := author_;
          timestamp := now w;
          description := changeDescription;
          details := [("checksum", Some (JStr sum))] |} then
     ret version).

End Checksum.

(** [fromVersion.playbook_id !== playbookId] is false exactly when the stored
    id is the string [playbookId]. *)
Definition same_playbook (v : Version) (playbookId : string) : bool :=
  match playbook_id v with
  | Some (JStr s) => String.eqb s playbookId
  | _ => false
  end.

Definition show_number (n : option string) : string :=
  match n with
  | Some s => s
  | None => "undefined"
  end.

(** [{...v}]: the fields of [v], or none at all when [v] is [undefined].
    Fields the callers always overwrite are placeholders here. *)
Definition spread (v : option Version) : Version :=
  match v with
  | Some x => x
  | None =>
      {| version_id := EmptyString; playbook_id := None; playbook_name := None;
         version_number := None; branch := EmptyString; checksum := None;
         created_at := 0; created_by := EmptyString;
         change_description := EmptyString; parent_version := None;
         playbook_snapshot := None; metadata := None; merge_source := None;
         rollback_from := None |}
  end.

Definition createBranch (w : World)
    (playbookId branchName fromVersionId author_ : string) : M Version :=
  rethrow "Branch creation failed: "
    (let* found := reads (fun st => versions st !! fromVersionId) in
     match found with
     | None => throw (Thrown "Source version not found")
     | Some fromVersion =>
         if negb (same_playbook fromVersion playbookId) then
           throw (Thrown "Source version does not belong to specified playbook")
         else
           let key := branchKey (Some (JStr playbookId)) branchName in
           let* taken := reads (fun st => branches st !! key) in
           match taken with
           | Some _ => throw (Thrown ("Branch " +:+ branchName +:+ " already exists"))
           | None =>
               let base := spread (Some fromVersion) in
               let branchVersion :=
                 {| version_id := generateVersionId w;
                    playbook_id := playbook_id base;
                    playbook_name := playbook_name base;
                    version_number := version_number base;
                    branch := branchName;
                    checksum := checksum base;
                    created_at := now w;
                    created_by := author_;
                    change_description :=
                      "Created branch " +:+ branchName +:+ " from version "
                      +:+ show_number (version_number fromVersion);
                    parent_version := Some fromVersionId;
                    playbook_snapshot := playbook_snapshot base;
                    metadata := metadata base;
                    merge_source := merge_source base;
                    rollback_from := rollback_from base |} in
               run versions_set (version_id branchVersion) branchVersion then
               run branches_set key (version_id branchVersion) then
               run persistVersion w branchVersion then
               run addAuditEntry
                 {| audit_id := audit_uuid w;
                    action := "create_branch";
                    audit_version_id := Some (version_id branchVersion);
                    audit_playbook_id := Some (JStr playbookId);
                    author := author_;
                    timestamp := created_at branchVersion;
                    description := "Created branch " +:+ branchName;
                    details := [("from_version", Some (JStr fromVersionId))] |} then
               ret branchVersion
           end
     end).

Definition mergeBranch (w : World)
    (playbookId sourceBranch targetBranch author_ : string) : M Version :=
  rethrow "Branch merge failed: "
    (let sourceBranchKey := branchKey (Some (JStr playbookId)) sourceBranch in
     let targetBranchKey := branchKey (Some (JStr playbookId)) targetBranch in
     let* sourceHead := reads (fun st => branches st !! sourceBranchKey) in
     let* targetVersionId := reads (fun st => branches st !! targetBranchKey) in
     match sourceHead with
     | None => throw (Thrown ("Source branch " +:+ sourceBranch +:+ " not found"))
     | Some sourceVersionId =>
         if negb (nonempty sourceVersionId) then
           throw (Thrown ("Source branch " +:+ sourceBranch +:+ " not found"))
         else
           let* sourceVersion := reads (fun st => versions st !! sourceVersionId) in
           let base := spread sourceVersion in
           let mergeVersion :=
             {| version_id := generateVersionId w;
                playbook_id := playbook_id base;
                playbook_name := playbook_name base;
                version_number := version_number base;
                branch := targetBranch;
                checksum := checksum base;
                created_at := now w;
                created_by := author_;
                change_description :=
                  "Merged branch " +:+ sourceBranch +:+ " into " +:+ targetBranch;
                parent_version := targetVersionId;
                playbook_snapshot := playbook_snapshot base;
                metadata := metadata base;
                merge_source := Some sourceVersionId;
                rollback_from := rollback_from base |} in
           run versions_set (version_id mergeVersion) mergeVersion then
           run branches_set targetBranchKey (version_id mergeVersion) then
           run branches_delete sourceBranchKey then
           run persistVersion w mergeVersion then
           run addAuditEntry
             {| audit_id := audit_uuid w;
                action := "merge_branch";
                audit_version_id := Some (version_id mergeVersion);
                audit_playbook_id := Some (JStr playbookId);
                author := author_;
                timestamp := created_at mergeVersion;
                description := "Merged " +:+ sourceBranch +:+ " into " +:+ targetBranch;
                details := [("source_branch", Some (JStr sourceBranch));
                            ("target_branch", Some (JStr targetBranch))] |} then
           ret mergeVersion
     end).

Definition rollbackToVersion (w : World)
    (playbookId versionId author_ reason : string) : M Version :=
  rethrow "Rollback failed: "
    (let* found := reads (fun st => versions st !! versionId) in
     match found with
     | None => throw (Thrown "Target version not found")
     | Some targetVersion =>
         if negb (same_playbook targetVersion playbookId) then
           throw (Thrown "Version does not belong to specified playbook")
         else
           let base := spread (Some targetVersion) in
           let key := branchKey (Some (JStr playbookId)) (branch targetVersion) in
           let* number := getNextVersionNumber (Some (JStr playbookId)) (branch targetVersion) in
           let* head := reads (fun st => branches st !! key) in
           let rollbackVersion :=
             {| version_id := generateVersionId w;
                playbook_id := playbook_id base;
                playbook_name := playbook_name base;
                version_number := Some number;
                branch := branch base;
                checksum := checksum base;
                created_at := now w;
                created_by := author_;
                change_description :=
                  "Rollback to version " +:+ show_number (version_number targetVersion)
                  +:+ (if nonempty reason then ": " +:+ reason else EmptyString);
                parent_version := head;
                playbook_snapshot := playbook_snapshot base;
                metadata := metadata base;
                merge_source := merge_source base;
                rollback_from := Some versionId |} in
           run versions_set (version_id rollbackVersion) rollbackVersion then
           run branches_set key (version_id rollbackVersion) then
           run persistVersion w rollbackVersion then
           run addAuditEntry
             {| audit_id := audit_uuid w;
                action := "rollback";
                audit_version_id := Some (version_id rollbackVersion);
                audit_playbook_id := Some (JStr playbookId);
                author := author_;
                timestamp := created_at rollbackVersion;
                description :=
                  "Rollback to version " +:+ show_number (version_number targetVersion);
                details := [("rollback_to", Some (JStr versionId));
                            ("reason", Some (JStr reason))] |} then
           ret rollbackVersion
     end).

Definition getVersion (versionId : string) (st : Engine) : option Version :=
  versions st !! versionId.

Definition getLatestVersion (playbookId branch_ : string) (st : Engine) : option Version :=
  match head_id st (branchKey (Some (JStr playbookId)) branch_) with
  | Some versionId => versions st !! versionId
  | None => None
  end.

Section Reachable.

Variable sha256 : string -> string.

(** One call of a version-creating operation, whatever its outcome. *)
Inductive step : Engine -> Engine -> Prop :=
| step_createVersion w playbook changeDescription author_ branch_ st :
    step st (fst (createVersion sha256 w playbook changeDescription author_ branch_ st))
| step_createBranch w playbookId branchName fromVersionId author_ st :
    step st (fst (createBranch w playbookId branchName fromVersionId author_ st))
| step_mergeBranch w playbookId sourceBranch targetBranch author_ st :
    step st (fst (mergeBranch w playbookId sourceBranch targetBranch author_ st))
| step_rollbackToVersion w playbookId versionId author_ reason st :
    step st (fst (rollbackToVersion w playbookId versionId author_ reason st)).

(** The engines a process can be in: the fresh one, and any engine one call
    away from such an engine. *)
Inductive reachable : Engine -> Prop :=
| reachable_initial : reachable initial
| reachable_step st st' : reachable st -> step st st' -> reachable st'.

End Reachable.

End VersionControlEngine.

(** ** ApprovalGateEngine *)

Module ApprovalGateEngine.
Import JS Regex.

Record BusinessHours : Type := {
  enabled : bool;
  start_hour : Z;
  end_hour : Z;
  timezone : string
}.

Record ApprovalRequiredFor : Type := {
  privileged_accounts : bool;
  critical_assets : bool;
  high_risk_score : Z;
  certain_techniques : list string;
  certain_actions : list string;
  business_hours : BusinessHours
}.

Record Escalation : Type := {
  auto_approve_after : Z;
  escalate_after : Z;
  max_approval_time : Z
}.

Record Notifications : Type := {
  email_enabled : bool;
  slack_enabled : bool;
  teams_enabled : bool
}.

(** The configuration document, read once when the engine is built. *)
Record ApprovalConfig : Type := {
  approval_required_for : ApprovalRequiredFor;
  approvers : list (string * list string);
  escalation : Escalation;
  notifications : Notifications
}.

Definition getDefaultApprovalConfig : ApprovalConfig :=
  {| approval_required_for :=
       {| privileged_accounts := true;
          critical_assets := true;
          high_risk_score := 80;
          certain_techniques := ["T1098"; "T1110"; "T1110.003"];
          certain_actions := ["isolate_host"; "block_source_ip"; "disable_account"];
          business_hours :=
            {| enabled := true; start_hour := 9; end_hour := 17; timezone := "UTC" |} |};
     approvers :=
       [("level_1", ["security_analyst"; "team_lead"]);
        ("level_2", ["security_manager"; "incident_commander"]);
        ("level_3", ["ciso"; "director_security"])];
     escalation :=
       {| auto_approve_after := 24; escalate_after := 4; max_approval_time := 48 |};
     notifications :=
       {| email_enabled := true; slack_enabled := true; teams_enabled := false |} |}.

Record Gate : Type := {
  name : string;
  triggered : bool;
  approval_level : string;
  reason : string
}.

Inductive Status : Type := pending | approved | rejected | expired.

Definition status_name (s : Status) : string :=
  match s with
  | pending => "pending"
  | approved => "approved"
  | rejected => "rejected"
  | expired => "expired"
  end.

Definition is_pending (s : Status) : bool :=
  match s with
  | pending => true
  | _ => false
  end.

Record Summary : Type := {
  summary_name : jsval;
  summary_category : jsval;
  summary_severity : jsval;
  summary_risk_score : jsval;
  summary_techniques : jsval;
  summary_actions : jsval
}.

Record ApprovalRequest : Type := {
  approval_id : string;
  playbook_id : jsval;
  playbook_name : jsval;
  request_level : option string;
  gates_triggered : list Gate;
  request_reason : string;
  status : Status;
  created_at : Z;
  expires_at : Z;
  requested_by : jsval;
  execution_context : json;
  playbook_summary : Summary;
  request_approvers : list string;
  notifications_sent : bool;
  approved_by : jsval;
  approved_at : option Z;
  approval_comments : jsval;
  rejected_by : jsval;
  rejected_at : option Z;
  rejection_reason : jsval;
  expired_at : option Z;
  escalated_at : option Z
}.

Record ApprovalDecision : Type := {
  requires_approval : bool;
  decision_level : option string;
  decision_gates : list Gate;
  auto_approve : bool;
  decision_reason : string;
  decision_id : option string;
  decision_expires_at : option Z
}.

Record HistoryEntry : Type := {
  history_action : string;
  history_approval_id : string;
  history_approver : jsval;
  history_timestamp : Z;
  history_note : jsval
}.

(** The engine's state: the approval [Map], in insertion order, and the
    history array. *)
Record Store : Type := {
  approvalStore : list (string * ApprovalRequest);
  approvalHistory : list HistoryEntry
}.

Definition empty_store : Store := {| approvalStore := []; approvalHistory := [] |}.

(** What one call draws from outside: a uuid, the clock in milliseconds, and
    the local hour of day. *)
Record World : Type := {
  uuid : string;
  now : Z;
  hour : Z
}.

(** Map.prototype.set: an existing key keeps its place. *)
Fixpoint map_set {A : Type} (k : string) (x : A) (l : list (string * A)) : list (string * A) :=
  match l with
  | [] => [(k, x)]
  | (k', y) :: r => if String.eqb k k' then (k, x) :: r else (k', y) :: map_set k x r
  end.

Definition includes (l : list string) (v : json) : bool :=
  match v with
  | JStr s => existsb (String.eqb s) l
  | _ => false
  end.

(** The receiver of [.filter] or [.find] has to be an array. *)
Definition as_array (v : jsval) : result (list json) :=
  match v with
  | Some (JArr l) => inr l
  | _ => inl RuntimeTypeError
  end.

Definition or_else (v : jsval) (d : json) : jsval :=
  if truthy v then v else Some d.

Definition some (patterns : list regex) (s : string) : bool :=
  existsb (fun re => test re s) patterns.

Definition isPrivilegedAccount (username : string) : bool :=
  some [ lit "admin"; lit "administrator"; lit "root"; lit "sa" ++ [Eol];
         lit "service"; lit "privileged"; lit "elevated"; lit "sudo";
         lit "domain" ++ any_run ++ lit "admin";
         lit "enterprise" ++ any_run ++ lit "admin" ]%list username.

Definition isHighlyPrivileged (username : string) : bool :=
  some [ lit "domain" ++ any_run ++ lit "admin";
         lit "enterprise" ++ any_run ++ lit "admin";
         lit "ciso";
         lit "security" ++ any_run ++ lit "admin" ]%list username.

Definition isCriticalAsset (hostname : string) : bool :=
  some [ lit "dc" ++ [Star Digit];
         lit "domain" ++ any_run ++ lit "controller";
         lit "ad" ++ any_run ++ lit "server";
         lit "database";
         lit "db" ++ any_run ++ lit "server";
         lit "production"; lit "finance"; lit "hr"; lit "executive";
         lit "critical" ]%list hostname.

Definition isHighlyCriticalAsset (hostname : string) : bool :=
  some [ lit "dc" ++ [Star Digit];
         lit "domain" ++ any_run ++ lit "controller";
         lit "production" ++ any_run ++ lit "db";
         lit "finance" ++ any_run ++ lit "db" ]%list hostname.

Definition hasHighRiskTechniques (techniques : list json) : bool :=
  existsb (includes ["T1098"; "T1110"]) techniques.

Definition hasHighRiskActions (actions : list json) : bool :=
  existsb (includes ["isolate_host"; "disable_account"]) actions.

Definition getApprovalLevelPriority (level : option string) : Z :=
  match level with
  | Some l => if String.eqb l "level_1" then 1
              else if String.eqb l "level_2" then 2
              else if String.eqb l "level_3" then 3 else 0
  | None => 0
  end.

Definition level_key (level : option string) : string :=
  match level with
  | Some l => l
  | None => "null"
  end.

Fixpoint indexOf (x : string) (l : list string) (i : Z) : Z :=
  match l with
  | [] => -1
  | y :: r => if String.eqb x y then i else indexOf x r (i + 1)
  end.

(** levels.indexOf(currentLevel), then the next entry of levels if there is
    one.  A level that is not in the list, [null] included, has index -1. *)
Definition getNextApprovalLevel (currentLevel : option string) : option string :=
  let levels := ["level_1"; "level_2"; "level_3"] in
  let currentIndex := match currentLevel with
                      | Some l => indexOf l levels 0
                      | None => -1
                      end in
  if currentIndex <? Z.of_nat (List.length levels) - 1
  then nth_error levels (Z.to_nat (currentIndex + 1))
  else None.

Definition is_str (v : jsval) (s : string) : bool :=
  match v with
  | Some (JStr t) => String.eqb t s
  | _ => false
  end.

(** riskAdjustments.find(adj => adj.condition === 'high_critical_asset' ||
    adj.condition === 'server_host') *)
Fixpoint find_adjustment (l : list json) : result (option json) :=
  match l with
  | [] => inr None
  | adj :: r =>
      bind (get "condition" (Some adj)) (fun c =>
        if is_str c "high_critical_asset" || is_str c "server_host"
        then inr (Some adj) else find_adjustment r)
  end.

(** The request after the four assignments of approveRequest. *)
Definition approved_request (r : ApprovalRequest) (approver comments : jsval) (t : Z) : ApprovalRequest :=
  {|
     approval_id := approval_id r;
     playbook_id := playbook_id r;
     playbook_name := playbook_name r;
     request_level := request_level r;
     gates_triggered := gates_triggered r;
     request_reason := request_reason r;
     status := approved;
     created_at := created_at r;
     expires_at := expires_at r;
     requested_by := requested_by r;
     execution_context := execution_context r;
     playbook_summary := playbook_summary r;
     request_approvers := request_approvers r;
     notifications_sent := notifications_sent r;
     approved_by := approver;
     approved_at := Some t;
     approval_comments := comments;
     rejected_by := rejected_by r;
     rejected_at := rejected_at r;
     rejection_reason := rejection_reason r;
     expired_at := expired_at r;
     escalated_at := escalated_at r
  |}.

(** The request after the four assignments of rejectRequest. *)
Definition rejected_request (r : ApprovalRequest) (approver reason_ : jsval) (t : Z) : ApprovalRequest :=
  {|
     approval_id := approval_id r;
     playbook_id := playbook_id r;
     playbook_name := playbook_name r;
     request_level := request_level r;
     gates_triggered := gates_triggered r;
     request_reason := request_reason r;
     status := rejected;
     created_at := created_at r;
     expires_at := expires_at r;
     requested_by := requested_by r;
     execution_context := execution_context r;
     playbook_summary := playbook_summary r;
     request_approvers := request_approvers r;
     notifications_sent := notifications_sent r;
     approved_by := approved_by r;
     approved_at := approved_at r;
     approval_comments := approval_comments r;
     rejected_by := approver;
     rejected_at := Some t;
     rejection_reason := reason_;
     expired_at := expired_at r;
     escalated_at := escalated_at r
  |}.

(** The request after the two assignments of checkExpiredApprovals. *)
Definition expired_request (r : ApprovalRequest) (t : Z) : ApprovalRequest :=
  {|
     approval_id := approval_id r;
     playbook_id := playbook_id r;
     playbook_name := playbook_name r;
     request_level := request_level r;
     gates_triggered := gates_triggered r;
     request_reason := request_reason r;
     status := expired;
     created_at := created_at r;
     expires_at := expires_at r;
     requested_by := requested_by r;
     execution_context := execution_context r;
     playbook_summary := playbook_summary r;
     request_approvers := request_approvers r;
     notifications_sent := notifications_sent r;
     approved_by := approved_by r;
     approved_at := approved_at r;
     approval_comments := approval_comments r;
     rejected_by := rejected_by r;
     rejected_at := rejected_at r;
     rejection_reason := rejection_reason r;
     expired_at := Some t;
     escalated_at := escalated_at r
  |}.

(** The request after the three assignments of escalatePendingApprovals. *)
Definition escalated_request (r : ApprovalRequest) (nextLevel : string) (roster : list string) (t : Z) : ApprovalRequest :=
  {|
     approval_id := approval_id r;
     playbook_id := playbook_id r;
     playbook_name := playbook_name r;
     request_level := Some nextLevel;
     gates_triggered := gates_triggered r;
     request_reason := request_reason r;
     status := status r;
     created_at := created_at r;
     expires_at := expires_at r;
     requested_by := requested_by r;
     execution_context := execution_context r;
     playbook_summary := playbook_summary r;
     request_approvers := roster;
     notifications_sent := notifications_sent r;
     approved_by := approved_by r;
     approved_at := approved_at r;
     approval_comments := approval_comments r;
     rejected_by := rejected_by r;
     rejected_at := rejected_at r;
     rejection_reason := rejection_reason r;
     expired_at := expired_at r;
     escalated_at := Some t
  |}.

(** gate.approval_level && (!decision.approval_level ||
    priority(gate.approval_level) > priority(decision.approval_level)) *)
Definition raises_level (gate : Gate) (d : ApprovalDecision) : bool :=
  negb (String.eqb (approval_level gate) EmptyString)
  && (negb (match decision_level d with
            | Some l => negb (String.eqb l EmptyString)
            | None => false
            end)
      || (getApprovalLevelPriority (decision_level d)
          <? getApprovalLevelPriority (Some (approval_level gate)))).

Section Config.

Variable approvalConfig : ApprovalConfig.

Definition getApproversForLevel (level : option string) : list string :=
  match assoc (level_key level) (approvers approvalConfig) with
  | Some roster => roster
  | None => []
  end.

Definition checkPrivilegedAccountGate (playbook : json) : result Gate :=
  bind (get "use_case" (Some playbook)) (fun use_case =>
  bind (get "normalized_fields" use_case) (fun normalizedFields =>
  bind (get "username" normalizedFields) (fun username =>
    if truthy username && isPrivilegedAccount (to_string username) then
      inr {| name := "privileged_account"; triggered := true;
             approval_level :=
               if isHighlyPrivileged (to_string username) then "level_2" else "level_1";
             reason := "Privileged account detected: " +:+ to_string username |}
    else
      inr {| name := "privileged_account"; triggered := false;
             approval_level := "level_1"; reason := EmptyString |}))).

Definition checkCriticalAssetGate (playbook : json) : result Gate :=
  bind (get "use_case" (Some playbook)) (fun use_case =>
  bind (get "normalized_fields" use_case) (fun normalizedFields =>
  bind (get "hostname" normalizedFields) (fun hostname =>
    if truthy hostname && isCriticalAsset (to_string hostname) then
      inr {| name := "critical_asset"; triggered := true;
             approval_level :=
               if isHighlyCriticalAsset (to_string hostname) then "level_3" else "level_2";
             reason := "Critical asset detected: " +:+ to_string hostname |}
    else
      inr {| name := "critical_asset"; triggered := false;
             approval_level := "level_2"; reason := EmptyString |}))).

Definition checkRiskScoreGate (playbook : json) : result Gate :=
  bind (get "use_case" (Some playbook)) (fun use_case =>
  bind (get "risk_model" use_case) (fun risk_model =>
  bind (get "risk_score" risk_model) (fun riskScore =>
    let threshold := high_risk_score (approval_required_for approvalConfig) in
    if ge_number riskScore threshold then
      inr {| name := "risk_score"; triggered := true;
             approval_level := if ge_number riskScore 90 then "level_2" else "level_1";
             reason := "High risk score: " +:+ to_string riskScore
                       +:+ " (threshold: " +:+ string_of_Z threshold +:+ ")" |}
    else
      inr {| name := "risk_score"; triggered := false;
             approval_level := "level_1"; reason := EmptyString |}))).

Definition checkTechniqueGate (playbook : json) : result Gate :=
  bind (get "use_case" (Some playbook)) (fun use_case =>
  bind (get "mitre_techniques" use_case) (fun techniques =>
  bind (as_array techniques) (fun techs =>
    let restrictedTechniques := certain_techniques (approval_required_for approvalConfig) in
    let matchingTechniques := List.filter (includes restrictedTechniques) techs in
    if 0 <? Z.of_nat (List.length matchingTechniques) then
      inr {| name := "technique"; triggered := true;
             approval_level :=
               if hasHighRiskTechniques matchingTechniques then "level_2" else "level_1";
             reason := "Restricted MITRE techniques: "
                       +:+ join ", " (map toStr matchingTechniques) |}
    else
      inr {| name := "technique"; triggered := false;
             approval_level := "level_1"; reason := EmptyString |}))).

Definition checkActionGate (playbook : json) : result Gate :=
  bind (get "actions" (Some playbook)) (fun acts =>
  bind (as_array (or_else (get_opt "automated_actions" acts) (JArr []))) (fun actions =>
    let restrictedActions := certain_actions (approval_required_for approvalConfig) in
    let matchingActions := List.filter (includes restrictedActions) actions in
    if 0 <? Z.of_nat (List.length matchingActions) then
      inr {| name := "action"; triggered := true;
             approval_level :=
               if hasHighRiskActions matchingActions then "level_2" else "level_1";
             reason := "Restricted actions: " +:+ join ", " (map toStr matchingActions) |}
    else
      inr {| name := "action"; triggered := false;
             approval_level := "level_1"; reason := EmptyString |})).

Definition isBusinessHours (w : World) (config : BusinessHours) : bool :=
  (start_hour config <=? hour w) && (hour w <? end_hour config).

Definition checkBusinessHoursGate (w : World) (playbook : json) : result Gate :=
  let config := business_hours (approval_required_for approvalConfig) in
  if enabled config && negb (isBusinessHours w config) then
    inr {| name := "business_hours"; triggered := true;
           approval_level := "level_1"; reason := "Execution outside business hours" |}
  else
    inr {| name := "business_hours"; triggered := false;
           approval_level := "level_1"; reason := EmptyString |}.

Definition checkAssetCriticalityGate (playbook : json) : result Gate :=
  let quiet := {| name := "asset_criticality"; triggered := false;
                  approval_level := "level_1"; reason := EmptyString |} in
  bind (get "use_case" (Some playbook)) (fun use_case =>
  bind (get "asset_context" use_case) (fun assetContext =>
    if truthy (get_opt "asset_criticality_aware" assetContext) then
      bind (get "risk_model" use_case) (fun risk_model =>
      bind (get "risk_adjustments" risk_model) (fun adjustments =>
      bind (as_array (or_else adjustments (JArr []))) (fun riskAdjustments =>
      bind (find_adjustment riskAdjustments) (fun found =>
        match found with
        | Some adj =>
            bind (get "add_score" (Some adj)) (fun add_score =>
              inr {| name := "asset_criticality"; triggered := true;
                     approval_level := if ge_number add_score 30 then "level_2" else "level_1";
                     reason := "High criticality asset involved" |})
        | None => inr quiet
        end))))
    else inr quiet)).

Definition generateApprovalReason (gates : list Gate) : string :=
  "Approval required: " +:+ join "; " (map reason gates).

(** The local clock moved forward by the configured number of hours (a
    change of the local offset within that span is not modelled). *)
Definition calculateExpirationTime (w : World) : Z :=
  now w + max_approval_time (escalation approvalConfig) * 3600000.

Definition shouldSendNotifications : bool :=
  email_enabled (notifications approvalConfig)
  || slack_enabled (notifications approvalConfig).

Definition createPlaybookSummary (playbook : json) : result Summary :=
  let p := Some playbook in
  bind (get "playbook_name" p) (fun pname =>
  bind (get "use_case" p) (fun use_case =>
  bind (get "use_case_metadata" use_case) (fun ucm =>
  bind (get "category" ucm) (fun category_ =>
  bind (get "risk_model" use_case) (fun risk_model =>
  bind (get "base_severity" risk_model) (fun severity_ =>
  bind (get "risk_score" risk_model) (fun score =>
  bind (get "mitre_techniques" use_case) (fun techniques =>
  bind (get "actions" p) (fun acts =>
    inr {| summary_name := pname;
           summary_category := category_;
           summary_severity := severity_;
           summary_risk_score := score;
           summary_techniques := techniques;
           summary_actions := or_else (get_opt "automated_actions" acts) (JArr []) |}))))))))).

(** A call: from the store before to the store after and the outcome. *)
Definition M (A : Type) : Type := Store -> Store * result A.

Definition store_set (id : string) (r : ApprovalRequest) (st : Store) : Store :=
  {| approvalStore := map_set id r (approvalStore st);
     approvalHistory := approvalHistory st |}.

Definition mark_notified (r : ApprovalRequest) : ApprovalRequest :=
  {| approval_id := approval_id r; playbook_id := playbook_id r;
     playbook_name := playbook_name r; request_level := request_level r;
     gates_triggered := gates_triggered r; request_reason := request_reason r;
     status := status r; created_at := created_at r; expires_at := expires_at r;
     requested_by := requested_by r; execution_context := execution_context r;
     playbook_summary := playbook_summary r;
     request_approvers := request_approvers r;
     notifications_sent := true;
     approved_by := approved_by r; approved_at := approved_at r;
     approval_comments := approval_comments r; rejected_by := rejected_by r;
     rejected_at := rejected_at r; rejection_reason := rejection_reason r;
     expired_at := expired_at r; escalated_at := escalated_at r |}.

Definition sendApprovalNotifications (r : ApprovalRequest) (st : Store) : Store :=
  match assoc (approval_id r) (approvalStore st) with
  | Some request => store_set (approval_id r) (mark_notified request) st
  | None => st
  end.

Definition createApprovalRequest (w : World) (d : ApprovalDecision)
    (id : string) (expires : Z) (playbook executionContext : json) : M ApprovalRequest :=
  fun st =>
    match
      bind (get "playbook_id" (Some playbook)) (fun pid =>
      bind (get "playbook_name" (Some playbook)) (fun pname =>
      bind (get "user" (Some executionContext)) (fun user =>
      bind (createPlaybookSummary playbook) (fun summary =>
        inr {| approval_id := id;
               playbook_id := pid;
               playbook_name := pname;
               request_level := decision_level d;
               gates_triggered := decision_gates d;
               request_reason := decision_reason d;
               status := pending;
               created_at := now w;
               expires_at := expires;
               requested_by := or_else user (JStr "system");
               execution_context := executionContext;
               playbook_summary := summary;
               request_approvers := getApproversForLevel (decision_level d);
               notifications_sent := false;
               approved_by := None; approved_at := None; approval_comments := None;
               rejected_by := None; rejected_at := None; rejection_reason := None;
               expired_at := None; escalated_at := None |}))))
    with
    | inl e => (st, inl e)
    | inr approvalRequest =>
        let st1 := store_set id approvalRequest st in
        if shouldSendNotifications then
          (sendApprovalNotifications approvalRequest st1, inr (mark_notified approvalRequest))
        else (st1, inr approvalRequest)
    end.

(** One turn of the loop over the gates. *)
Definition consider (d : ApprovalDecision) (gate : Gate) : ApprovalDecision :=
  if triggered gate then
    {| requires_approval := true;
       decision_level :=
         if raises_level gate d then Some (approval_level gate) else decision_level d;
       decision_gates := (decision_gates d ++ [gate])%list;
       auto_approve := auto_approve d;
       decision_reason := decision_reason d;
       decision_id := decision_id d;
       decision_expires_at := decision_expires_at d |}
  else d.

Definition evaluateApprovalGates (w : World) (playbook executionContext : json)
    : M ApprovalDecision :=
  fun st =>
    let start :=
      {| requires_approval := false; decision_level := None; decision_gates := [];
         auto_approve := false; decision_reason := EmptyString;
         decision_id := None; decision_expires_at := None |} in
    let wrap e := Rethrown "Approval gate evaluation failed: " e in
    match
      bind (checkPrivilegedAccountGate playbook) (fun g1 =>
      bind (checkCriticalAssetGate playbook) (fun g2 =>
      bind (checkRiskScoreGate playbook) (fun g3 =>
      bind (checkTechniqueGate playbook) (fun g4 =>
      bind (checkActionGate playbook) (fun g5 =>
      bind (checkBusinessHoursGate w playbook) (fun g6 =>
      bind (checkAssetCriticalityGate playbook) (fun g7 =>
        inr [g1; g2; g3; g4; g5; g6; g7])))))))
    with
    | inl e => (st, inl (wrap e))
    | inr gates =>
        let d := fold_left consider gates start in
        if requires_approval d then
          let d' :=
            {| requires_approval := requires_approval d;
               decision_level := decision_level d;
               decision_gates := decision_gates d;
               auto_approve := auto_approve d;
               decision_reason := generateApprovalReason (decision_gates d);
               decision_id := Some (uuid w);
               decision_expires_at := Some (calculateExpirationTime w) |} in
          match createApprovalRequest w d' (uuid w) (calculateExpirationTime w)
                  playbook executionContext st with
          | (st', inl e) => (st', inl (wrap e))
          | (st', inr _) => (st', inr d')
          end
        else
          (st, inr {| requires_approval := requires_approval d;
                      decision_level := decision_level d;
                      decision_gates := decision_gates d;
                      auto_approve := true;
                      decision_reason := "No approval gates triggered";
                      decision_id := decision_id d;
                      decision_expires_at := decision_expires_at d |})
    end.

Definition isValidApprover (approver : jsval) (requiredLevel : option string) : bool :=
  match approver with
  | Some a => includes (getApproversForLevel requiredLevel) a
  | None => false
  end.

Definition push_history (h : HistoryEntry) (st : Store) : Store :=
  {| approvalStore := approvalStore st;
     approvalHistory := (approvalHistory st ++ [h])%list |}.

(** approveRequest(approvalId, approver, comments = ''): an absent
    [comments] takes the default. *)
Definition approveRequest (w : World) (approvalId : string) (approver comments : jsval)
    : M ApprovalRequest :=
  fun st =>
    let comments' := match comments with
                     | None => Some (JStr EmptyString)
                     | Some c => Some c
                     end in
    match assoc approvalId (approvalStore st) with
    | None => (st, inl (Thrown "Approval request not found"))
    | Some request =>
        if negb (is_pending (status request)) then
          (st, inl (Thrown ("Approval request is " +:+ status_name (status request)
                            +:+ ", cannot approve")))
        else if negb (isValidApprover approver (request_level request)) then
          (st, inl (Thrown "User is not authorized to approve this request"))
        else
          let request' := approved_request request approver comments' (now w) in
          (push_history
             {| history_action := "approve"; history_approval_id := approvalId;
                history_approver := approver; history_timestamp := now w;
                history_note := comments' |}
             (store_set approvalId request' st),
           inr request')
    end.

Definition rejectRequest (w : World) (approvalId : string) (approver reason_ : jsval)
    : M ApprovalRequest :=
  fun st =>
    match assoc approvalId (approvalStore st) with
    | None => (st, inl (Thrown "Approval request not found"))
    | Some request =>
        if negb (is_pending (status request)) then
          (st, inl (Thrown ("Approval request is " +:+ status_name (status request)
                            +:+ ", cannot reject")))
        else if negb (isValidApprover approver (request_level request)) then
          (st, inl (Thrown "User is not authorized to reject this request"))
        else
          let request' := rejected_request request approver reason_ (now w) in
          (push_history
             {| history_action := "reject"; history_approval_id := approvalId;
                history_approver := approver; history_timestamp := now w;
                history_note := reason_ |}
             (store_set approvalId request' st),
           inr request')
    end.

Definition getApprovalRequest (approvalId : string) (st : Store) : option ApprovalRequest :=
  assoc approvalId (approvalStore st).

Definition getPendingApprovals (user : jsval) (st : Store) : list ApprovalRequest :=
  let pending_ := List.filter (fun r => is_pending (status r)) (map snd (approvalStore st)) in
  if truthy user then
    List.filter (fun r => isValidApprover user (request_level r)) pending_
  else pending_.

(** The body of the loop of checkExpiredApprovals for one entry. *)
Definition expire_one (w : World) (request : ApprovalRequest) : ApprovalRequest :=
  if is_pending (status request) && (expires_at request <? now w)
  then expired_request request (now w) else request.

Definition checkExpiredApprovals (w : World) (st : Store) : Store * list ApprovalRequest :=
  ({| approvalStore := map (fun '(id, r) => (id, expire_one w r)) (approvalStore st);
      approvalHistory := approvalHistory st |},
   filter_map (fun '(_, r) =>
                 if is_pending (status r) && (expires_at r <? now w)
                 then Some (expired_request r (now w)) else None)
              (approvalStore st)).

(** Is the request one the escalation loop looks at: pending, and created
    more than the configured number of hours ago? *)
Definition overdue (w : World) (request : ApprovalRequest) : bool :=
  let escalateAfter := escalate_after (escalation approvalConfig) * 60 * 60 * 1000 in
  is_pending (status request) && (escalateAfter <? now w - created_at request).

(** The body of the loop of escalatePendingApprovals for one entry; [None]
    when the entry is left as it is. *)
Definition escalate_one (w : World) (request : ApprovalRequest) : option ApprovalRequest :=
  if overdue w request then
    match getNextApprovalLevel (request_level request) with
    | Some nextLevel =>
        if negb (String.eqb nextLevel EmptyString) then
          Some (escalated_request request nextLevel
                  (getApproversForLevel (Some nextLevel)) (now w))
        else None
    | None => None
    end
  else None.

Definition escalatePendingApprovals (w : World) (st : Store) : Store * list ApprovalRequest :=
  ({| approvalStore :=
        map (fun '(id, r) => (id, match escalate_one w r with
                                  | Some r' => r'
                                  | None => r
                                  end)) (approvalStore st);
      approvalHistory := approvalHistory st |},
   filter_map (fun '(_, r) => escalate_one w r) (approvalStore st)).

End Config.

End ApprovalGateEngine.

(** ** The reject route of server.js *)

Module Server.
Import JS ApprovalGateEngine.

(** What the handler answers: a 400 with its message, a 500 carrying the
    caught error, or the JSON of the request. *)
Inductive response : Type :=
| BadRequest (error : string)
| ServerError (cause : exn)
| Success (request : ApprovalRequest).

(** app.post('/api/approval/:approvalId/reject', ...) on a parsed body *)
Definition rejectRoute (approvalConfig : ApprovalConfig) (w : World)
    (approvalId : string) (body : json) (st : Store) : Store * response :=
  match
    bind (get "approver" (Some body)) (fun approver =>
    bind (get "reason" (Some body)) (fun reason_ => inr (approver, reason_)))
  with
  | inl e => (st, ServerError e)
  | inr (approver, reason_) =>
      if negb (truthy approver) || negb (truthy reason_) then
        (st, BadRequest "Approver and reason are required")
      else
        match rejectRequest approvalConfig w approvalId approver reason_ st with
        | (st', inr request) => (st', Success request)
        | (st', inl e) => (st', ServerError e)
        end
  end.

End Server.

(** ** The rest of VersionControlEngine: tags, comparison, start-up load *)

Module VersionControlRest.
Import JS VersionControlEngine.

Record Tag : Type := {
  tag_id : string;
  tag_playbook_id : string;
  tag_name : string;
  tag_version_id : string;
  tag_version_number : option string;
  tag_created_at : Z;
  tag_created_by : string;
  tag_description : string
}.

(** The engine together with its [tags] map. *)
Definition Tagged : Type := (Engine * gmap string Tag)%type.

Definition tagKey (playbookId tagName : string) : string :=
  playbookId +:+ ":" +:+ tagName.

Definition createTag (w : World) (playbookId tagName versionId author_ description_ : string)
    (s : Tagged) : Tagged * result Tag :=
  let '(st, tags) := s in
  let fail m := (s, inl (Rethrown "Tag creation failed: " (Thrown m))) in
  match versions st !! versionId with
  | None => fail "Version not found"
  | Some version =>
      if negb (same_playbook version playbookId) then
        fail "Version does not belong to specified playbook"
      else
        match tags !! tagKey playbookId tagName with
        | Some _ => fail ("Tag " +:+ tagName +:+ " already exists")
        | None =>
            let tag :=
              {| tag_id := uuid w;
                 tag_playbook_id := playbookId;
                 tag_name := tagName;
                 tag_version_id := versionId;
                 tag_version_number := version_number version;
                 tag_created_at := now w;
                 tag_created_by := author_;
                 tag_description := description_ |} in
            let '(st', _) :=
              addAuditEntry
                {| audit_id := audit_uuid w;
                   action := "create_tag";
                   audit_version_id := Some versionId;
                   audit_playbook_id := Some (JStr playbookId);
                   author := author_;
                   timestamp := now w;
                   description := "Created tag " +:+ tagName;
                   details := [("tag_id", Some (JStr (uuid w)));
                               ("tag_name", Some (JStr tagName))] |} st in
            ((st', <[tagKey playbookId tagName := tag]> tags), inr tag)
        end
  end.

Definition getTag (playbookId tagName : string) (s : Tagged) : option Tag :=
  snd s !! tagKey playbookId tagName.

(** *** detectChanges and compareVersions *)

(** An object as detectChanges sees it: its own properties in order, each
    with its value, which may be [undefined]. *)
Definition object : Type := list (string * jsval).

Fixpoint indexed (from : Z) (l : list json) : object :=
  match l with
  | [] => []
  | x :: r => (string_of_Z from, Some x) :: indexed (from + 1) r
  end.

Fixpoint chars (s : string) : list json :=
  match s with
  | EmptyString => []
  | String c r => JStr (String c EmptyString) :: chars r
  end.

(** The own enumerable properties of a JSON value; Object.keys throws on
    [null] and [undefined]. *)
Definition properties (v : jsval) : result object :=
  match v with
  | None => inl RuntimeTypeError
  | Some JNull => inl RuntimeTypeError
  | Some (JBool _) => inr []
  | Some (JNum _) => inr []
  | Some (JStr s) => inr (indexed 0 (chars s))
  | Some (JArr l) => inr (indexed 0 l)
  | Some (JObj fs) => inr (map (fun '(k, x) => (k, Some x)) fs)
  end.

(** The metadata object of a version. *)
Definition metadata_object (m : option Metadata) : result object :=
  match m with
  | None => inl RuntimeTypeError
  | Some md =>
      inr [("size", Some (JNum (size md)));
           ("platform", platform md);
           ("category", category md);
           ("severity", severity md);
           ("mitre_techniques", mitre_techniques md);
           ("tags", tags md)]
  end.

(** obj[key] *)
Definition prop (key : string) (o : object) : jsval :=
  match assoc key o with
  | Some v => v
  | None => None
  end.

Definition has (key : string) (names : list string) : bool :=
  existsb (String.eqb key) names.

(** JSON.stringify(v), which is [undefined] on [undefined]. *)
Definition stringify_value (v : jsval) : option string :=
  option_map (fun x => stringify x None) v.

Definition same_text (a b : option string) : bool :=
  match a, b with
  | Some x, Some y => String.eqb x y
  | None, None => true
  | _, _ => false
  end.

Record Changes : Type := {
  added : list (string * jsval);
  modified : list (string * (jsval * jsval));
  removed : list (string * jsval)
}.

Definition detectChanges (obj1 obj2 : object) : Changes :=
  let keys1 := property_list [] (map fst obj1) in
  let keys2 := property_list [] (map fst obj2) in
  {| added :=
       map (fun key => (key, prop key obj2))
         (List.filter (fun key => negb (has key keys1)) keys2);
     modified :=
       map (fun key => (key, (prop key obj1, prop key obj2)))
         (List.filter
            (fun key => has key keys2
                        && negb (same_text (stringify_value (prop key obj1))
                                           (stringify_value (prop key obj2))))
            keys1);
     removed :=
       map (fun key => (key, prop key obj1))
         (List.filter (fun key => negb (has key keys2)) keys1) |}.

Record Comparison : Type := {
  changes : Changes;
  metadata_changes : Changes
}.

(** compareVersions, as far as its two lists of changes go. *)
Definition compareVersions (versionId1 versionId2 : string) (st : Engine) : result Comparison :=
  match versions st !! versionId1, versions st !! versionId2 with
  | Some version1, Some version2 =>
      bind (properties (playbook_snapshot version1)) (fun s1 =>
      bind (properties (playbook_snapshot version2)) (fun s2 =>
      bind (metadata_object (metadata version1)) (fun m1 =>
      bind (metadata_object (metadata version2)) (fun m2 =>
        inr {| changes := detectChanges s1 s2;
               metadata_changes := detectChanges m1 m2 |}))))
  | _, _ => inl (Thrown "One or both versions not found")
  end.

(** *** loadVersions *)

Fixpoint ends_with_json (s : string) : bool :=
  match s with
  | EmptyString => false
  | String _ r => String.eqb s ".json" || ends_with_json r
  end.

(** The loop of loadVersions over the files the directory lists, in the
    order it lists them; each comes with what fs.readJson gives for it,
    [None] when the read throws.  The loop ends at the first read that
    throws: the catch is around all of it.  A file that is read holds a
    version as persistVersion writes them. *)
Fixpoint load_files (files : list (string * option Version)) (st : Engine) : Engine :=
  match files with
  | [] => st
  | (_, None) :: _ => st
  | (_, Some version) :: rest =>
      let st1 := fst (versions_set (version_id version) version st) in
      let st2 := fst (branches_set (branchKey (playbook_id version) (branch version))
                        (version_id version) st1) in
      load_files rest st2
  end.

Definition loadVersions (files : list (string * option Version)) (st : Engine) : Engine :=
  load_files (List.filter (fun f => ends_with_json (fst f)) files) st.

End VersionControlRest.

(** ** The rest of ApprovalGateEngine and of the approval routes *)

Module ApprovalRest.
Import JS ApprovalGateEngine Server.

Definition getApprovalHistory (approvalId : option string) (st : Store) : list HistoryEntry :=
  match approvalId with
  | Some id =>
      if String.eqb id EmptyString then approvalHistory st
      else List.filter (fun entry => String.eqb (history_approval_id entry) id)
             (approvalHistory st)
  | None => approvalHistory st
  end.

(** app.post('/api/approval/:approvalId/approve', ...) on a parsed body *)
Definition approveRoute (approvalConfig : ApprovalConfig) (w : World)
    (approvalId : string) (body : json) (st : Store) : Store * response :=
  match
    bind (get "approver" (Some body)) (fun approver =>
    bind (get "comments" (Some body)) (fun comments => inr (approver, comments)))
  with
  | inl e => (st, ServerError e)
  | inr (approver, comments) =>
      if negb (truthy approver) then (st, BadRequest "Approver is required")
      else
        match approveRequest approvalConfig w approvalId approver comments st with
        | (st', inr request) => (st', Success request)
        | (st', inl e) => (st', ServerError e)
        end
  end.

(** One call of an operation that can change the store. *)
Inductive step (approvalConfig : ApprovalConfig) : Store -> Store -> Prop :=
| step_evaluate w playbook executionContext st :
    step approvalConfig st
      (fst (evaluateApprovalGates approvalConfig w playbook executionContext st))
| step_approve w approvalId approver comments st :
    step approvalConfig st
      (fst (approveRequest approvalConfig w approvalId approver comments st))
| step_reject w approvalId approver reason_ st :
    step approvalConfig st
      (fst (rejectRequest approvalConfig w approvalId approver reason_ st))
| step_expire w st :
    step approvalConfig st (fst (checkExpiredApprovals w st))
| step_escalate w st :
    step approvalConfig st (fst (escalatePendingApprovals approvalConfig w st)).

Inductive reachable (approvalConfig : ApprovalConfig) : Store -> Prop :=
| reachable_empty : reachable approvalConfig empty_store
| reachable_step st st' :
    reachable approvalConfig st -> step approvalConfig st st' ->
    reachable approvalConfig st'.

End ApprovalRest.

(** ** Example documents and calls *)

Module Samples.
Import JS.

(** A stand-in for the hash when an example is run: the serialized text
    itself. *)
Definition plain_digest (s : string) : string := s.

Definition use_case (score : Z) : json :=
  JObj [("use_case_metadata", JObj [("category", JStr "authentication")]);
        ("normalized_fields", JObj [("username", JStr "svc_admin")]);
        ("risk_model", JObj [("base_severity", JStr "High"); ("risk_score", JNum score)]);
        ("mitre_techniques", JArr [JStr "T1110"])].

(** A playbook with an id, and the same playbook with another risk score
    deep inside [use_case]. *)
Definition playbook (score : Z) : json :=
  JObj [("playbook_id", JStr "pb-1");
        ("playbook_name", JStr "Brute force response");
        ("platform", JStr "splunk");
        ("use_case", use_case score)].

(** The same document without its [playbook_id]. *)
Definition anonymous_playbook : json :=
  JObj [("playbook_name", JStr "Brute force response");
        ("platform", JStr "splunk");
        ("use_case", use_case 85)].

Definition call (n : Z) : VersionControlEngine.World :=
  {| VersionControlEngine.uuid := "0000-" +:+ string_of_Z n;
     VersionControlEngine.audit_uuid := "a-" +:+ string_of_Z n;
     VersionControlEngine.now := 1000 * n;
     VersionControlEngine.disk_ok := true |}.

Section Engines.

Variable sha256 : string -> string.

Definition after (m : VersionControlEngine.M VersionControlEngine.Version)
    (st : VersionControlEngine.Engine) : VersionControlEngine.Engine :=
  fst (m st).

(** Three versions on main, a branch cut from the first one, and that branch
    merged back. *)
Definition one_version : VersionControlEngine.Engine :=
  after (VersionControlEngine.createVersion sha256 (call 1) (playbook 85)
           "first" "alice" "main") VersionControlEngine.initial.

Definition three_versions : VersionControlEngine.Engine :=
  after (VersionControlEngine.createVersion sha256 (call 3) (playbook 70)
           "third" "alice" "main")
    (after (VersionControlEngine.createVersion sha256 (call 2) (playbook 60)
              "second" "alice" "main") one_version).

Definition branched : VersionControlEngine.Engine :=
  after (VersionControlEngine.createBranch (call 4) "pb-1" "feature" "v_0000_1" "bob")
    three_versions.

Definition merged : VersionControlEngine.Engine :=
  after (VersionControlEngine.mergeBranch (call 5) "pb-1" "feature" "main" "bob") branched.

End Engines.

(** The configuration of the worked example: the defaults, with T1098 as
    the only restricted technique. *)
Definition example_config : ApprovalGateEngine.ApprovalConfig :=
  {| ApprovalGateEngine.approval_required_for :=
       {| ApprovalGateEngine.privileged_accounts := true;
          ApprovalGateEngine.critical_assets := true;
          ApprovalGateEngine.high_risk_score := 80;
          ApprovalGateEngine.certain_techniques := ["T1098"];
          ApprovalGateEngine.certain_actions :=
            ["isolate_host"; "block_source_ip"; "disable_account"];
          ApprovalGateEngine.business_hours :=
            {| ApprovalGateEngine.enabled := true;
               ApprovalGateEngine.start_hour := 9;
               ApprovalGateEngine.end_hour := 17;
               ApprovalGateEngine.timezone := "UTC" |} |};
     ApprovalGateEngine.approvers :=
       ApprovalGateEngine.approvers ApprovalGateEngine.getDefaultApprovalConfig;
     ApprovalGateEngine.escalation :=
       ApprovalGateEngine.escalation ApprovalGateEngine.getDefaultApprovalConfig;
     ApprovalGateEngine.notifications :=
       ApprovalGateEngine.notifications ApprovalGateEngine.getDefaultApprovalConfig |}.

(** Ten in the morning, and five hours later. *)
Definition morning : ApprovalGateEngine.World :=
  {| ApprovalGateEngine.uuid := "req-1";
     ApprovalGateEngine.now := 36000000;
     ApprovalGateEngine.hour := 10 |}.

Definition afternoon : ApprovalGateEngine.World :=
  {| ApprovalGateEngine.uuid := "req-2";
     ApprovalGateEngine.now := 54000001;
     ApprovalGateEngine.hour := 15 |}.

(** The store after the example playbook was evaluated in the morning. *)
Definition one_request : ApprovalGateEngine.Store :=
  fst (ApprovalGateEngine.evaluateApprovalGates example_config morning (playbook 85)
         (JObj []) ApprovalGateEngine.empty_store).

End Samples.

(** * Facts *)

(** ** Numbers, strings and JSON.stringify *)

Module JSFacts.
Import JS.

Definition is_digit (c : ascii) : bool := (48 <=? code c) && (code c <=? 57).

Fixpoint all_chars (P : ascii -> bool) (s : string) : bool :=
  match s with
  | EmptyString => true
  | String c r => P c && all_chars P r
  end.

Lemma small_cases (d : Z) :
  0 <= d < 10 ->
  d = 0 \/ d = 1 \/ d = 2 \/ d = 3 \/ d = 4 \/ d = 5 \/ d = 6 \/ d = 7 \/ d = 8 \/ d = 9.
Proof. lia. Qed.

Lemma digit_val_digit (d : Z) : 0 <= d < 10 -> digit_val 10 (digit d) = Some d.
Proof.
  intros H. destruct (small_cases d H) as [E|[E|[E|[E|[E|[E|[E|[E|[E|E]]]]]]]]];
    subst d; reflexivity.
Qed.

Lemma is_digit_digit (d : Z) : 0 <= d < 10 -> is_digit (digit d) = true.
Proof.
  intros H. destruct (small_cases d H) as [E|[E|[E|[E|[E|[E|[E|[E|[E|E]]]]]]]]];
    subst d; reflexivity.
Qed.

Lemma digits_all_digits (f : nat) : forall n acc,
  0 <= n -> all_chars is_digit acc = true -> all_chars is_digit (digits f n acc) = true.
Proof.
  induction f as [|f IH]; intros n acc Hn Hacc; cbn [digits].
  - cbn [all_chars]. rewrite is_digit_digit by (apply Z.mod_pos_bound; lia). exact Hacc.
  - destruct (n <? 10) eqn:E.
    + cbn [all_chars]. rewrite is_digit_digit by (apply Z.mod_pos_bound; lia). exact Hacc.
    + apply IH.
      * apply Z.div_pos; lia.
      * cbn [all_chars]. rewrite is_digit_digit by (apply Z.mod_pos_bound; lia). exact Hacc.
Qed.

Lemma digits_nonempty (f : nat) : forall n acc, exists c r, digits f n acc = String c r.
Proof.
  induction f as [|f IH]; intros n acc; cbn [digits].
  - eauto.
  - destruct (n <? 10); eauto.
Qed.

(** Reading back the digits written for [n] gives [n]. *)
Lemma parse_digits_digits (f : nat) : forall n acc,
  0 <= n < 2 ^ Z.of_nat f ->
  parse_digits 10 (digits f n acc) None = parse_digits 10 acc (Some n).
Proof.
  induction f as [|f IH]; intros n acc Hn.
  - assert (n = 0) by (change (2 ^ Z.of_nat 0) with 1 in Hn; lia). subst n. reflexivity.
  - cbn [digits]. destruct (n <? 10) eqn:E.
    + apply Z.ltb_lt in E. cbn [parse_digits]. rewrite Z.mod_small by lia.
      rewrite digit_val_digit by lia. reflexivity.
    + apply Z.ltb_ge in E. rewrite IH.
      * cbn [parse_digits]. rewrite digit_val_digit by (apply Z.mod_pos_bound; lia).
        f_equal. f_equal. pose proof (Z.div_mod n 10). lia.
      * rewrite Nat2Z.inj_succ, Z.pow_succ_r in Hn by lia.
        split; [apply Z.div_pos; lia|].
        apply Z.div_lt_upper_bound; lia.
Qed.

Lemma string_of_nonneg_parse (n : Z) :
  0 <= n -> parse_digits 10 (string_of_nonneg n) None = Some n.
Proof.
  intros Hn. unfold string_of_nonneg. rewrite parse_digits_digits; [reflexivity|].
  split; [exact Hn|].
  destruct (Z.eq_dec n 0) as [->|Hne]; [reflexivity|].
  rewrite Z2Nat.id by (pose proof (Z.log2_nonneg n); lia).
  apply Z.log2_spec. lia.
Qed.

Lemma string_of_nonneg_digits (n : Z) :
  0 <= n -> all_chars is_digit (string_of_nonneg n) = true.
Proof. intros Hn. apply digits_all_digits; [exact Hn|reflexivity]. Qed.

Lemma digit_not_ws (c : ascii) : is_digit c = true -> is_ws c = false.
Proof.
  unfold is_digit, is_ws. intros H. apply andb_true_iff in H as [H1 H2].
  apply Z.leb_le in H1. apply Z.leb_le in H2.
  apply orb_false_iff. split.
  - apply andb_false_iff. right. apply Z.leb_gt. lia.
  - apply Z.eqb_neq. lia.
Qed.

Lemma digit_not_code (c : ascii) (k : Z) :
  is_digit c = true -> (k < 48 \/ 57 < k) -> (code c =? k) = false.
Proof.
  unfold is_digit. intros H Hk. apply andb_true_iff in H as [H1 H2].
  apply Z.leb_le in H1. apply Z.leb_le in H2. apply Z.eqb_neq. lia.
Qed.

(** On a run of digits parseInt is the plain decimal reader. *)
Lemma parseInt_string_digits (s : string) :
  all_chars is_digit s = true ->
  parseInt_string s =
    match parse_digits 10 s None with
    | Some n => Some n
    | None => None
    end.
Proof.
  intros H. unfold parseInt_string. destruct s as [|c r]; [reflexivity|].
  simpl in H. apply andb_true_iff in H as [Hc Hr].
  simpl skip_ws. rewrite (digit_not_ws c Hc).
  rewrite (digit_not_code c 45 Hc) by lia. rewrite (digit_not_code c 43 Hc) by lia.
  destruct r as [|c1 r1]; [reflexivity|].
  simpl in Hr. apply andb_true_iff in Hr as [Hc1 Hr1].
  unfold is_x. rewrite (digit_not_code c1 120 Hc1) by lia.
  rewrite (digit_not_code c1 88 Hc1) by lia.
  rewrite andb_false_r. reflexivity.
Qed.

(** parseInt reads back what toString wrote. *)
Lemma parseInt_string_of_Z (z : Z) : parseInt_string (string_of_Z z) = Some z.
Proof.
  unfold string_of_Z. destruct (z <? 0) eqn:E.
  - apply Z.ltb_lt in E.
    assert (Hd : all_chars is_digit (string_of_nonneg (- z)) = true)
      by (apply string_of_nonneg_digits; lia).
    pose proof (parseInt_string_digits _ Hd) as Hp.
    rewrite string_of_nonneg_parse in Hp by lia.
    unfold parseInt_string in *. simpl skip_ws.
    change (is_ws "-") with false. cbv iota.
    change (code "-" =? 45) with true. cbv iota.
    destruct (string_of_nonneg (- z)) as [|c r] eqn:Es.
    + discriminate Hp.
    + simpl in Hd. apply andb_true_iff in Hd as [Hc Hr].
      simpl skip_ws in Hp. rewrite (digit_not_ws c Hc) in Hp.
      rewrite (digit_not_code c 45 Hc) in Hp by lia.
      rewrite (digit_not_code c 43 Hc) in Hp by lia.
      destruct (match String c r with
                | String c0 (String c1 r0) =>
                    if (code c0 =? 48) && is_x c1 then (16, r0) else (10, String c r)
                | _ => (10, String c r)
                end) as [radix s3].
      destruct (parse_digits radix s3 None); [|discriminate Hp].
      injection Hp as ->. f_equal. lia.
  - apply Z.ltb_ge in E.
    rewrite parseInt_string_digits by (apply string_of_nonneg_digits; lia).
    rewrite string_of_nonneg_parse by lia. reflexivity.
Qed.

(** *** split and join *)

Definition no_sep (sep : ascii) (s : string) : bool :=
  all_chars (fun c => negb (Ascii.eqb c sep)) s.

Lemma all_chars_impl (P Q : ascii -> bool) (s : string) :
  (forall c, P c = true -> Q c = true) ->
  all_chars P s = true -> all_chars Q s = true.
Proof.
  intros HPQ. induction s as [|c r IH]; [reflexivity|].
  cbn [all_chars]. intros H. apply andb_true_iff in H as [Hc Hr].
  rewrite (HPQ c Hc), (IH Hr). reflexivity.
Qed.

Lemma split_parts_no_sep (sep : ascii) (s : string) :
  Forall (fun p => no_sep sep p = true) (split sep s).
Proof.
  induction s as [|c r IH]; cbn [split].
  - repeat constructor.
  - destruct (Ascii.eqb c sep) eqn:E.
    + constructor; [reflexivity|exact IH].
    + destruct (split sep r) as [|h t].
      * constructor; [|constructor]. unfold no_sep. cbn [all_chars]. rewrite E. reflexivity.
      * inversion IH as [|? ? Hh Ht]; subst. constructor; [|exact Ht].
        unfold no_sep in *. cbn [all_chars]. rewrite E, Hh. reflexivity.
Qed.

Lemma split_nonempty (sep : ascii) (s : string) : split sep s <> [].
Proof.
  destruct s as [|c r]; cbn [split]; [discriminate|].
  destruct (Ascii.eqb c sep); [discriminate|].
  destruct (split sep r); discriminate.
Qed.

Lemma split_no_sep (sep : ascii) (x : string) :
  no_sep sep x = true -> split sep x = [x].
Proof.
  unfold no_sep. induction x as [|c r IH]; [reflexivity|].
  cbn [all_chars split]. intros H. apply andb_true_iff in H as [Hc Hr].
  apply negb_true_iff in Hc. rewrite Hc, (IH Hr). reflexivity.
Qed.

Lemma append_nil (s : string) : EmptyString +:+ s = s.
Proof. reflexivity. Qed.

Lemma append_cons (c : ascii) (r s : string) : String c r +:+ s = String c (r +:+ s).
Proof. reflexivity. Qed.

Lemma split_app_sep (sep : ascii) (x rest : string) :
  no_sep sep x = true ->
  split sep (x +:+ String sep rest) = x :: split sep rest.
Proof.
  unfold no_sep. induction x as [|c r IH].
  - intros _. rewrite append_nil. cbn [split]. rewrite Ascii.eqb_refl. reflexivity.
  - rewrite append_cons. cbn [all_chars split]. intros H. apply andb_true_iff in H as [Hc Hr].
    apply negb_true_iff in Hc. rewrite Hc, (IH Hr). reflexivity.
Qed.

(** Splitting what [join] glued gives the parts back, as long as no part
    holds the separator. *)
Lemma split_join (sep : ascii) (l : list string) :
  l <> [] ->
  Forall (fun p => no_sep sep p = true) l ->
  split sep (join (String sep EmptyString) l) = l.
Proof.
  induction l as [|x r IH]; [congruence|].
  intros _ H. inversion H as [|? ? Hx Hr]; subst.
  destruct r as [|y r'].
  - cbn [join]. apply split_no_sep, Hx.
  - change (join (String sep EmptyString) (x :: y :: r'))
      with (x +:+ String sep (join (String sep EmptyString) (y :: r'))).
    rewrite split_app_sep by exact Hx. f_equal. apply IH; [discriminate|exact Hr].
Qed.

Lemma set_index_nth (i : nat) (x : string) : forall l,
  nth_error (set_index i x l) i = Some x.
Proof.
  induction i as [|i IH]; intros [|y r]; cbn [set_index nth_error]; auto.
Qed.

Lemma set_index_nonempty (i : nat) (x : string) (l : list string) :
  set_index i x l <> [].
Proof. destruct i, l; discriminate. Qed.

Lemma set_index_Forall (P : string -> Prop) (i : nat) (x : string) : forall l,
  P x -> P EmptyString -> Forall P l -> Forall P (set_index i x l).
Proof.
  induction i as [|i IH]; intros [|y r] Hx He Hl; cbn [set_index].
  - repeat constructor; exact Hx.
  - inversion Hl; subst. constructor; assumption.
  - constructor; [exact He|]. apply IH; auto.
  - inversion Hl; subst. constructor; [assumption|]. apply IH; auto.
Qed.

Lemma string_of_Z_no_dot (z : Z) : no_sep "." (string_of_Z z) = true.
Proof.
  assert (Hd : forall c, is_digit c = true -> negb (Ascii.eqb c ".") = true).
  { intros c Hc. apply negb_true_iff. destruct (Ascii.eqb c ".") eqn:E; [|reflexivity].
    apply Ascii.eqb_eq in E. subst c. discriminate Hc. }
  unfold string_of_Z, no_sep. destruct (z <? 0) eqn:E.
  - apply Z.ltb_lt in E. cbn [all_chars].
    rewrite (all_chars_impl is_digit _ _ Hd) by (apply string_of_nonneg_digits; lia).
    reflexivity.
  - apply Z.ltb_ge in E.
    apply (all_chars_impl is_digit _ _ Hd), string_of_nonneg_digits. lia.
Qed.

Lemma parseInt_undefined : parseInt None = None.
Proof. reflexivity. Qed.

(** *** JSON.stringify with a property list *)

Section JsonInduction.

Variable P : json -> Prop.
Hypothesis Hnull : P JNull.
Hypothesis Hbool : forall b, P (JBool b).
Hypothesis Hnum : forall n, P (JNum n).
Hypothesis Hstr : forall s, P (JStr s).
Hypothesis Harr : forall l, Forall P l -> P (JArr l).
Hypothesis Hobj : forall fs, Forall (fun kv => P (snd kv)) fs -> P (JObj fs).

Fixpoint json_induction (v : json) : P v :=
  match v with
  | JNull => Hnull
  | JBool b => Hbool b
  | JNum n => Hnum n
  | JStr s => Hstr s
  | JArr l =>
      Harr l ((fix all (l : list json) : Forall P l :=
                 match l with
                 | [] => @List.Forall_nil _ P
                 | x :: r => @List.Forall_cons _ P x r (json_induction x) (all r)
                 end) l)
  | JObj fs =>
      Hobj fs ((fix all (fs : list (string * json)) : Forall (fun kv => P (snd kv)) fs :=
                  match fs with
                  | [] => @List.Forall_nil _ _
                  | (k, x) :: r =>
                      @List.Forall_cons _ (fun kv => P (snd kv)) (k, x) r (json_induction x) (all r)
                  end) fs)
  end.

End JsonInduction.

Lemma filter_map_ext {A B : Type} (f g : A -> option B) (l : list A) :
  (forall x, In x l -> f x = g x) -> filter_map f l = filter_map g l.
Proof.
  induction l as [|x r IH]; intros H; [reflexivity|].
  cbn [filter_map]. rewrite <- (H x) by (left; reflexivity).
  rewrite IH by (intros y Hy; apply H; right; exact Hy). reflexivity.
Qed.

Lemma serialize_obj (K : option (list string)) (fs : list (string * json)) :
  serialize K (JObj fs) =
  "{" +:+ join ","
            (filter_map
               (fun k => option_map (fun x => quote k +:+ ":" +:+ serialize K x) (assoc k fs))
               (match K with Some ks => ks | None => map fst fs end))
      +:+ "}".
Proof.
  cbn [serialize]. do 3 f_equal. apply filter_map_ext. intros k _.
  induction fs as [|[k' x] r IH]; [reflexivity|].
  cbn [assoc]. destruct (String.eqb k k'); [reflexivity|exact IH].
Qed.

Lemma project_obj (K : list string) (fs : list (string * json)) :
  project K (JObj fs) =
  JObj (filter_map (fun k => option_map (fun x => (k, project K x)) (assoc k fs)) K).
Proof.
  cbn [project]. f_equal. apply filter_map_ext. intros k _.
  induction fs as [|[k' x] r IH]; [reflexivity|].
  cbn [assoc]. destruct (String.eqb k k'); [reflexivity|exact IH].
Qed.

Lemma assoc_Forall {A : Type} (P : A -> Prop) (k : string) (x : A) (l : list (string * A)) :
  Forall (fun kv => P (snd kv)) l -> assoc k l = Some x -> P x.
Proof.
  induction 1 as [|[k' y] r Hy _ IH]; cbn [assoc]; [discriminate|].
  destruct (String.eqb k k'); [|exact IH].
  intros E. injection E as <-. exact Hy.
Qed.

Lemma filter_map_through (g : string -> option (string * json))
    (a b : string -> option string) (l : list string) :
  (forall k, In k l -> match g k with
                       | None => a k = None
                       | Some p => a k = b (fst p)
                       end) ->
  filter_map a l = filter_map b (map fst (filter_map g l)).
Proof.
  induction l as [|k r IH]; intros H; [reflexivity|].
  cbn [filter_map]. pose proof (H k (or_introl eq_refl)) as Hk.
  assert (Hr : filter_map a r = filter_map b (map fst (filter_map g r)))
    by (apply IH; intros y Hy; apply H; right; exact Hy).
  destruct (g k) as [p|].
  - cbn [map filter_map]. rewrite <- Hk. rewrite Hr. reflexivity.
  - rewrite Hk. exact Hr.
Qed.

Lemma assoc_projected (K : list string) (fs : list (string * json)) (l : list string)
    (k : string) (x : json) :
  In k l -> assoc k fs = Some x ->
  assoc k (filter_map (fun k => option_map (fun x => (k, project K x)) (assoc k fs)) l)
  = Some (project K x).
Proof.
  intros Hin Hx. induction l as [|k0 r IH]; [contradiction|].
  cbn [filter_map]. destruct (assoc k0 fs) as [x0|] eqn:E0; cbn [option_map].
  - cbn [assoc]. destruct (String.eqb k k0) eqn:Ek.
    + apply String.eqb_eq in Ek. subst k0. rewrite Hx in E0. injection E0 as <-. reflexivity.
    + apply IH. destruct Hin as [->|Hin]; [|exact Hin].
      rewrite String.eqb_refl in Ek. discriminate.
  - apply IH. destruct Hin as [->|Hin]; [|exact Hin]. congruence.
Qed.

Lemma map_eq_Forall {A B : Type} (f g : A -> B) (l : list A) :
  Forall (fun x => f x = g x) l -> map f l = map g l.
Proof.
  induction 1 as [|x r Hx _ IH]; [reflexivity|].
  cbn [map]. rewrite Hx, IH. reflexivity.
Qed.

(** Writing a value with property list [K] is writing, with no replacer, the
    value cut down to the properties named in [K] at every depth. *)
Lemma serialize_project (K : list string) (v : json) :
  serialize (Some K) v = serialize None (project K v).
Proof.
  induction v as [| | | |l IH|fs IH] using json_induction; try reflexivity.
  - cbn [serialize project]. do 3 f_equal. rewrite map_map.
    apply map_eq_Forall, IH.
  - rewrite project_obj, !serialize_obj. do 3 f_equal.
    apply filter_map_through. intros k Hk.
    destruct (assoc k fs) as [x|] eqn:E; cbn [option_map fst]; [|reflexivity].
    rewrite (assoc_projected K fs K k x Hk E). cbn [option_map].
    pose proof (assoc_Forall
                  (fun y => serialize (Some K) y = serialize None (project K y))
                  k x fs IH E) as Hx.
    cbn beta in Hx. rewrite Hx. reflexivity.
Qed.

End JSFacts.

(** ** VersionControlEngine *)

Module VersionControlFacts.
Import JS JSFacts VersionControlEngine.

(** Reduce record projections, and nothing else, in the goal. *)
Ltac record_facts :=
  cbn [fst snd versions branches auditTrail storage journal version_id playbook_id playbook_name version_number branch checksum created_at created_by change_description parent_version playbook_snapshot metadata merge_source rollback_from action spread].

Lemma deepClone_id (v : json) : deepClone v = v.
Proof.
  induction v as [| | | |l IH|fs IH] using json_induction; try reflexivity.
  - cbn [deepClone]. f_equal. rewrite <- (map_id l) at 2. apply map_eq_Forall, IH.
  - cbn [deepClone]. f_equal. rewrite <- (map_id fs) at 2. apply map_eq_Forall.
    eapply List.Forall_impl; [|exact IH]. intros [k x] Hx. cbn in Hx. rewrite Hx. reflexivity.
Qed.

(** The next number after one with patch [n] has patch [n + 1]. *)
Lemma increment_patch (number : string) (n : Z) :
  patch number = Some n -> patch (increment number) = Some (n + 1).
Proof.
  unfold patch, increment. intros H.
  destruct (nth_error (split "." number) 2) as [c|] eqn:E;
    [|rewrite parseInt_undefined in H; discriminate].
  rewrite H. cbn [option_map string_of_number].
  rewrite split_join.
  - rewrite set_index_nth. unfold parseInt. rewrite parseInt_string_of_Z. f_equal. lia.
  - apply set_index_nonempty.
  - apply set_index_Forall; [apply string_of_Z_no_dot|reflexivity|apply split_parts_no_sep].
Qed.

Lemma generateVersionId_nonempty (w : World) : nonempty (generateVersionId w) = true.
Proof. reflexivity. Qed.

Lemma getNextVersionNumber_state (pid : jsval) (b : string) (st : Engine) :
  fst (getNextVersionNumber pid b st) = st.
Proof.
  unfold getNextVersionNumber.
  destruct (branches st !! branchKey pid b) as [id|]; [|reflexivity].
  destruct (nonempty id); [|reflexivity].
  destruct (versions st !! id) as [v|]; [|reflexivity].
  destruct (version_number v); reflexivity.
Qed.

Lemma getNextVersionNumber_error (pid : jsval) (b : string) (st : Engine) (e : exn) :
  snd (getNextVersionNumber pid b st) = inl e -> e = RuntimeTypeError.
Proof.
  unfold getNextVersionNumber.
  destruct (branches st !! branchKey pid b) as [id|]; [|discriminate].
  destruct (nonempty id); [|discriminate].
  destruct (versions st !! id) as [v|]; [|discriminate].
  destruct (version_number v); [discriminate|]. cbn. congruence.
Qed.

Lemma get_error (k : string) (o : jsval) (e : exn) :
  get k o = inl e -> e = RuntimeTypeError.
Proof. destruct o as [[]|]; cbn; congruence. Qed.

Lemma bind_inl {A B : Type} (r : result A) (k : A -> result B) (e : exn) :
  bind r k = inl e -> r = inl e \/ exists a, r = inr a /\ k a = inl e.
Proof. destruct r as [e'|a]; cbn; [left; congruence|right; eauto]. Qed.

Lemma calculateChecksum_error sha256 (p : json) (e : exn) :
  calculateChecksum sha256 p = inl e -> e = RuntimeTypeError.
Proof. destruct p; cbn; congruence. Qed.

Lemma readMetadata_error (p : json) (e : exn) :
  readMetadata p = inl e -> e = RuntimeTypeError.
Proof.
  unfold readMetadata. intros H.
  repeat (apply bind_inl in H as [H|(? & _ & H)]; [exact (get_error _ _ _ H)|]).
  discriminate H.
Qed.

(** The journal a version-creating call leaves behind once it has stored
    its version. *)
Definition stored_journal (st : Engine) (w : World) (id key : string) (act : string)
    : list effect :=
  (journal st ++ [VersionsSet id; BranchesSet key id; FileWrite id (disk_ok w)]
   ++ (if disk_ok w then [AuditPush act] else []))%list.

Definition merged_journal (st : Engine) (w : World) (id target source : string)
    : list effect :=
  (journal st ++ [VersionsSet id; BranchesSet target id; BranchesDelete source;
                  FileWrite id (disk_ok w)]
   ++ (if disk_ok w then [AuditPush "merge_branch"] else []))%list.

Lemma mbind_reads {A B : Type} (f : Engine -> A) (k : A -> M B) (st : Engine) :
  mbind (reads f) k st = k (f st) st.
Proof. reflexivity. Qed.

Lemma mbind_lift {A B : Type} (r : result A) (k : A -> M B) (st : Engine) :
  mbind (lift r) k st = match r with
                        | inr a => k a st
                        | inl e => (st, inl e)
                        end.
Proof. destruct r; reflexivity. Qed.

Lemma mbind_run {A B : Type} (m : M A) (k : A -> M B) (st : Engine) :
  mbind m k st = match m st with
                 | (st', inr a) => k a st'
                 | (st', inl e) => (st', inl e)
                 end.
Proof. reflexivity. Qed.

Lemma mbind_ok {A B : Type} (m : M A) (k : A -> M B) (st st1 : Engine) (a : A) :
  m st = (st1, inr a) -> mbind m k st = k a st1.
Proof. intros E. unfold mbind. rewrite E. reflexivity. Qed.

Lemma mbind_fail {A B : Type} (m : M A) (k : A -> M B) (st st1 : Engine) (e : exn) :
  m st = (st1, inl e) -> mbind m k st = (st1, inl e).
Proof. intros E. unfold mbind. rewrite E. reflexivity. Qed.

Lemma versions_set_spec (id : string) (v : Version) (st : Engine) :
  exists st',
    versions_set id v st = (st', inr tt)
    /\ versions st' = <[id := v]> (versions st)
    /\ branches st' = branches st
    /\ journal st' = (journal st ++ [VersionsSet id])%list.
Proof. eexists. split; [reflexivity|]. repeat split. Qed.

Lemma branches_set_spec (key id : string) (st : Engine) :
  exists st',
    branches_set key id st = (st', inr tt)
    /\ versions st' = versions st
    /\ branches st' = <[key := id]> (branches st)
    /\ journal st' = (journal st ++ [BranchesSet key id])%list.
Proof. eexists. split; [reflexivity|]. repeat split. Qed.

Lemma branches_delete_spec (key : string) (st : Engine) :
  exists st',
    branches_delete key st = (st', inr tt)
    /\ versions st' = versions st
    /\ branches st' = delete key (branches st)
    /\ journal st' = (journal st ++ [BranchesDelete key])%list.
Proof. eexists. split; [reflexivity|]. repeat split. Qed.

Lemma persistVersion_spec (w : World) (v : Version) (st : Engine) :
  exists st',
    persistVersion w v st = (st', if disk_ok w then inr tt else inl IOFailure)
    /\ versions st' = versions st
    /\ branches st' = branches st
    /\ journal st' = (journal st ++ [FileWrite (version_id v) (disk_ok w)])%list.
Proof.
  unfold persistVersion. destruct (disk_ok w); eexists; (split; [reflexivity|]); repeat split.
Qed.

Lemma addAuditEntry_spec (e : AuditEntry) (st : Engine) :
  exists st',
    addAuditEntry e st = (st', inr tt)
    /\ versions st' = versions st
    /\ branches st' = branches st
    /\ journal st' = (journal st ++ [AuditPush (action e)])%list.
Proof. eexists. split; [reflexivity|]. repeat split. Qed.

(** The four statements that end createVersion, createBranch and
    rollbackToVersion. *)
Lemma store_then_persist (w : World) (v : Version) (id key : string) (e : AuditEntry)
    (st : Engine) :
  version_id v = id ->
  exists st',
    mbind (versions_set id v) (fun _ =>
      mbind (branches_set key id) (fun _ =>
        mbind (persistVersion w v) (fun _ =>
          mbind (addAuditEntry e) (fun _ => ret v)))) st
    = (st', if disk_ok w then inr v else inl IOFailure)
    /\ versions st' = <[id := v]> (versions st)
    /\ branches st' = <[key := id]> (branches st)
    /\ journal st' = stored_journal st w id key (action e).
Proof.
  intros Hid. unfold stored_journal.
  destruct (versions_set_spec id v st) as (s1 & E1 & V1 & B1 & J1).
  destruct (branches_set_spec key id s1) as (s2 & E2 & V2 & B2 & J2).
  destruct (persistVersion_spec w v s2) as (s3 & E3 & V3 & B3 & J3).
  destruct (addAuditEntry_spec e s3) as (s4 & E4 & V4 & B4 & J4).
  rewrite (mbind_ok _ _ _ _ _ E1), (mbind_ok _ _ _ _ _ E2).
  destruct (disk_ok w).
  - rewrite (mbind_ok _ _ _ _ _ E3), (mbind_ok _ _ _ _ _ E4).
    exists s4. split; [reflexivity|].
    rewrite V4, V3, V2, V1, B4, B3, B2, B1, J4, J3, J2, J1, Hid, <- !app_assoc.
    repeat split.
  - rewrite (mbind_fail _ _ _ _ _ E3).
    exists s3. split; [reflexivity|].
    rewrite V3, V2, V1, B3, B2, B1, J3, J2, J1, Hid, <- !app_assoc.
    repeat split.
Qed.

(** The five statements that end mergeBranch. *)
Lemma store_then_delete (w : World) (v : Version) (id target source : string)
    (e : AuditEntry) (st : Engine) :
  version_id v = id ->
  action e = "merge_branch" ->
  exists st',
    mbind (versions_set id v) (fun _ =>
      mbind (branches_set target id) (fun _ =>
        mbind (branches_delete source) (fun _ =>
          mbind (persistVersion w v) (fun _ =>
            mbind (addAuditEntry e) (fun _ => ret v))))) st
    = (st', if disk_ok w then inr v else inl IOFailure)
    /\ versions st' = <[id := v]> (versions st)
    /\ branches st' = delete source (<[target := id]> (branches st))
    /\ journal st' = merged_journal st w id target source.
Proof.
  intros Hid He. unfold merged_journal.
  destruct (versions_set_spec id v st) as (s1 & E1 & V1 & B1 & J1).
  destruct (branches_set_spec target id s1) as (s2 & E2 & V2 & B2 & J2).
  destruct (branches_delete_spec source s2) as (s2' & E2' & V2' & B2' & J2').
  destruct (persistVersion_spec w v s2') as (s3 & E3 & V3 & B3 & J3).
  destruct (addAuditEntry_spec e s3) as (s4 & E4 & V4 & B4 & J4).
  rewrite (mbind_ok _ _ _ _ _ E1), (mbind_ok _ _ _ _ _ E2), (mbind_ok _ _ _ _ _ E2').
  destruct (disk_ok w).
  - rewrite (mbind_ok _ _ _ _ _ E3), (mbind_ok _ _ _ _ _ E4).
    exists s4. split; [reflexivity|].
    rewrite V4, V3, V2', V2, V1, B4, B3, B2', B2, B1, J4, J3, J2', J2, J1, Hid, He,
      <- !app_assoc.
    repeat split.
  - rewrite (mbind_fail _ _ _ _ _ E3).
    exists s3. split; [reflexivity|].
    rewrite V3, V2', V2, V1, B3, B2', B2, B1, J3, J2', J2, J1, Hid, <- !app_assoc.
    repeat split.
Qed.

Ltac use_store_then_persist :=
  lazymatch goal with
  | |- context [mbind (versions_set ?id ?v)
                  (fun _ => mbind (branches_set ?key _)
                    (fun _ => mbind (persistVersion ?w _)
                      (fun _ => mbind (addAuditEntry ?e) _))) ?st] =>
      let st' := fresh "st'" in
      let E := fresh "E" in
      destruct (store_then_persist w v id key e st eq_refl) as (st' & E & ? & ? & ?);
      rewrite E; clear E
  end.

(** What createVersion does: it either throws a runtime TypeError with the
    engine untouched, or stores a version, moves the branch pointer, writes
    the file and appends to the audit trail, in that order. *)
Lemma createVersion_effect sha256 (w : World) (p : json) (d a b : string) (st : Engine) :
  let r := createVersion sha256 w p d a b st in
  (r = (st, inl (Rethrown "Version creation failed: " RuntimeTypeError))
   /\ (keys p = inl RuntimeTypeError
       \/ (exists pid, get "playbook_id" (Some p) = inr pid
                       /\ snd (getNextVersionNumber pid b st) = inl RuntimeTypeError)
       \/ readMetadata p = inl RuntimeTypeError))
  \/ exists v sum pid number md,
       calculateChecksum sha256 p = inr sum
       /\ get "playbook_id" (Some p) = inr pid
       /\ getNextVersionNumber pid b st = (st, inr number)
       /\ readMetadata p = inr md
       /\ version_id v = generateVersionId w
       /\ playbook_id v = pid
       /\ version_number v = Some number
       /\ branch v = b
       /\ checksum v = Some sum
       /\ parent_version v = head_id st (branchKey pid b)
       /\ playbook_snapshot v = Some p
       /\ versions (fst r) = <[generateVersionId w := v]> (versions st)
       /\ branches (fst r) = <[branchKey pid b := generateVersionId w]> (branches st)
       /\ journal (fst r)
          = stored_journal st w (generateVersionId w) (branchKey pid b) "create_version"
       /\ snd r = if disk_ok w then inr v
                  else inl (Rethrown "Version creation failed: " IOFailure).
Proof.
  cbv zeta. unfold createVersion, rethrow. rewrite mbind_lift.
  destruct (calculateChecksum sha256 p) as [e|sum] eqn:Esum.
  { left. rewrite (calculateChecksum_error _ _ _ Esum). split; [reflexivity|].
    left. destruct p; try discriminate Esum. reflexivity. }
  rewrite mbind_lift.
  destruct (get "playbook_id" (Some p)) as [e|pid] eqn:Epid.
  { destruct p; try discriminate Epid; discriminate Esum. }
  rewrite mbind_lift.
  destruct (get "playbook_name" (Some p)) as [e|pname] eqn:Epname.
  { destruct p; try discriminate Epname; discriminate Esum. }
  pose proof (getNextVersionNumber_state pid b st) as Hst.
  pose proof (getNextVersionNumber_error pid b st) as Herr.
  rewrite (mbind_run (getNextVersionNumber pid b)).
  destruct (getNextVersionNumber pid b st) as [st1 [e|number]] eqn:Enum;
    cbn [fst snd] in Hst, Herr; subst st1.
  { left. pose proof (Herr e eq_refl). subst e. split; [reflexivity|]. right. left.
    exists pid. rewrite Enum. auto. }
  unfold getParentVersion. rewrite mbind_reads, mbind_lift.
  destruct (readMetadata p) as [e|md] eqn:Emd.
  { left. rewrite (readMetadata_error _ _ Emd). split; [reflexivity|]. right. right.
    reflexivity. }
  right. rewrite deepClone_id. cbv beta zeta.
  lazymatch goal with
  | |- context [versions_set _ ?v] => exists v, sum, pid, number, md
  end.
  use_store_then_persist.
  destruct (disk_ok w); record_facts; repeat split; assumption || reflexivity.
Qed.

Lemma createBranch_effect (w : World) (pid bn from a : string) (st : Engine) :
  let r := createBranch w pid bn from a st in
  let key := branchKey (Some (JStr pid)) bn in
  (exists m, r = (st, inl (Rethrown "Branch creation failed: " (Thrown m))))
  \/ exists fv v,
       versions st !! from = Some fv
       /\ same_playbook fv pid = true
       /\ branches st !! key = None
       /\ version_id v = generateVersionId w
       /\ playbook_id v = playbook_id fv
       /\ version_number v = version_number fv
       /\ branch v = bn
       /\ checksum v = checksum fv
       /\ parent_version v = Some from
       /\ playbook_snapshot v = playbook_snapshot fv
       /\ versions (fst r) = <[generateVersionId w := v]> (versions st)
       /\ branches (fst r) = <[key := generateVersionId w]> (branches st)
       /\ journal (fst r) = stored_journal st w (generateVersionId w) key "create_branch"
       /\ snd r = if disk_ok w then inr v
                  else inl (Rethrown "Branch creation failed: " IOFailure).
Proof.
  cbv zeta. unfold createBranch, rethrow. rewrite mbind_reads.
  destruct (versions st !! from) as [fv|] eqn:Efrom; [|left; eauto].
  destruct (same_playbook fv pid) eqn:Esame; cbn [negb]; [|left; eauto].
  rewrite mbind_reads.
  destruct (branches st !! branchKey (Some (JStr pid)) bn) as [id|] eqn:Ekey; [left; eauto|].
  right. cbv beta zeta.
  lazymatch goal with
  | |- context [versions_set _ ?v] => exists fv, v
  end.
  use_store_then_persist.
  destruct (disk_ok w); record_facts; repeat split; assumption || reflexivity.
Qed.

Lemma mergeBranch_effect (w : World) (pid sb tb a : string) (st : Engine) :
  let r := mergeBranch w pid sb tb a st in
  let source := branchKey (Some (JStr pid)) sb in
  let target := branchKey (Some (JStr pid)) tb in
  match branches st !! source with
  | None =>
      r = (st, inl (Rethrown "Branch merge failed: "
                      (Thrown ("Source branch " +:+ sb +:+ " not found"))))
  | Some sid =>
      if nonempty sid then
        exists v,
          let base := spread (versions st !! sid) in
          version_id v = generateVersionId w
          /\ playbook_id v = playbook_id base
          /\ version_number v = version_number base
          /\ branch v = tb
          /\ checksum v = checksum base
          /\ parent_version v = branches st !! target
          /\ playbook_snapshot v = playbook_snapshot base
          /\ merge_source v = Some sid
          /\ versions (fst r) = <[generateVersionId w := v]> (versions st)
          /\ branches (fst r)
             = delete source (<[target := generateVersionId w]> (branches st))
          /\ journal (fst r) = merged_journal st w (generateVersionId w) target source
          /\ snd r = if disk_ok w then inr v
                     else inl (Rethrown "Branch merge failed: " IOFailure)
      else
        r = (st, inl (Rethrown "Branch merge failed: "
                        (Thrown ("Source branch " +:+ sb +:+ " not found"))))
  end.
Proof.
  cbv zeta. unfold mergeBranch, rethrow. rewrite !mbind_reads.
  destruct (branches st !! branchKey (Some (JStr pid)) sb) as [sid|] eqn:Esrc; [|reflexivity].
  destruct (nonempty sid) eqn:Esid; cbn [negb]; [|reflexivity].
  rewrite mbind_reads. cbv beta zeta.
  lazymatch goal with
  | |- context [mbind (versions_set ?id ?v)
                  (fun _ => mbind (branches_set ?key _)
                    (fun _ => mbind (branches_delete ?src)
                      (fun _ => mbind (persistVersion ?w _)
                        (fun _ => mbind (addAuditEntry ?e) _)))) ?st] =>
      exists v;
      destruct (store_then_delete w v id key src e st eq_refl eq_refl)
        as (st' & E & ? & ? & ?);
      rewrite E; clear E
  end.
  destruct (disk_ok w); record_facts; repeat split; assumption || reflexivity.
Qed.

Lemma rollbackToVersion_effect (w : World) (pid vid a reason_ : string) (st : Engine) :
  let r := rollbackToVersion w pid vid a reason_ st in
  (exists e, r = (st, inl (Rethrown "Rollback failed: " e)))
  \/ exists tv v number,
       let key := branchKey (Some (JStr pid)) (branch tv) in
       versions st !! vid = Some tv
       /\ same_playbook tv pid = true
       /\ getNextVersionNumber (Some (JStr pid)) (branch tv) st = (st, inr number)
       /\ version_id v = generateVersionId w
       /\ playbook_id v = playbook_id tv
       /\ version_number v = Some number
       /\ branch v = branch tv
       /\ checksum v = checksum tv
       /\ parent_version v = branches st !! key
       /\ playbook_snapshot v = playbook_snapshot tv
       /\ rollback_from v = Some vid
       /\ versions (fst r) = <[generateVersionId w := v]> (versions st)
       /\ branches (fst r) = <[key := generateVersionId w]> (branches st)
       /\ journal (fst r) = stored_journal st w (generateVersionId w) key "rollback"
       /\ snd r = if disk_ok w then inr v
                  else inl (Rethrown "Rollback failed: " IOFailure).
Proof.
  cbv zeta. unfold rollbackToVersion, rethrow. rewrite mbind_reads.
  destruct (versions st !! vid) as [tv|] eqn:Evid; [|left; eauto].
  destruct (same_playbook tv pid) eqn:Esame; cbn [negb]; [|left; eauto].
  pose proof (getNextVersionNumber_state (Some (JStr pid)) (branch tv) st) as Hst.
  rewrite (mbind_run (getNextVersionNumber (Some (JStr pid)) (branch tv))).
  destruct (getNextVersionNumber (Some (JStr pid)) (branch tv) st) as [st1 [e|number]] eqn:Enum;
    cbn [fst snd] in Hst; subst st1; [left; eauto|].
  rewrite mbind_reads.
  right. cbv beta zeta.
  lazymatch goal with
  | |- context [versions_set _ ?v] => exists tv, v, number
  end.
  use_store_then_persist.
  destruct (disk_ok w); record_facts; repeat split; assumption || reflexivity.
Qed.

Section Invariant.

Variable sha256 : string -> string.

(** The stored checksum is the checksum of the stored snapshot. *)
Definition checksum_matches (v : Version) : Prop :=
  exists snap sum,
    playbook_snapshot v = Some snap
    /\ calculateChecksum sha256 snap = inr sum
    /\ checksum v = Some sum.

Definition numbered (v : Version) : Prop :=
  exists s n, version_number v = Some s /\ patch s = Some n.

(** What every reachable engine satisfies: branch pointers name stored
    versions, and stored versions carry a matching checksum and a version
    number with a numeric patch. *)
Record consistent (st : Engine) : Prop := {
  heads_stored : forall key id,
    branches st !! key = Some id ->
    nonempty id = true /\ is_Some (versions st !! id);
  versions_checked : forall id v, versions st !! id = Some v -> checksum_matches v;
  versions_numbered : forall id v, versions st !! id = Some v -> numbered v
}.

Lemma consistent_initial : consistent initial.
Proof.
  split; cbn; intros ? ? H; rewrite lookup_empty in H; discriminate.
Qed.

Lemma consistent_stored (st st' : Engine) (v : Version) :
  consistent st ->
  versions st' = <[version_id v := v]> (versions st) ->
  (forall key id, branches st' !! key = Some id ->
                  id = version_id v \/ branches st !! key = Some id) ->
  nonempty (version_id v) = true ->
  checksum_matches v ->
  numbered v ->
  consistent st'.
Proof.
  intros [Hh Hc Hn] Hv Hb Hid Hsum Hnum. split.
  - intros key id H. rewrite Hv. destruct (Hb key id H) as [->|Hold].
    + split; [exact Hid|]. rewrite lookup_insert_eq. eauto.
    + destruct (Hh key id Hold) as [Hne Hs]. split; [exact Hne|].
      rewrite lookup_insert. destruct (decide (version_id v = id)); eauto.
  - intros id v'. rewrite Hv, lookup_insert.
    destruct (decide (version_id v = id)); [intros [= <-]; exact Hsum|apply Hc].
  - intros id v'. rewrite Hv, lookup_insert.
    destruct (decide (version_id v = id)); [intros [= <-]; exact Hnum|apply Hn].
Qed.

Lemma lookup_moved (m : gmap string string) (key key' id id' : string) :
  <[key := id]> m !! key' = Some id' -> id' = id \/ m !! key' = Some id'.
Proof.
  rewrite lookup_insert. destruct (decide (key = key')); [intros [= <-]; left|right]; auto.
Qed.

(** What getNextVersionNumber returns in a consistent engine. *)
Lemma next_number (st : Engine) (pid : jsval) (b number : string) :
  consistent st ->
  getNextVersionNumber pid b st = (st, inr number) ->
  match branches st !! branchKey pid b with
  | None => number = "1.0.0"
  | Some id =>
      exists hv s n,
        versions st !! id = Some hv /\ version_number hv = Some s
        /\ patch s = Some n /\ number = increment s
  end.
Proof.
  intros [Hh _ Hn]. unfold getNextVersionNumber.
  destruct (branches st !! branchKey pid b) as [id|] eqn:E; [|congruence].
  destruct (Hh _ _ E) as [Hne [hv Hhv]]. rewrite Hne, Hhv.
  destruct (Hn _ _ Hhv) as (s & n & Hs & Hp). rewrite Hs.
  intros [= <-]. eauto 10.
Qed.

Lemma next_number_total (st : Engine) (pid : jsval) (b : string) :
  consistent st -> exists number, getNextVersionNumber pid b st = (st, inr number).
Proof.
  intros [Hh _ Hn]. unfold getNextVersionNumber.
  destruct (branches st !! branchKey pid b) as [id|] eqn:E; [|eauto].
  destruct (Hh _ _ E) as [Hne [hv Hhv]]. rewrite Hne, Hhv.
  destruct (Hn _ _ Hhv) as (s0 & n & Hs & Hp). rewrite Hs. eauto.
Qed.

Lemma next_number_patch (st : Engine) (pid : jsval) (b number : string) :
  consistent st ->
  getNextVersionNumber pid b st = (st, inr number) ->
  exists n, patch number = Some n.
Proof.
  intros Hc Hnum. pose proof (next_number st pid b number Hc Hnum) as H.
  destruct (branches st !! branchKey pid b).
  - destruct H as (hv & s0 & n & _ & _ & Hp & ->). eauto using increment_patch.
  - subst number. exists 0. reflexivity.
Qed.

Lemma step_consistent (st st' : Engine) :
  step sha256 st st' -> consistent st -> consistent st'.
Proof.
  intros Hstep Hc. destruct Hstep as [w p d a b st|w pid bn from a st|w pid sb tb a st|w pid vid a rs st].
  - destruct (createVersion_effect sha256 w p d a b st) as [[E _]|(v & sum & id & number & md & H)].
    + rewrite E. exact Hc.
    + destruct H as (Hsum & _ & Hnum & _ & Hid & _ & Hvn & _ & Hck & _ & Hsnap & Hv & Hb & _).
      apply (consistent_stored st _ v Hc).
      * rewrite Hid. exact Hv.
      * intros key i. rewrite Hb, Hid. apply lookup_moved.
      * rewrite Hid. reflexivity.
      * exists p, sum. auto.
      * destruct (next_number_patch st id b number Hc Hnum) as [n Hn]. exists number, n. auto.
  - destruct (createBranch_effect w pid bn from a st) as [[m E]|(fv & v & H)].
    + rewrite E. exact Hc.
    + destruct H as (Hfv & _ & _ & Hid & _ & Hvn & _ & Hck & _ & Hsnap & Hv & Hb & _).
      apply (consistent_stored st _ v Hc).
      * rewrite Hid. exact Hv.
      * intros key i. rewrite Hb, Hid. apply lookup_moved.
      * rewrite Hid. reflexivity.
      * destruct (versions_checked st Hc _ _ Hfv) as (snap & sum & ? & ? & ?).
        exists snap, sum. repeat split; congruence.
      * destruct (versions_numbered st Hc _ _ Hfv) as (s & n & ? & ?).
        exists s, n. split; congruence.
  - pose proof (mergeBranch_effect w pid sb tb a st) as H. cbv zeta in H.
    destruct (branches st !! branchKey (Some (JStr pid)) sb) as [sid|] eqn:Esrc;
      [|rewrite H; exact Hc].
    destruct (heads_stored st Hc _ _ Esrc) as [Hne [sv Hsv]]. rewrite Hne in H.
    destruct H as (v & Hid & _ & Hvn & _ & Hck & _ & Hsnap & _ & Hv & Hb & _).
    rewrite Hsv in Hvn, Hck, Hsnap. cbn [spread] in Hvn, Hck, Hsnap.
    apply (consistent_stored st _ v Hc).
    + rewrite Hid. exact Hv.
    + intros key i. rewrite Hb, Hid, lookup_delete.
      destruct (decide (branchKey (Some (JStr pid)) sb = key)); [discriminate|].
      apply lookup_moved.
    + rewrite Hid. reflexivity.
    + destruct (versions_checked st Hc _ _ Hsv) as (snap & sum & ? & ? & ?).
      exists snap, sum. repeat split; congruence.
    + destruct (versions_numbered st Hc _ _ Hsv) as (s & n & ? & ?).
      exists s, n. split; congruence.
  - destruct (rollbackToVersion_effect w pid vid a rs st) as [[e E]|(tv & v & number & H)].
    + rewrite E. exact Hc.
    + cbv zeta in H.
      destruct H as (Htv & _ & Hnum & Hid & _ & Hvn & _ & Hck & _ & Hsnap & _ & Hv & Hb & _).
      apply (consistent_stored st _ v Hc).
      * rewrite Hid. exact Hv.
      * intros key i. rewrite Hb, Hid. apply lookup_moved.
      * rewrite Hid. reflexivity.
      * destruct (versions_checked st Hc _ _ Htv) as (snap & sum & ? & ? & ?).
        exists snap, sum. repeat split; congruence.
      * destruct (next_number_patch st _ _ number Hc Hnum) as [n Hn]. exists number, n. auto.
Qed.

Lemma reachable_consistent (st : Engine) : reachable sha256 st -> consistent st.
Proof.
  induction 1 as [|st st' _ IH Hstep]; [apply consistent_initial|].
  exact (step_consistent st st' Hstep IH).
Qed.

End Invariant.

End VersionControlFacts.

(** ** The claims about the version store *)

Module VersionControlClaims.
Import JS JSFacts VersionControlEngine VersionControlFacts Samples.

(** C2.  In every engine reached by createVersion, createBranch, mergeBranch
    and rollbackToVersion calls, every stored version has a snapshot, and its
    checksum is the hash of that snapshot serialized with its sorted
    top-level keys as replacer, which is what calculateChecksum computes. *)
Theorem stored_checksum_is_hash_of_snapshot sha256 (st : Engine) (id : string) (v : Version) :
  reachable sha256 st ->
  versions st !! id = Some v ->
  exists snap ks,
    playbook_snapshot v = Some snap
    /\ keys snap = inr ks
    /\ calculateChecksum sha256 snap = inr (sha256 (stringify snap (Some (sort ks))))
    /\ checksum v = Some (sha256 (stringify snap (Some (sort ks)))).
Proof.
  intros Hr Hv.
  destruct (versions_checked sha256 st (reachable_consistent sha256 st Hr) id v Hv)
    as (snap & sum & Hsnap & Hsum & Hck).
  unfold calculateChecksum in Hsum.
  destruct (keys snap) as [e|ks] eqn:Ek; [discriminate|].
  cbn [bind] in Hsum. injection Hsum as <-.
  exists snap, ks. unfold calculateChecksum. rewrite Ek. auto.
Qed.

Lemma reachable_one_version sha256 : reachable sha256 (one_version sha256).
Proof.
  exact (reachable_step sha256 _ _ (reachable_initial sha256)
           (step_createVersion sha256 (call 1) (playbook 85) "first" "alice" "main" initial)).
Defined.

Lemma stored_checksum_is_hash_of_snapshot_witness :
  exists v snap ks,
    versions (one_version plain_digest) !! "v_0000_1" = Some v
    /\ playbook_snapshot v = Some snap
    /\ keys snap = inr ks
    /\ calculateChecksum plain_digest snap
       = inr (plain_digest (stringify snap (Some (sort ks))))
    /\ checksum v = Some (plain_digest (stringify snap (Some (sort ks)))).
Proof.
  assert (E : is_Some (versions (one_version plain_digest) !! "v_0000_1"))
    by (vm_compute; eauto).
  destruct E as [v E].
  destruct (stored_checksum_is_hash_of_snapshot plain_digest (one_version plain_digest)
              "v_0000_1" v (reachable_one_version plain_digest) E) as (snap & ks & H).
  exists v, snap, ks. split; [exact E|exact H].
Defined.

(** A createVersion call that returns a version has stored it and moved the
    branch pointer to it. *)
Lemma createVersion_returns sha256 (w : World) (p : json) (d a b : string)
    (st st' : Engine) (v : Version) :
  createVersion sha256 w p d a b st = (st', inr v) ->
  exists sum pid number,
    calculateChecksum sha256 p = inr sum
    /\ get "playbook_id" (Some p) = inr pid
    /\ getNextVersionNumber pid b st = (st, inr number)
    /\ version_id v = generateVersionId w
    /\ playbook_id v = pid
    /\ version_number v = Some number
    /\ parent_version v = head_id st (branchKey pid b)
    /\ versions st' = <[generateVersionId w := v]> (versions st)
    /\ branches st' = <[branchKey pid b := generateVersionId w]> (branches st).
Proof.
  intros E.
  destruct (createVersion_effect sha256 w p d a b st)
    as [[F _]|(v' & sum & pid & number & md & H)].
  - rewrite F in E. discriminate E.
  - rewrite E in H. cbn [fst snd] in H.
    destruct H as (Hsum & Hpid & Hnum & _ & Hid & Hp & Hvn & _ & _ & Hpar & _ & Hv & Hb & _ & Hout).
    destruct (disk_ok w); [|discriminate Hout]. injection Hout as ->.
    exists sum, pid, number. repeat split; assumption.
Qed.

(** C5.  Two createVersion calls in a row for the same playbook and branch:
    the patch component of the second version number is one more than that
    of the first, so strictly greater; the second version's parent_version is
    the first version's id; and when the branch had no head before the first
    call, the first version is numbered 1.0.0. *)
Theorem sequential_versions_increase sha256 (st st1 st2 : Engine) (w1 w2 : World)
    (p1 p2 : json) (d1 d2 a1 a2 b : string) (v1 v2 : Version) :
  reachable sha256 st ->
  get "playbook_id" (Some p1) = get "playbook_id" (Some p2) ->
  createVersion sha256 w1 p1 d1 a1 b st = (st1, inr v1) ->
  createVersion sha256 w2 p2 d2 a2 b st1 = (st2, inr v2) ->
  exists s1 s2 n1 n2,
    version_number v1 = Some s1
    /\ version_number v2 = Some s2
    /\ patch s1 = Some n1
    /\ patch s2 = Some n2
    /\ n2 = n1 + 1
    /\ n1 < n2
    /\ parent_version v2 = Some (version_id v1)
    /\ (forall pid, get "playbook_id" (Some p1) = inr pid ->
                    branches st !! branchKey pid b = None -> s1 = "1.0.0").
Proof.
  intros Hr Hsame E1 E2.
  pose proof (reachable_consistent sha256 st Hr) as Hc.
  assert (Hc1 : consistent sha256 st1).
  { apply (step_consistent sha256 st st1); [|exact Hc].
    replace st1 with (fst (createVersion sha256 w1 p1 d1 a1 b st)) by (rewrite E1; reflexivity).
    constructor. }
  destruct (createVersion_returns _ _ _ _ _ _ _ _ _ E1)
    as (sum1 & pid1 & s1 & _ & Hpid1 & Hnum1 & Hid1 & _ & Hvn1 & _ & Hv1 & Hb1).
  destruct (createVersion_returns _ _ _ _ _ _ _ _ _ E2)
    as (sum2 & pid2 & s2 & _ & Hpid2 & Hnum2 & _ & _ & Hvn2 & Hpar2 & _ & _).
  assert (pid2 = pid1) by congruence. subst pid2.
  assert (Hhead : branches st1 !! branchKey pid1 b = Some (generateVersionId w1))
    by (rewrite Hb1; apply lookup_insert_eq).
  pose proof (next_number sha256 st1 pid1 b s2 Hc1 Hnum2) as H2.
  rewrite Hhead in H2. destruct H2 as (hv & s & n & Hhv & Hs & Hp & ->).
  rewrite Hv1, lookup_insert_eq in Hhv. injection Hhv as <-.
  assert (s = s1) by congruence. subst s.
  exists s1, (increment s1), n, (n + 1).
  repeat split; try assumption.
  - apply increment_patch, Hp.
  - lia.
  - rewrite Hpar2. unfold head_id. rewrite Hhead, Hid1. reflexivity.
  - intros pid Hpid Hnone. assert (pid = pid1) by congruence. subst pid.
    pose proof (next_number sha256 st pid1 b s1 Hc Hnum1) as H1.
    rewrite Hnone in H1. exact H1.
Qed.

Lemma sequential_versions_increase_witness :
  exists v1 v2 s1 s2 n1 n2,
    snd (createVersion plain_digest (call 1) (playbook 85) "first" "alice" "main" initial)
    = inr v1
    /\ snd (createVersion plain_digest (call 2) (playbook 60) "second" "alice" "main"
              (one_version plain_digest)) = inr v2
    /\ version_number v1 = Some s1
    /\ version_number v2 = Some s2
    /\ patch s1 = Some n1
    /\ patch s2 = Some n2
    /\ n2 = n1 + 1
    /\ n1 < n2
    /\ parent_version v2 = Some (version_id v1)
    /\ (forall pid, get "playbook_id" (Some (playbook 85)) = inr pid ->
                    branches initial !! branchKey pid "main" = None -> s1 = "1.0.0").
Proof.
  unfold one_version, after.
  destruct (createVersion plain_digest (call 1) (playbook 85) "first" "alice" "main" initial)
    as [st1 [e|v1]] eqn:E1; [vm_compute in E1; discriminate E1|].
  cbn [fst snd].
  destruct (createVersion plain_digest (call 2) (playbook 60) "second" "alice" "main" st1)
    as [st2 [e|v2]] eqn:E2.
  { exfalso. injection E1 as <- _. vm_compute in E2. discriminate E2. }
  destruct (sequential_versions_increase plain_digest initial st1 st2 (call 1) (call 2)
              (playbook 85) (playbook 60) "first" "second" "alice" "alice" "main" v1 v2
              (reachable_initial plain_digest) eq_refl E1 E2)
    as (s1 & s2 & n1 & n2 & H).
  exists v1, v2, s1, s2, n1, n2. cbn [snd]. auto.
Defined.

(** C3.  mergeBranch on a reachable engine.  When the source branch has no
    head it throws the not-found error and changes nothing.  Otherwise the
    source head is a stored version, and the call stores a new version on the
    target branch with the source head's snapshot, the prior target head as
    parent_version and the source head id as merge_source; afterwards the
    source pointer is gone, and the target pointer (when it is another key)
    names the new version, which the call returns when the file write
    succeeds. *)
Theorem mergeBranch_source_wins sha256 (st : Engine) (w : World)
    (playbookId sourceBranch targetBranch author_ : string) :
  reachable sha256 st ->
  let r := mergeBranch w playbookId sourceBranch targetBranch author_ st in
  let source := branchKey (Some (JStr playbookId)) sourceBranch in
  let target := branchKey (Some (JStr playbookId)) targetBranch in
  match branches st !! source with
  | None =>
      r = (st, inl (Rethrown "Branch merge failed: "
                      (Thrown ("Source branch " +:+ sourceBranch +:+ " not found"))))
  | Some sourceHead =>
      exists sourceVersion mergeVersion,
        versions st !! sourceHead = Some sourceVersion
        /\ versions (fst r) !! generateVersionId w = Some mergeVersion
        /\ version_id mergeVersion = generateVersionId w
        /\ branch mergeVersion = targetBranch
        /\ playbook_snapshot mergeVersion = playbook_snapshot sourceVersion
        /\ parent_version mergeVersion = branches st !! target
        /\ merge_source mergeVersion = Some sourceHead
        /\ branches (fst r) !! source = None
        /\ (source <> target -> branches (fst r) !! target = Some (generateVersionId w))
        /\ (disk_ok w = true -> snd r = inr mergeVersion)
  end.
Proof.
  intros Hr. cbv zeta.
  pose proof (reachable_consistent sha256 st Hr) as Hc.
  pose proof (mergeBranch_effect w playbookId sourceBranch targetBranch author_ st) as H.
  cbv zeta in H.
  destruct (branches st !! branchKey (Some (JStr playbookId)) sourceBranch) as [sid|] eqn:Esrc;
    [|exact H].
  destruct (heads_stored sha256 st Hc _ _ Esrc) as [Hne [sv Hsv]]. rewrite Hne in H.
  destruct H as (v & Hid & _ & _ & Hbr & _ & Hpar & Hsnap & Hms & Hv & Hb & _ & Hout).
  rewrite Hsv in Hsnap. cbn [spread] in Hsnap.
  exists sv, v. repeat split; try assumption.
  - rewrite Hv. apply lookup_insert_eq.
  - rewrite Hb. apply lookup_delete_eq.
  - intros Hne'. rewrite Hb, lookup_delete_ne by exact Hne'. apply lookup_insert_eq.
  - intros Hok. rewrite Hok in Hout. exact Hout.
Qed.

Lemma reachable_branched sha256 : reachable sha256 (branched sha256).
Proof.
  exact
    (reachable_step sha256 _ _
       (reachable_step sha256 _ _
          (reachable_step sha256 _ _ (reachable_one_version sha256)
             (step_createVersion sha256 (call 2) (playbook 60) "second" "alice" "main"
                (one_version sha256)))
          (step_createVersion sha256 (call 3) (playbook 70) "third" "alice" "main" _))
       (step_createBranch sha256 (call 4) "pb-1" "feature" "v_0000_1" "bob"
          (three_versions sha256))).
Defined.

Lemma mergeBranch_source_wins_witness :
  exists sourceVersion mergeVersion,
    versions (branched plain_digest) !! "v_0000_4" = Some sourceVersion
    /\ versions (merged plain_digest) !! "v_0000_5" = Some mergeVersion
    /\ version_id mergeVersion = "v_0000_5"
    /\ branch mergeVersion = "main"
    /\ playbook_snapshot mergeVersion = playbook_snapshot sourceVersion
    /\ parent_version mergeVersion = Some "v_0000_3"
    /\ merge_source mergeVersion = Some "v_0000_4"
    /\ branches (merged plain_digest) !! "pb-1:feature" = None
    /\ branches (merged plain_digest) !! "pb-1:main" = Some "v_0000_5".
Proof.
  pose proof (mergeBranch_source_wins plain_digest (branched plain_digest) (call 5)
                "pb-1" "feature" "main" "bob" (reachable_branched plain_digest)) as H.
  cbv zeta in H.
  assert (Es : branches (branched plain_digest)
                 !! branchKey (Some (JStr "pb-1")) "feature" = Some "v_0000_4")
    by (vm_compute; reflexivity).
  assert (Et : branches (branched plain_digest)
                 !! branchKey (Some (JStr "pb-1")) "main" = Some "v_0000_3")
    by (vm_compute; reflexivity).
  rewrite Es in H. destruct H as (sv & mv & H1 & H2 & H3 & H4 & H5 & H6 & H7 & H8 & H9 & _).
  exists sv, mv. rewrite Et in H6.
  assert (H10 := H9 ltac:(discriminate)).
  auto 10.
Defined.

(** C9.  The version mergeBranch stores carries the source head's
    version_number and checksum as they are: the number is not recomputed
    from the target branch.  So a merge can leave the target head with a
    lower version number than its parent: there is a reachable engine where
    the target head after a merge has patch 0 and its parent_version has
    patch 2. *)
Theorem mergeBranch_copies_number sha256 :
  (forall (st : Engine) (w : World) (playbookId sourceBranch targetBranch author_ : string)
          (sourceHead : string),
      reachable sha256 st ->
      branches st !! branchKey (Some (JStr playbookId)) sourceBranch = Some sourceHead ->
      exists sourceVersion mergeVersion,
        versions st !! sourceHead = Some sourceVersion
        /\ versions (fst (mergeBranch w playbookId sourceBranch targetBranch author_ st))
             !! generateVersionId w = Some mergeVersion
        /\ version_number mergeVersion = version_number sourceVersion
        /\ checksum mergeVersion = checksum sourceVersion)
  /\ exists (st : Engine) (head parent : Version) (parentId s1 s2 : string),
       reachable sha256 st
       /\ getLatestVersion "pb-1" "main"
            (fst (mergeBranch (call 5) "pb-1" "feature" "main" "bob" st)) = Some head
       /\ parent_version head = Some parentId
       /\ versions (fst (mergeBranch (call 5) "pb-1" "feature" "main" "bob" st)) !! parentId
          = Some parent
       /\ version_number head = Some s1
       /\ version_number parent = Some s2
       /\ patch s1 = Some 0
       /\ patch s2 = Some 2.
Proof.
  split.
  - intros st w playbookId sourceBranch targetBranch author_ sid Hr Esrc.
    pose proof (reachable_consistent sha256 st Hr) as Hc.
    pose proof (mergeBranch_effect w playbookId sourceBranch targetBranch author_ st) as H.
    cbv zeta in H. rewrite Esrc in H.
    destruct (heads_stored sha256 st Hc _ _ Esrc) as [Hne [sv Hsv]]. rewrite Hne in H.
    destruct H as (v & _ & _ & Hvn & _ & Hck & _ & _ & _ & Hv & _).
    rewrite Hsv in Hvn, Hck. cbn [spread] in Hvn, Hck.
    exists sv, v. repeat split; try assumption.
    rewrite Hv. apply lookup_insert_eq.
  - exists (branched sha256).
    assert (E : exists head parent,
               getLatestVersion "pb-1" "main" (merged sha256) = Some head
               /\ parent_version head = Some "v_0000_3"
               /\ versions (merged sha256) !! "v_0000_3" = Some parent
               /\ version_number head = Some "1.0.0"
               /\ version_number parent = Some "1.0.2").
    { vm_compute. do 2 eexists. repeat split. }
    destruct E as (head & parent & E1 & E2 & E3 & E4 & E5).
    exists head, parent, "v_0000_3", "1.0.0", "1.0.2".
    split; [apply reachable_branched|].
    repeat split; assumption || reflexivity.
Qed.

Lemma mergeBranch_copies_number_witness :
  exists sourceVersion mergeVersion,
    versions (branched plain_digest) !! "v_0000_4" = Some sourceVersion
    /\ versions (merged plain_digest) !! "v_0000_5" = Some mergeVersion
    /\ version_number mergeVersion = version_number sourceVersion
    /\ checksum mergeVersion = checksum sourceVersion.
Proof.
  apply (proj1 (mergeBranch_copies_number plain_digest) (branched plain_digest) (call 5)
           "pb-1" "feature" "main" "bob" "v_0000_4" (reachable_branched plain_digest)).
  vm_compute. reflexivity.
Defined.

(** C4, as the code has it.  A createVersion call either throws before it
    touches anything, or it puts the version in the in-memory map and moves
    the branch pointer first and only then writes the version file; the audit
    entry follows when the write succeeded.  When the write fails the pointer
    stays moved. *)
Theorem createVersion_stores_before_it_persists sha256 (w : World) (p : json)
    (d a b : string) (st : Engine) :
  let r := createVersion sha256 w p d a b st in
  let id := generateVersionId w in
  r = (st, inl (Rethrown "Version creation failed: " RuntimeTypeError))
  \/ exists key,
       journal (fst r)
       = (journal st
          ++ [VersionsSet id; BranchesSet key id; FileWrite id (disk_ok w)]
          ++ (if disk_ok w then [AuditPush "create_version"] else []))%list
       /\ branches (fst r) !! key = Some id.
Proof.
  cbv zeta.
  destruct (createVersion_effect sha256 w p d a b st)
    as [[F _]|(v & sum & pid & number & md & H)]; [left; exact F|right].
  destruct H as (_ & _ & _ & _ & _ & _ & _ & _ & _ & _ & _ & _ & Hb & Hj & _).
  exists (branchKey pid b). split; [exact Hj|].
  rewrite Hb. apply lookup_insert_eq.
Qed.

(** C4 fails on the code: in this run the branch pointer is moved
    ([BranchesSet]) before the version file is written ([FileWrite]). *)
Lemma createVersion_pointer_moves_before_file_write :
  journal (one_version plain_digest)
  = [VersionsSet "v_0000_1"; BranchesSet "pb-1:main" "v_0000_1";
     FileWrite "v_0000_1" true; AuditPush "create_version"].
Proof. vm_compute. reflexivity. Qed.

(** C1, as the code has it.  createVersion does not look at playbook_id.  For
    a document without one, on a reachable engine: when the nested fields of
    the metadata can be read, the call stores a version whose playbook_id is
    undefined and points the branch key "undefined:<branch>" at it; when they
    cannot, it throws the wrapped TypeError and stores nothing. *)
Theorem createVersion_without_playbook_id sha256 (w : World) (p : json)
    (d a b : string) (st : Engine) :
  reachable sha256 st ->
  get "playbook_id" (Some p) = inr None ->
  let r := createVersion sha256 w p d a b st in
  match readMetadata p with
  | inr _ =>
      exists v,
        playbook_id v = None
        /\ versions (fst r) !! generateVersionId w = Some v
        /\ branches (fst r) !! ("undefined:" +:+ b) = Some (generateVersionId w)
        /\ snd r = if disk_ok w then inr v
                   else inl (Rethrown "Version creation failed: " IOFailure)
  | inl _ => r = (st, inl (Rethrown "Version creation failed: " RuntimeTypeError))
  end.
Proof.
  intros Hr Hpid. cbv zeta.
  pose proof (reachable_consistent sha256 st Hr) as Hc.
  destruct (createVersion_effect sha256 w p d a b st)
    as [[F Hwhy]|(v & sum & pid & number & md & H)].
  - destruct (readMetadata p) as [e|md] eqn:Emd; [exact F|exfalso].
    destruct Hwhy as [Hk|[(pid & Hp & Hn)|Hm]].
    + destruct p; discriminate.
    + destruct (next_number_total sha256 st pid b Hc) as [number Hnum].
      rewrite Hnum in Hn. discriminate Hn.
    + discriminate Hm.
  - destruct H as (_ & Hp & _ & Hmd & _ & Hvp & _ & _ & _ & _ & _ & Hv & Hb & _ & Hout).
    rewrite Hmd. assert (Hnone : pid = None) by congruence.
    rewrite Hnone in Hb, Hvp.
    exists v. repeat split; try assumption.
    + rewrite Hv. apply lookup_insert_eq.
    + change ("undefined:" +:+ b) with (branchKey None b).
      rewrite Hb. apply lookup_insert_eq.
Qed.

Lemma createVersion_without_playbook_id_witness :
  exists v,
    playbook_id v = None
    /\ versions (fst (createVersion plain_digest (call 1) anonymous_playbook
                        "first" "alice" "main" initial)) !! "v_0000_1" = Some v
    /\ branches (fst (createVersion plain_digest (call 1) anonymous_playbook
                        "first" "alice" "main" initial)) !! "undefined:main"
       = Some "v_0000_1"
    /\ snd (createVersion plain_digest (call 1) anonymous_playbook
              "first" "alice" "main" initial) = inr v.
Proof.
  exact (createVersion_without_playbook_id plain_digest (call 1) anonymous_playbook
           "first" "alice" "main" initial (reachable_initial plain_digest) eq_refl).
Defined.

(** C1 fails on the code: a document with no playbook_id is accepted, and a
    version with an undefined playbook_id is created. *)
Lemma createVersion_accepts_missing_playbook_id :
  get "playbook_id" (Some anonymous_playbook) = inr None
  /\ exists st' v,
       createVersion plain_digest (call 1) anonymous_playbook "first" "alice" "main" initial
       = (st', inr v)
       /\ playbook_id v = None
       /\ versions st' !! "v_0000_1" = Some v.
Proof.
  split; [reflexivity|].
  destruct (createVersion plain_digest (call 1) anonymous_playbook "first" "alice" "main"
              initial) as [st' [e|v]] eqn:E; [vm_compute in E; discriminate E|].
  exists st', v. split; [reflexivity|].
  assert (H : (st', @inr exn Version v)
              = createVersion plain_digest (call 1) anonymous_playbook "first" "alice" "main"
                  initial) by (symmetry; exact E).
  clear E. vm_compute in H. injection H as -> ->. vm_compute. auto.
Qed.

(** C10.  calculateChecksum hands JSON.stringify the playbook's sorted
    top-level key names as replacer, and that list filters the objects at
    every depth: the text hashed is that of the playbook cut down, at every
    depth, to properties bearing one of those names.  So two playbooks with
    the same top-level key names that agree after that cut, whatever else
    they hold in nested properties with other names, get the same checksum. *)
Theorem calculateChecksum_blind_to_other_names sha256 (p1 p2 : json)
    (ks1 ks2 : list string) :
  keys p1 = inr ks1 ->
  keys p2 = inr ks2 ->
  sort ks1 = sort ks2 ->
  project (property_list [] (sort ks1)) p1 = project (property_list [] (sort ks1)) p2 ->
  calculateChecksum sha256 p1
  = inr (sha256 (stringify (project (property_list [] (sort ks1)) p1) None))
  /\ calculateChecksum sha256 p1 = calculateChecksum sha256 p2.
Proof.
  intros K1 K2 Hsame Hcut. unfold calculateChecksum. rewrite K1, K2. cbn [bind].
  rewrite <- Hsame. unfold stringify. cbn [option_map].
  rewrite !serialize_project, <- Hcut. split; reflexivity.
Qed.

Lemma calculateChecksum_blind_to_other_names_witness :
  playbook 85 <> playbook 60
  /\ calculateChecksum plain_digest (playbook 85)
     = inr (plain_digest
              (stringify (project ["platform"; "playbook_id"; "playbook_name"; "use_case"]
                            (playbook 85)) None))
  /\ calculateChecksum plain_digest (playbook 85)
     = calculateChecksum plain_digest (playbook 60).
Proof.
  split; [discriminate|].
  exact (calculateChecksum_blind_to_other_names plain_digest (playbook 85) (playbook 60)
           _ _ eq_refl eq_refl eq_refl eq_refl).
Defined.

End VersionControlClaims.

(** ** The claims about the approval gates *)

Module ApprovalGateClaims.
Import JS JSFacts Regex ApprovalGateEngine Server Samples.

Lemma svc_admin_is_privileged : isPrivilegedAccount "svc_admin" = true.
Proof. vm_compute. reflexivity. Qed.

Lemma svc_admin_is_not_highly_privileged : isHighlyPrivileged "svc_admin" = false.
Proof. vm_compute. reflexivity. Qed.

Lemma consider_quiet (d : ApprovalDecision) (g : Gate) :
  triggered g = false -> consider d g = d.
Proof. intros H. unfold consider. rewrite H. reflexivity. Qed.

Lemma get_defined (k : string) (p : json) (v : jsval) (k' : string) :
  get k (Some p) = inr v -> exists v', get k' (Some p) = inr v'.
Proof. destruct p; cbn; try discriminate; eauto. Qed.

(** Once the request record can be built, createApprovalRequest stores it
    and does not throw. *)
Lemma createApprovalRequest_total cfg (w : World) (d : ApprovalDecision)
    (id : string) (expires : Z) (p ctx : json) (st : Store) :
  (exists s, createPlaybookSummary p = inr s) ->
  (exists u, get "user" (Some ctx) = inr u) ->
  exists st' r, createApprovalRequest cfg w d id expires p ctx st = (st', inr r).
Proof.
  intros [s Hs] [u Hu]. unfold createApprovalRequest.
  assert (Hp : exists v, get "playbook_name" (Some p) = inr v).
  { unfold createPlaybookSummary in Hs. destruct p; try discriminate Hs; cbn; eauto. }
  destruct Hp as [pname Hpname].
  destruct (get_defined _ _ _ "playbook_id" Hpname) as [pid Hpid].
  rewrite Hpid, Hpname, Hu, Hs. cbn [bind].
  destruct (shouldSendNotifications cfg); eauto.
Qed.

(** C6.  With a risk threshold of 80 and T1098 as the only restricted
    technique, a playbook with username "svc_admin", risk score 85 and
    techniques ["T1110"], none of whose other gates triggers and whose
    summary fields can be read: the privileged_account gate triggers at
    level_1, the risk_score gate triggers at level_1, the technique gate does
    not trigger, and the decision requires approval at level_1 with exactly
    those two gates. *)
Theorem svc_admin_risk_85_needs_level_1 cfg (w : World) (p ctx : json) (st : Store)
    (use_case normalizedFields risk_model : jsval) :
  high_risk_score (approval_required_for cfg) = 80 ->
  certain_techniques (approval_required_for cfg) = ["T1098"] ->
  get "use_case" (Some p) = inr use_case ->
  get "normalized_fields" use_case = inr normalizedFields ->
  get "username" normalizedFields = inr (Some (JStr "svc_admin")) ->
  get "risk_model" use_case = inr risk_model ->
  get "risk_score" risk_model = inr (Some (JNum 85)) ->
  get "mitre_techniques" use_case = inr (Some (JArr [JStr "T1110"])) ->
  (exists g, checkCriticalAssetGate p = inr g /\ triggered g = false) ->
  (exists g, checkActionGate cfg p = inr g /\ triggered g = false) ->
  (exists g, checkBusinessHoursGate cfg w p = inr g /\ triggered g = false) ->
  (exists g, checkAssetCriticalityGate p = inr g /\ triggered g = false) ->
  (exists s, createPlaybookSummary p = inr s) ->
  (exists u, get "user" (Some ctx) = inr u) ->
  exists g1 g3 g4 d st',
    checkPrivilegedAccountGate p = inr g1
    /\ name g1 = "privileged_account" /\ triggered g1 = true
    /\ approval_level g1 = "level_1"
    /\ checkRiskScoreGate cfg p = inr g3
    /\ name g3 = "risk_score" /\ triggered g3 = true
    /\ approval_level g3 = "level_1"
    /\ checkTechniqueGate cfg p = inr g4
    /\ name g4 = "technique" /\ triggered g4 = false
    /\ evaluateApprovalGates cfg w p ctx st = (st', inr d)
    /\ requires_approval d = true
    /\ decision_level d = Some "level_1"
    /\ decision_gates d = [g1; g3].
Proof.
  intros Hthr Htech Huc Hnf Huser Hrm Hscore Hmt
    (g2 & Hg2 & Hq2) (g5 & Hg5 & Hq5) (g6 & Hg6 & Hq6) (g7 & Hg7 & Hq7) Hsum Hctx.
  assert (H1 : checkPrivilegedAccountGate p
               = inr {| name := "privileged_account"; triggered := true;
                        approval_level := "level_1";
                        reason := "Privileged account detected: svc_admin" |}).
  { unfold checkPrivilegedAccountGate. rewrite Huc. cbn [bind]. rewrite Hnf. cbn [bind].
    rewrite Huser. cbn [bind truthy to_string toStr].
    rewrite svc_admin_is_privileged, svc_admin_is_not_highly_privileged. reflexivity. }
  assert (H3 : checkRiskScoreGate cfg p
               = inr {| name := "risk_score"; triggered := true;
                        approval_level := "level_1";
                        reason := "High risk score: 85 (threshold: 80)" |}).
  { unfold checkRiskScoreGate. rewrite Huc. cbn [bind]. rewrite Hrm. cbn [bind].
    rewrite Hscore, Hthr. reflexivity. }
  assert (H4 : checkTechniqueGate cfg p
               = inr {| name := "technique"; triggered := false;
                        approval_level := "level_1"; reason := EmptyString |}).
  { unfold checkTechniqueGate. rewrite Huc. cbn [bind]. rewrite Hmt, Htech. reflexivity. }
  do 3 eexists.
  destruct (createApprovalRequest_total cfg w
              {| requires_approval := true;
                 decision_level := Some "level_1";
                 decision_gates :=
                   [ {| name := "privileged_account"; triggered := true;
                        approval_level := "level_1";
                        reason := "Privileged account detected: svc_admin" |};
                     {| name := "risk_score"; triggered := true;
                        approval_level := "level_1";
                        reason := "High risk score: 85 (threshold: 80)" |} ];
                 auto_approve := false;
                 decision_reason :=
                   generateApprovalReason
                     [ {| name := "privileged_account"; triggered := true;
                          approval_level := "level_1";
                          reason := "Privileged account detected: svc_admin" |};
                       {| name := "risk_score"; triggered := true;
                          approval_level := "level_1";
                          reason := "High risk score: 85 (threshold: 80)" |} ];
                 decision_id := Some (uuid w);
                 decision_expires_at := Some (calculateExpirationTime cfg w) |}
              (uuid w) (calculateExpirationTime cfg w) p ctx st Hsum Hctx)
    as (st' & r & Hreq).
  eexists _, st'.
  split; [exact H1|]. do 3 (split; [reflexivity|]).
  split; [exact H3|]. do 3 (split; [reflexivity|]).
  split; [exact H4|]. do 2 (split; [reflexivity|]).
  unfold evaluateApprovalGates.
  rewrite H1, Hg2, H3, H4, Hg5, Hg6, Hg7. cbn [bind fold_left].
  rewrite (consider_quiet _ g7 Hq7), (consider_quiet _ g6 Hq6), (consider_quiet _ g5 Hq5).
  rewrite (consider_quiet _ _ (eq_refl : triggered {| name := "technique"; triggered := false;
                        approval_level := "level_1"; reason := EmptyString |} = false)).
  rewrite (consider_quiet _ g2 Hq2).
  cbv [consider raises_level getApprovalLevelPriority triggered approval_level
       requires_approval decision_level decision_gates auto_approve decision_reason
       decision_id decision_expires_at app String.eqb Ascii.eqb Bool.eqb negb andb orb Z.ltb
       Z.compare Pos.compare Pos.compare_cont].
  rewrite Hreq. repeat split.
Qed.

Lemma svc_admin_risk_85_needs_level_1_witness :
  exists d st',
    evaluateApprovalGates example_config morning (playbook 85) (JObj []) empty_store
    = (st', inr d)
    /\ requires_approval d = true
    /\ decision_level d = Some "level_1"
    /\ map name (decision_gates d) = ["privileged_account"; "risk_score"].
Proof.
  destruct (svc_admin_risk_85_needs_level_1 example_config morning (playbook 85) (JObj [])
              empty_store (Some (use_case 85))
              (Some (JObj [("username", JStr "svc_admin")]))
              (Some (JObj [("base_severity", JStr "High"); ("risk_score", JNum 85)]))
              eq_refl eq_refl eq_refl eq_refl eq_refl eq_refl eq_refl eq_refl
              (ex_intro _ _ (conj eq_refl eq_refl))
              (ex_intro _ _ (conj eq_refl eq_refl))
              (ex_intro _ _ (conj eq_refl eq_refl))
              (ex_intro _ _ (conj eq_refl eq_refl))
              (ex_intro _ _ eq_refl)
              (ex_intro _ _ eq_refl))
    as (g1 & g3 & g4 & d & st' & _ & N1 & _ & _ & _ & N3 & _ & _ & _ & _ & _ & E & R & L & G).
  exists d, st'. rewrite G. cbn [map]. rewrite N1, N3. auto.
Defined.

(** *** Escalation *)

Definition known_level (l : option string) : Prop :=
  l = Some "level_1" \/ l = Some "level_2" \/ l = Some "level_3".

Lemma assoc_map {A : Type} (f : A -> A) (id : string) (l : list (string * A)) :
  assoc id (map (fun '(k, r) => (k, f r)) l) = option_map f (assoc id l).
Proof.
  induction l as [|[k r] l IH]; [reflexivity|].
  cbn [map assoc]. destruct (String.eqb id k); [reflexivity|exact IH].
Qed.

Definition escalated (cfg : ApprovalConfig) (w : World) (r : ApprovalRequest)
    : ApprovalRequest :=
  match escalate_one cfg w r with
  | Some r' => r'
  | None => r
  end.

Lemma escalatePendingApprovals_lookup cfg (w : World) (st : Store) (id : string) :
  assoc id (approvalStore (fst (escalatePendingApprovals cfg w st)))
  = option_map (escalated cfg w) (assoc id (approvalStore st)).
Proof.
  unfold escalatePendingApprovals. cbn [fst approvalStore].
  apply (assoc_map (escalated cfg w)).
Qed.

Lemma next_of_level_1 : getNextApprovalLevel (Some "level_1") = Some "level_2".
Proof. reflexivity. Qed.

Lemma next_of_level_2 : getNextApprovalLevel (Some "level_2") = Some "level_3".
Proof. reflexivity. Qed.






(** *** Rejection *)

(** C8, as the code has it.  rejectRequest does not check its reason
    argument: with the reason absent, a pending request and an approver on the
    configured roster of the request's level, it rejects the request and
    records an undefined rejection_reason.  It is the reject route that makes
    the reason mandatory: when the body's reason is absent or otherwise falsy
    it answers 400 without calling the engine, and the store is unchanged. *)
Theorem reason_is_checked_by_the_route_only cfg (w : World) (approvalId : string)
    (approver : jsval) (st : Store) (request : ApprovalRequest) :
  assoc approvalId (approvalStore st) = Some request ->
  status request = pending ->
  isValidApprover cfg approver (request_level request) = true ->
  (exists st',
     rejectRequest cfg w approvalId approver None st
     = (st', inr (rejected_request request approver None (now w)))
     /\ assoc approvalId (approvalStore st')
        = Some (rejected_request request approver None (now w))
     /\ status (rejected_request request approver None (now w)) = rejected
     /\ rejection_reason (rejected_request request approver None (now w)) = None)
  /\ forall (body : json) (reason_ : jsval),
       get "reason" (Some body) = inr reason_ ->
       truthy reason_ = false ->
       rejectRoute cfg w approvalId body st
       = (st, BadRequest "Approver and reason are required").
Proof.
  intros Hreq Hpending Hvalid. split.
  - unfold rejectRequest. rewrite Hreq, Hpending, Hvalid. cbn [is_pending negb].
    eexists. split; [reflexivity|]. repeat split.
    unfold push_history, store_set. cbn [approvalStore].
    clear Hpending Hvalid. induction (approvalStore st) as [|[k r] l IH]; [discriminate|].
    cbn [assoc map_set] in *. destruct (String.eqb approvalId k) eqn:Ek.
    + cbn [assoc]. rewrite String.eqb_refl. reflexivity.
    + cbn [assoc]. rewrite Ek. apply IH, Hreq.
  - intros body reason_ Hbody Hfalsy. unfold rejectRoute.
    destruct (get_defined _ _ _ "approver" Hbody) as [a Ha].
    rewrite Ha, Hbody. cbn [bind]. rewrite Hfalsy. cbn [negb].
    rewrite orb_true_r. reflexivity.
Qed.

Lemma reason_is_checked_by_the_route_only_witness :
  exists request st',
    assoc "req-1" (approvalStore one_request) = Some request
    /\ rejectRequest example_config afternoon "req-1" (Some (JStr "team_lead")) None one_request
       = (st', inr (rejected_request request (Some (JStr "team_lead")) None 54000001))
    /\ rejectRoute example_config afternoon "req-1"
         (JObj [("approver", JStr "team_lead")]) one_request
       = (one_request, BadRequest "Approver and reason are required").
Proof.
  assert (E : exists r, assoc "req-1" (approvalStore one_request) = Some r
                        /\ status r = pending
                        /\ isValidApprover example_config (Some (JStr "team_lead"))
                             (request_level r) = true)
    by (vm_compute; eauto).
  destruct E as (r & E & P & V).
  destruct (reason_is_checked_by_the_route_only example_config afternoon "req-1"
              (Some (JStr "team_lead")) one_request r E P V) as [(st' & H & _) Hroute].
  exists r, st'. split; [exact E|]. split; [exact H|].
  apply (Hroute (JObj [("approver", JStr "team_lead")]) None); reflexivity.
Defined.

(** C8 fails on the code: rejectRequest called without a reason does not
    throw; it rejects the pending request. *)
Lemma rejectRequest_accepts_missing_reason :
  exists st' r,
    rejectRequest example_config afternoon "req-1" (Some (JStr "team_lead")) None one_request
    = (st', inr r)
    /\ status r = rejected
    /\ rejection_reason r = None
    /\ option_map status (assoc "req-1" (approvalStore one_request)) = Some pending
    /\ option_map status (assoc "req-1" (approvalStore st')) = Some rejected.
Proof. vm_compute. do 2 eexists. repeat split. Qed.

End ApprovalGateClaims.

(** ** More about the version store *)

Module VersionControlMore.
Import JS JSFacts VersionControlEngine VersionControlFacts VersionControlRest Samples.

(** X1.  createBranch never moves or removes a branch pointer that exists,
    whatever its outcome; and asked for a branch name that is taken, from a
    stored version of that playbook, it throws "Branch <name> already exists"
    and leaves the whole engine as it was. *)
Theorem createBranch_keeps_existing_pointers (w : World)
    (playbookId branchName fromVersionId author_ : string) (st : Engine) :
  let r := createBranch w playbookId branchName fromVersionId author_ st in
  (forall key id, branches st !! key = Some id -> branches (fst r) !! key = Some id)
  /\ (forall fromVersion id,
        versions st !! fromVersionId = Some fromVersion ->
        same_playbook fromVersion playbookId = true ->
        branches st !! branchKey (Some (JStr playbookId)) branchName = Some id ->
        r = (st, inl (Rethrown "Branch creation failed: "
                        (Thrown ("Branch " +:+ branchName +:+ " already exists"))))).
Proof.
  cbv zeta. split.
  - intros key id Hkey.
    destruct (createBranch_effect w playbookId branchName fromVersionId author_ st)
      as [[m E]|(fv & v & H)].
    + rewrite E. exact Hkey.
    + cbv zeta in H. destruct H as (_ & _ & Hfree & _ & _ & _ & _ & _ & _ & _ & _ & Hb & _).
      rewrite Hb, lookup_insert_ne; [exact Hkey|]. congruence.
  - intros fv id Hfv Hsame Htaken. unfold createBranch, rethrow.
    rewrite mbind_reads, Hfv, Hsame. cbn [negb]. rewrite mbind_reads, Htaken. reflexivity.
Qed.

(** X2.  A createBranch call that goes through makes the new branch's head a
    copy of the source version: getLatestVersion on the new branch gives the
    version returned, with the source's snapshot, checksum and version
    number, and with the source as parent_version. *)
Theorem createBranch_head_is_a_copy (w : World)
    (playbookId branchName fromVersionId author_ : string) (st st' : Engine)
    (branchVersion : Version) :
  createBranch w playbookId branchName fromVersionId author_ st = (st', inr branchVersion) ->
  exists fromVersion,
    versions st !! fromVersionId = Some fromVersion
    /\ getLatestVersion playbookId branchName st' = Some branchVersion
    /\ branch branchVersion = branchName
    /\ playbook_snapshot branchVersion = playbook_snapshot fromVersion
    /\ checksum branchVersion = checksum fromVersion
    /\ version_number branchVersion = version_number fromVersion
    /\ parent_version branchVersion = Some fromVersionId.
Proof.
  intros E.
  destruct (createBranch_effect w playbookId branchName fromVersionId author_ st)
    as [[m F]|(fv & v & H)].
  - rewrite F in E. discriminate E.
  - cbv zeta in H. rewrite E in H. cbn [fst snd] in H.
    destruct H as (Hfv & _ & _ & Hid & _ & Hvn & Hbr & Hck & Hpar & Hsnap & Hv & Hb & _ & Hout).
    destruct (disk_ok w); [|discriminate Hout]. injection Hout as ->.
    exists fv. repeat split; try assumption.
    unfold getLatestVersion, head_id. rewrite Hb, lookup_insert_eq.
    rewrite generateVersionId_nonempty, Hv. apply lookup_insert_eq.
Qed.

Lemma createBranch_head_is_a_copy_witness :
  exists branchVersion fromVersion,
    snd (createBranch (call 4) "pb-1" "feature" "v_0000_1" "bob" (three_versions plain_digest))
    = inr branchVersion
    /\ versions (three_versions plain_digest) !! "v_0000_1" = Some fromVersion
    /\ getLatestVersion "pb-1" "feature" (branched plain_digest) = Some branchVersion
    /\ branch branchVersion = "feature"
    /\ playbook_snapshot branchVersion = playbook_snapshot fromVersion
    /\ checksum branchVersion = checksum fromVersion
    /\ version_number branchVersion = version_number fromVersion
    /\ parent_version branchVersion = Some "v_0000_1".
Proof.
  unfold branched, after.
  destruct (createBranch (call 4) "pb-1" "feature" "v_0000_1" "bob" (three_versions plain_digest))
    as [st' [e|v]] eqn:E; [vm_compute in E; discriminate E|].
  destruct (createBranch_head_is_a_copy _ _ _ _ _ _ _ _ E) as (fv & H).
  exists v, fv. cbn [fst snd]. split; [reflexivity|exact H].
Defined.

(** X3.  rollbackToVersion appends and never rewrites.  When it returns a
    version on a reachable engine: the version carries the target's snapshot
    and checksum, names the target in rollback_from and the current pointer
    of the target's branch as parent_version, and becomes the head of that
    branch; it is numbered one patch above the head it replaces, or 1.0.0
    when the branch has no pointer any more; every version stored under
    another id is still there unchanged; and when the new id was unused the
    number of stored versions grows by exactly one. *)
Theorem rollbackToVersion_appends sha256 (w : World)
    (playbookId versionId author_ reason_ : string) (st st' : Engine) (v : Version) :
  reachable sha256 st ->
  rollbackToVersion w playbookId versionId author_ reason_ st = (st', inr v) ->
  exists target,
    versions st !! versionId = Some target
    /\ playbook_snapshot v = playbook_snapshot target
    /\ checksum v = checksum target
    /\ rollback_from v = Some versionId
    /\ parent_version v = branches st !! branchKey (Some (JStr playbookId)) (branch target)
    /\ match getLatestVersion playbookId (branch target) st with
       | Some head =>
           exists s n,
             version_number head = Some s /\ patch s = Some n
             /\ version_number v = Some (increment s)
             /\ patch (increment s) = Some (n + 1)
       | None => version_number v = Some "1.0.0"
       end
    /\ getLatestVersion playbookId (branch target) st' = Some v
    /\ (forall id, id <> generateVersionId w -> versions st' !! id = versions st !! id)
    /\ (versions st !! generateVersionId w = None ->
        base.size (versions st') = S (base.size (versions st))).
Proof.
  intros Hr E.
  pose proof (reachable_consistent sha256 st Hr) as Hc.
  destruct (rollbackToVersion_effect w playbookId versionId author_ reason_ st)
    as [[e F]|(tv & v' & number & H)].
  { rewrite F in E. discriminate E. }
  cbv zeta in H. rewrite E in H. cbn [fst snd] in H.
  destruct H as (Htv & Hsame & Hnum & Hid & _ & Hvn & Hbr & Hck & Hpar & Hsnap & Hrb
                 & Hv & Hb & _ & Hout).
  destruct (disk_ok w); [|discriminate Hout]. injection Hout as ->.
  pose proof (next_number sha256 st _ _ number Hc Hnum) as Hnext.
  exists tv. repeat split; try assumption.
  - unfold getLatestVersion, head_id.
    destruct (branches st !! branchKey (Some (JStr playbookId)) (branch tv)) as [hid|] eqn:Ehead.
    + destruct Hnext as (hv & s0 & n & Hhv & Hs & Hp & ->).
      destruct (heads_stored sha256 st Hc _ _ Ehead) as [Hne _].
      rewrite Hne, Hhv. exists s0, n. auto using increment_patch.
    + rewrite Hvn, Hnext. reflexivity.
  - unfold getLatestVersion, head_id. rewrite Hb, lookup_insert_eq.
    rewrite generateVersionId_nonempty, Hv. apply lookup_insert_eq.
  - intros id Hid'. rewrite Hv. apply lookup_insert_ne. congruence.
  - intros Hfresh. rewrite Hv. apply map_size_insert_None, Hfresh.
Qed.

Lemma reachable_three_versions sha256 : reachable sha256 (three_versions sha256).
Proof.
  exact
    (reachable_step sha256 _ _
       (reachable_step sha256 _ _
          (reachable_step sha256 _ _ (reachable_initial sha256)
             (step_createVersion sha256 (call 1) (playbook 85) "first" "alice" "main" initial))
          (step_createVersion sha256 (call 2) (playbook 60) "second" "alice" "main"
             (one_version sha256)))
       (step_createVersion sha256 (call 3) (playbook 70) "third" "alice" "main" _)).
Defined.

Lemma rollbackToVersion_appends_witness :
  exists v target,
    snd (rollbackToVersion (call 6) "pb-1" "v_0000_1" "carol" "bad release"
           (three_versions plain_digest)) = inr v
    /\ versions (three_versions plain_digest) !! "v_0000_1" = Some target
    /\ playbook_snapshot v = playbook_snapshot target
    /\ checksum v = checksum target
    /\ rollback_from v = Some "v_0000_1"
    /\ getLatestVersion "pb-1" (branch target)
         (fst (rollbackToVersion (call 6) "pb-1" "v_0000_1" "carol" "bad release"
                 (three_versions plain_digest))) = Some v.
Proof.
  destruct (rollbackToVersion (call 6) "pb-1" "v_0000_1" "carol" "bad release"
              (three_versions plain_digest)) as [st' [e|v]] eqn:E;
    [vm_compute in E; discriminate E|].
  destruct (rollbackToVersion_appends plain_digest _ _ _ _ _ _ _ _
              (reachable_three_versions plain_digest) E)
    as (target & H1 & H2 & H3 & H4 & _ & _ & H7 & _).
  exists v, target. cbn [fst snd]. auto 10.
Defined.

(** Every stored version sits under its own version_id. *)
Lemma stored_under_own_id sha256 (st : Engine) :
  reachable sha256 st ->
  forall id v, versions st !! id = Some v -> version_id v = id.
Proof.
  induction 1 as [|st st' _ IH Hstep]; intros id v0.
  { cbn. rewrite lookup_empty. discriminate. }
  destruct Hstep as [w p d a b st|w pid bn from a st|w pid sb tb a st|w pid vid a rs st].
  - destruct (createVersion_effect sha256 w p d a b st)
      as [[E _]|(v & sum & pid & number & md & H)]; [rewrite E; apply IH|].
    destruct H as (_ & _ & _ & _ & Hid & _ & _ & _ & _ & _ & _ & Hv & _).
    rewrite Hv, lookup_insert. destruct (decide (generateVersionId w = id));
      [intros [= <-]; congruence|apply IH].
  - destruct (createBranch_effect w pid bn from a st) as [[m E]|(fv & v & H)];
      [rewrite E; apply IH|].
    cbv zeta in H. destruct H as (_ & _ & _ & Hid & _ & _ & _ & _ & _ & _ & Hv & _).
    rewrite Hv, lookup_insert. destruct (decide (generateVersionId w = id));
      [intros [= <-]; congruence|apply IH].
  - pose proof (mergeBranch_effect w pid sb tb a st) as H. cbv zeta in H.
    destruct (branches st !! branchKey (Some (JStr pid)) sb) as [sid|];
      [|rewrite H; apply IH].
    destruct (nonempty sid); [|rewrite H; apply IH].
    destruct H as (v & Hid & _ & _ & _ & _ & _ & _ & _ & Hv & _).
    rewrite Hv, lookup_insert. destruct (decide (generateVersionId w = id));
      [intros [= <-]; congruence|apply IH].
  - destruct (rollbackToVersion_effect w pid vid a rs st) as [[e E]|(tv & v & number & H)];
      [rewrite E; apply IH|].
    cbv zeta in H. destruct H as (_ & _ & _ & Hid & _ & _ & _ & _ & _ & _ & _ & Hv & _).
    rewrite Hv, lookup_insert. destruct (decide (generateVersionId w = id));
      [intros [= <-]; congruence|apply IH].
Qed.

(** X4.  No branch pointer of a reachable engine dangles: getLatestVersion
    on a key that has a pointer returns a stored version, and that version's
    version_id is the pointer. *)
Theorem branch_pointers_name_stored_versions sha256 (st : Engine)
    (playbookId branch_ id : string) :
  reachable sha256 st ->
  branches st !! branchKey (Some (JStr playbookId)) branch_ = Some id ->
  exists v,
    getLatestVersion playbookId branch_ st = Some v
    /\ getVersion id st = Some v
    /\ version_id v = id.
Proof.
  intros Hr Hkey.
  destruct (heads_stored sha256 st (reachable_consistent sha256 st Hr) _ _ Hkey)
    as [Hne [v Hv]].
  exists v. unfold getLatestVersion, getVersion, head_id. rewrite Hkey, Hne.
  repeat split; try assumption. exact (stored_under_own_id sha256 st Hr id v Hv).
Qed.

Lemma branch_pointers_name_stored_versions_witness :
  exists v,
    getLatestVersion "pb-1" "feature" (branched plain_digest) = Some v
    /\ getVersion "v_0000_4" (branched plain_digest) = Some v
    /\ version_id v = "v_0000_4".
Proof.
  apply (branch_pointers_name_stored_versions plain_digest (branched plain_digest)
           "pb-1" "feature" "v_0000_4" (VersionControlClaims.reachable_branched plain_digest)).
  vm_compute. reflexivity.
Defined.

(** Whatever holds of "1.0.0" and is kept by [increment] holds of every
    stored version number. *)
Lemma version_numbers_invariant sha256 (P : string -> Prop) :
  P "1.0.0" ->
  (forall s, P s -> P (increment s)) ->
  forall st, reachable sha256 st ->
  forall id v, versions st !! id = Some v -> exists s, version_number v = Some s /\ P s.
Proof.
  intros H0 Hinc st Hr.
  induction Hr as [|st st' Hr IH Hstep]; intros id v0.
  { cbn. rewrite lookup_empty. discriminate. }
  pose proof (reachable_consistent sha256 st Hr) as Hc.
  assert (Hnext : forall pid b number,
             getNextVersionNumber pid b st = (st, inr number) -> P number).
  { intros pid b number Hnum. pose proof (next_number sha256 st pid b number Hc Hnum) as H.
    destruct (branches st !! branchKey pid b) as [hid|].
    - destruct H as (hv & s0 & n & Hhv & Hs & _ & ->).
      destruct (IH _ _ Hhv) as (s1 & Hs1 & HP). apply Hinc. congruence.
    - subst number. exact H0. }
  destruct Hstep as [w p d a b st|w pid bn from a st|w pid sb tb a st|w pid vid a rs st].
  - destruct (createVersion_effect sha256 w p d a b st)
      as [[E _]|(v & sum & pid & number & md & H)]; [rewrite E; apply IH|].
    destruct H as (_ & _ & Hnum & _ & _ & _ & Hvn & _ & _ & _ & _ & Hv & _).
    rewrite Hv, lookup_insert. destruct (decide (generateVersionId w = id)); [|apply IH].
    intros [= <-]. exists number. split; [exact Hvn|]. exact (Hnext _ _ _ Hnum).
  - destruct (createBranch_effect w pid bn from a st) as [[m E]|(fv & v & H)];
      [rewrite E; apply IH|].
    cbv zeta in H. destruct H as (Hfv & _ & _ & _ & _ & Hvn & _ & _ & _ & _ & Hv & _).
    rewrite Hv, lookup_insert. destruct (decide (generateVersionId w = id)); [|apply IH].
    intros [= <-]. rewrite Hvn. exact (IH _ _ Hfv).
  - pose proof (mergeBranch_effect w pid sb tb a st) as H. cbv zeta in H.
    destruct (branches st !! branchKey (Some (JStr pid)) sb) as [sid|] eqn:Esrc;
      [|rewrite H; apply IH].
    destruct (heads_stored sha256 st Hc _ _ Esrc) as [Hne [sv Hsv]]. rewrite Hne in H.
    destruct H as (v & _ & _ & Hvn & _ & _ & _ & _ & _ & Hv & _).
    rewrite Hsv in Hvn. cbn [spread] in Hvn.
    rewrite Hv, lookup_insert. destruct (decide (generateVersionId w = id)); [|apply IH].
    intros [= <-]. rewrite Hvn. exact (IH _ _ Hsv).
  - destruct (rollbackToVersion_effect w pid vid a rs st) as [[e E]|(tv & v & number & H)];
      [rewrite E; apply IH|].
    cbv zeta in H. destruct H as (_ & _ & Hnum & _ & _ & Hvn & _ & _ & _ & _ & _ & Hv & _).
    rewrite Hv, lookup_insert. destruct (decide (generateVersionId w = id)); [|apply IH].
    intros [= <-]. exists number. split; [exact Hvn|]. exact (Hnext _ _ _ Hnum).
Qed.

Lemma increment_1_0 (n : Z) :
  increment ("1.0." +:+ string_of_Z n) = "1.0." +:+ string_of_Z (n + 1).
Proof.
  unfold increment.
  assert (Hsplit : split "." ("1.0." +:+ string_of_Z n) = ["1"; "0"; string_of_Z n]).
  { change ("1.0." +:+ string_of_Z n)
      with ("1" +:+ String "." ("0" +:+ String "." (string_of_Z n))).
    rewrite split_app_sep by reflexivity.
    rewrite split_app_sep by reflexivity.
    rewrite split_no_sep by apply string_of_Z_no_dot. reflexivity. }
  rewrite Hsplit. cbn [nth_error]. unfold parseInt. rewrite parseInt_string_of_Z.
  cbn [option_map string_of_number set_index]. rewrite (Z.add_comm 1 n). reflexivity.
Qed.

(** X5.  Major and minor never move: every version number stored in a
    reachable engine is "1.0.<n>" for some n >= 0. *)
Theorem version_numbers_are_1_0_n sha256 (st : Engine) (id : string) (v : Version) :
  reachable sha256 st ->
  versions st !! id = Some v ->
  exists n, 0 <= n /\ version_number v = Some ("1.0." +:+ string_of_Z n).
Proof.
  intros Hr Hv.
  destruct (version_numbers_invariant sha256
              (fun s => exists n, 0 <= n /\ s = "1.0." +:+ string_of_Z n)) with (4 := Hv)
    as (s0 & Hs & n & Hn & ->).
  - exists 0. split; [lia|reflexivity].
  - intros s0 (n & Hn & ->). exists (n + 1). split; [lia|apply increment_1_0].
  - exact Hr.
  - exists n. auto.
Qed.

Lemma version_numbers_are_1_0_n_witness :
  exists v n,
    versions (three_versions plain_digest) !! "v_0000_3" = Some v
    /\ 0 <= n /\ version_number v = Some ("1.0." +:+ string_of_Z n).
Proof.
  assert (E : is_Some (versions (three_versions plain_digest) !! "v_0000_3"))
    by (vm_compute; eauto).
  destruct E as [v E].
  destruct (version_numbers_are_1_0_n plain_digest _ _ v
              (reachable_three_versions plain_digest) E) as (n & H).
  exists v, n. split; [exact E|exact H].
Defined.

(** X6.  A version number without a numeric third part never recovers: the
    number computed from it has "NaN" as its third part, whose patch is
    again not a number. *)
Theorem increment_of_a_number_without_patch (number : string) :
  patch number = None ->
  nth_error (split "." (increment number)) 2 = Some "NaN"
  /\ patch (increment number) = None.
Proof.
  intros H. unfold patch in *. unfold increment. rewrite H.
  cbn [option_map string_of_number].
  rewrite split_join.
  - rewrite set_index_nth. split; reflexivity.
  - apply set_index_nonempty.
  - apply set_index_Forall; [reflexivity|reflexivity|apply split_parts_no_sep].
Qed.

Lemma increment_of_a_number_without_patch_witness :
  increment "1.0" = "1.0.NaN"
  /\ nth_error (split "." (increment "1.0")) 2 = Some "NaN"
  /\ patch (increment "1.0") = None.
Proof.
  split; [reflexivity|].
  apply (increment_of_a_number_without_patch "1.0"). reflexivity.
Defined.

(** X8.  Merging a branch into itself deletes it: on a reachable engine,
    mergeBranch with the same source and target stores the merge version and
    then removes the only pointer to it, so the branch has no head. *)
Theorem mergeBranch_into_itself_deletes_the_branch sha256 (st : Engine) (w : World)
    (playbookId branch_ author_ head : string) :
  reachable sha256 st ->
  branches st !! branchKey (Some (JStr playbookId)) branch_ = Some head ->
  let st' := fst (mergeBranch w playbookId branch_ branch_ author_ st) in
  getLatestVersion playbookId branch_ st' = None
  /\ exists mergeVersion,
       versions st' !! generateVersionId w = Some mergeVersion
       /\ branch mergeVersion = branch_
       /\ merge_source mergeVersion = Some head.
Proof.
  intros Hr Hkey. cbv zeta.
  pose proof (reachable_consistent sha256 st Hr) as Hc.
  pose proof (mergeBranch_effect w playbookId branch_ branch_ author_ st) as H.
  cbv zeta in H. rewrite Hkey in H.
  destruct (heads_stored sha256 st Hc _ _ Hkey) as [Hne _]. rewrite Hne in H.
  destruct H as (v & _ & _ & _ & Hbr & _ & _ & _ & Hms & Hv & Hb & _).
  split.
  - unfold getLatestVersion, head_id. rewrite Hb, lookup_delete_eq. reflexivity.
  - exists v. rewrite Hv, lookup_insert_eq. auto.
Qed.

Lemma mergeBranch_into_itself_deletes_the_branch_witness :
  getLatestVersion "pb-1" "main"
    (fst (mergeBranch (call 7) "pb-1" "main" "main" "bob" (three_versions plain_digest)))
  = None
  /\ exists mergeVersion,
       versions (fst (mergeBranch (call 7) "pb-1" "main" "main" "bob"
                        (three_versions plain_digest))) !! "v_0000_7" = Some mergeVersion
       /\ branch mergeVersion = "main"
       /\ merge_source mergeVersion = Some "v_0000_3".
Proof.
  apply (mergeBranch_into_itself_deletes_the_branch plain_digest (three_versions plain_digest)
           (call 7) "pb-1" "main" "bob" "v_0000_3" (reachable_three_versions plain_digest)).
  vm_compute. reflexivity.
Defined.

(** X10.  What createVersion returns is what getLatestVersion then finds:
    for a playbook whose playbook_id is a string, the version returned is the
    head of its branch in the engine the call leaves. *)
Theorem getLatestVersion_after_createVersion sha256 (w : World) (p : json)
    (d a b playbookId : string) (st st' : Engine) (v : Version) :
  get "playbook_id" (Some p) = inr (Some (JStr playbookId)) ->
  createVersion sha256 w p d a b st = (st', inr v) ->
  getLatestVersion playbookId b st' = Some v
  /\ getVersion (version_id v) st' = Some v.
Proof.
  intros Hpid E.
  destruct (VersionControlClaims.createVersion_returns sha256 _ _ _ _ _ _ _ _ E)
    as (sum & pid & number & _ & Hp & _ & Hid & _ & _ & _ & Hv & Hb).
  assert (pid = Some (JStr playbookId)) by congruence. subst pid.
  unfold getLatestVersion, getVersion, head_id.
  rewrite Hb, lookup_insert_eq, generateVersionId_nonempty, Hv, Hid, lookup_insert_eq.
  split; reflexivity.
Qed.

Lemma getLatestVersion_after_createVersion_witness :
  exists v,
    snd (createVersion plain_digest (call 1) (playbook 85) "first" "alice" "main" initial)
    = inr v
    /\ getLatestVersion "pb-1" "main" (one_version plain_digest) = Some v
    /\ getVersion (version_id v) (one_version plain_digest) = Some v.
Proof.
  unfold one_version, after.
  destruct (createVersion plain_digest (call 1) (playbook 85) "first" "alice" "main" initial)
    as [st' [e|v]] eqn:E; [vm_compute in E; discriminate E|].
  exists v. cbn [fst snd]. split; [reflexivity|].
  exact (getLatestVersion_after_createVersion plain_digest (call 1) (playbook 85)
           "first" "alice" "main" "pb-1" initial st' v eq_refl E).
Defined.

Lemma versions_set_frame (id : string) (v : Version) (st : Engine) :
  exists st',
    versions_set id v st = (st', inr tt)
    /\ storage st' = storage st /\ auditTrail st' = auditTrail st.
Proof. eexists. split; [reflexivity|]. split; reflexivity. Qed.

Lemma branches_set_frame (key id : string) (st : Engine) :
  exists st',
    branches_set key id st = (st', inr tt)
    /\ storage st' = storage st /\ auditTrail st' = auditTrail st.
Proof. eexists. split; [reflexivity|]. split; reflexivity. Qed.

Lemma persistVersion_failed (w : World) (v : Version) (st : Engine) :
  disk_ok w = false ->
  exists st',
    persistVersion w v st = (st', inl IOFailure)
    /\ storage st' = storage st /\ auditTrail st' = auditTrail st.
Proof.
  intros H. unfold persistVersion. rewrite H. eexists. split; [reflexivity|].
  split; reflexivity.
Qed.

(** When the file write fails, the statements that end createVersion leave
    the disk and the audit trail as they were. *)
Lemma failed_write_frame (w : World) (v : Version) (id key : string) (e : AuditEntry)
    (st : Engine) :
  disk_ok w = false ->
  exists st',
    mbind (versions_set id v) (fun _ =>
      mbind (branches_set key id) (fun _ =>
        mbind (persistVersion w v) (fun _ =>
          mbind (addAuditEntry e) (fun _ => ret v)))) st
    = (st', inl IOFailure)
    /\ storage st' = storage st /\ auditTrail st' = auditTrail st.
Proof.
  intros Hdisk.
  destruct (versions_set_frame id v st) as (s1 & E1 & S1 & A1).
  destruct (branches_set_frame key id s1) as (s2 & E2 & S2 & A2).
  destruct (persistVersion_failed w v s2 Hdisk) as (s3 & E3 & S3 & A3).
  rewrite (mbind_ok _ _ _ _ _ E1), (mbind_ok _ _ _ _ _ E2), (mbind_fail _ _ _ _ _ E3).
  exists s3. split; [reflexivity|]. rewrite S3, S2, S1, A3, A2, A1. split; reflexivity.
Qed.

(** X7.  createVersion is not all-or-nothing.  When the playbook can be
    read but the file write fails, the call throws the wrapped I/O error, and
    yet the version is in the in-memory map and the branch pointer names it;
    nothing is on disk and no audit entry was added. *)
Theorem createVersion_failed_write_keeps_memory sha256 (w : World) (p : json)
    (d a b : string) (st : Engine) (pid : jsval) (md : Metadata) :
  reachable sha256 st ->
  get "playbook_id" (Some p) = inr pid ->
  readMetadata p = inr md ->
  disk_ok w = false ->
  let r := createVersion sha256 w p d a b st in
  snd r = inl (Rethrown "Version creation failed: " IOFailure)
  /\ (exists v, versions (fst r) !! generateVersionId w = Some v
                /\ playbook_snapshot v = Some p)
  /\ branches (fst r) !! branchKey pid b = Some (generateVersionId w)
  /\ storage (fst r) = storage st
  /\ auditTrail (fst r) = auditTrail st.
Proof.
  intros Hr Hpid Hmd Hdisk. cbv zeta.
  pose proof (reachable_consistent sha256 st Hr) as Hc.
  destruct (next_number_total sha256 st pid b Hc) as [number Hnum].
  assert (Hsum : exists sum, calculateChecksum sha256 p = inr sum).
  { unfold calculateChecksum. destruct p; try discriminate Hpid; cbn; eauto. }
  destruct Hsum as [sum Hsum].
  assert (Hname : exists pname, get "playbook_name" (Some p) = inr pname).
  { destruct p; try discriminate Hpid; cbn; eauto. }
  destruct Hname as [pname Hname].
  destruct (createVersion_effect sha256 w p d a b st)
    as [[F Hwhy]|(v & sum' & pid' & number' & md' & H)].
  { exfalso. destruct Hwhy as [Hk|[(pid' & Hp & Hn)|Hm]].
    - destruct p; discriminate.
    - assert (pid' = pid) by congruence. subst pid'. rewrite Hnum in Hn. discriminate Hn.
    - congruence. }
  destruct H as (_ & Hp & _ & _ & _ & _ & _ & _ & _ & _ & Hsnap & Hv & Hb & _ & Hout).
  assert (pid' = pid) by congruence. subst pid'.
  rewrite Hdisk in Hout.
  split; [exact Hout|]. split; [exists v; rewrite Hv, lookup_insert_eq; auto|].
  split; [rewrite Hb; apply lookup_insert_eq|].
  unfold createVersion, rethrow.
  rewrite mbind_lift, Hsum, mbind_lift, Hpid, mbind_lift, Hname.
  rewrite (mbind_run (getNextVersionNumber pid b)), Hnum.
  unfold getParentVersion. rewrite mbind_reads, mbind_lift, Hmd. cbv beta zeta.
  lazymatch goal with
  | |- context [mbind (versions_set ?id ?v)
                  (fun _ => mbind (branches_set ?key _)
                    (fun _ => mbind (persistVersion ?w _)
                      (fun _ => mbind (addAuditEntry ?e) _))) ?st] =>
      destruct (failed_write_frame w v id key e st Hdisk) as (st' & E & HS & HA);
      rewrite E
  end.
  cbn [fst]. auto.
Qed.

Lemma createVersion_failed_write_keeps_memory_witness :
  let w := {| uuid := "0000-9"; audit_uuid := "a-9"; now := 9000; disk_ok := false |} in
  let r := createVersion plain_digest w (playbook 85) "first" "alice" "main" initial in
  snd r = inl (Rethrown "Version creation failed: " IOFailure)
  /\ (exists v, versions (fst r) !! "v_0000_9" = Some v
                /\ playbook_snapshot v = Some (playbook 85))
  /\ branches (fst r) !! "pb-1:main" = Some "v_0000_9"
  /\ storage (fst r) = storage initial
  /\ auditTrail (fst r) = auditTrail initial.
Proof.
  exact (createVersion_failed_write_keeps_memory plain_digest
           {| uuid := "0000-9"; audit_uuid := "a-9"; now := 9000; disk_ok := false |}
           (playbook 85) "first" "alice" "main" initial _ _
           (reachable_initial plain_digest) eq_refl eq_refl eq_refl).
Defined.

(** X9.  The audit trail is bounded.  addAuditEntry puts the entry last; a
    trail of at most 10000 entries stays at most 10000 long, because the push
    that would make it 10001 cuts it down to its last 5000. *)
Theorem addAuditEntry_keeps_the_trail_bounded (e : AuditEntry) (st : Engine) :
  Z.of_nat (List.length (auditTrail st)) <= 10000 ->
  let trail' := auditTrail (fst (addAuditEntry e st)) in
  List.last trail' e = e
  /\ (exists front, trail' = (front ++ [e])%list)
  /\ Z.of_nat (List.length trail') <= 10000
  /\ (Z.of_nat (List.length (auditTrail st)) < 10000 ->
      trail' = (auditTrail st ++ [e])%list)
  /\ (Z.of_nat (List.length (auditTrail st)) = 10000 ->
      Z.of_nat (List.length trail') = 5000).
Proof.
  intros Hlen. cbv zeta. unfold addAuditEntry, log. cbn [fst auditTrail].
  assert (Happ : List.length (auditTrail st ++ [e])%list = S (List.length (auditTrail st)))
    by (rewrite length_app; cbn; lia).
  destruct (10000 <? Z.of_nat (List.length (auditTrail st ++ [e])%list)) eqn:Ecut.
  - apply Z.ltb_lt in Ecut. rewrite Happ in Ecut.
    assert (Hfull : List.length (auditTrail st) = Z.to_nat 10000) by lia.
    unfold lastn. rewrite Happ.
    assert (Hskip : (S (List.length (auditTrail st)) - Z.to_nat 5000
                     <= List.length (auditTrail st))%nat) by lia.
    rewrite skipn_app.
    replace (S (List.length (auditTrail st)) - Z.to_nat 5000 - List.length (auditTrail st))%nat
      with 0%nat by lia.
    cbn [skipn].
    split; [apply last_last|].
    split; [eauto|].
    rewrite length_app, length_skipn. cbn [List.length].
    repeat split; intros; lia.
  - apply Z.ltb_ge in Ecut. rewrite Happ in Ecut.
    split; [apply last_last|].
    split; [eauto|].
    rewrite Happ. repeat split; intros; lia || reflexivity.
Qed.

Lemma addAuditEntry_keeps_the_trail_bounded_witness :
  let e := {| audit_id := "a"; action := "create_tag"; audit_version_id := None;
              audit_playbook_id := None; author := "system"; timestamp := 0;
              description := EmptyString; details := [] |} in
  let trail' := auditTrail (fst (addAuditEntry e (one_version plain_digest))) in
  List.last trail' e = e
  /\ (exists front, trail' = (front ++ [e])%list)
  /\ Z.of_nat (List.length trail') <= 10000
  /\ (Z.of_nat (List.length (auditTrail (one_version plain_digest))) < 10000 ->
      trail' = (auditTrail (one_version plain_digest) ++ [e])%list)
  /\ (Z.of_nat (List.length (auditTrail (one_version plain_digest))) = 10000 ->
      Z.of_nat (List.length trail') = 5000).
Proof.
  apply (addAuditEntry_keeps_the_trail_bounded _ (one_version plain_digest)).
  vm_compute. discriminate.
Defined.

Lemma append_assoc3 (p q r : string) : (p +:+ q) +:+ r = p +:+ (q +:+ r).
Proof.
  induction p as [|c p IH]; [reflexivity|].
  rewrite !append_cons, IH. reflexivity.
Qed.

(** The branch key does not tell where the playbook id ends. *)
Lemma branchKey_collision (p b c : string) :
  branchKey (Some (JStr (p +:+ ":" +:+ b))) c = branchKey (Some (JStr p)) (b +:+ ":" +:+ c).
Proof.
  unfold branchKey. cbn [to_string toStr]. rewrite !append_assoc3. reflexivity.
Qed.

(** A playbook whose id holds a colon, for the example below. *)
Definition colon_playbook : json :=
  JObj [("playbook_id", JStr "pb-1:feature");
        ("playbook_name", JStr "Another playbook");
        ("platform", JStr "splunk");
        ("use_case", use_case 40)].

Definition two_playbooks sha256 : Engine :=
  after (createVersion sha256 (call 8) colon_playbook "other" "dave" "hotfix")
    (three_versions sha256).

Lemma reachable_two_playbooks sha256 : reachable sha256 (two_playbooks sha256).
Proof.
  exact (reachable_step sha256 _ _ (reachable_three_versions sha256)
           (step_createVersion sha256 (call 8) colon_playbook "other" "dave" "hotfix"
              (three_versions sha256))).
Defined.

(** X11.  Branches of different playbooks can share a key.  The head of
    branch c of the playbook named "p:b" is also what mergeBranch finds as
    branch "b:c" of playbook p: that merge stores a copy of the other
    playbook's version on p's target branch and removes the other playbook's
    branch pointer. *)
Theorem mergeBranch_reaches_into_another_playbook sha256 (st : Engine) (w : World)
    (p b c targetBranch author_ head : string) (other : Version) :
  reachable sha256 st ->
  branches st !! branchKey (Some (JStr (p +:+ ":" +:+ b))) c = Some head ->
  getLatestVersion (p +:+ ":" +:+ b) c st = Some other ->
  let st' := fst (mergeBranch w p (b +:+ ":" +:+ c) targetBranch author_ st) in
  getLatestVersion (p +:+ ":" +:+ b) c st' = None
  /\ exists mergeVersion,
       versions st' !! generateVersionId w = Some mergeVersion
       /\ branch mergeVersion = targetBranch
       /\ playbook_id mergeVersion = playbook_id other
       /\ playbook_snapshot mergeVersion = playbook_snapshot other.
Proof.
  intros Hr Hkey Hother. cbv zeta.
  pose proof (reachable_consistent sha256 st Hr) as Hc.
  destruct (heads_stored sha256 st Hc _ _ Hkey) as [Hne [sv Hsv]].
  assert (sv = other).
  { unfold getLatestVersion, head_id in Hother. rewrite Hkey, Hne, Hsv in Hother. congruence. }
  subst sv.
  pose proof (mergeBranch_effect w p (b +:+ ":" +:+ c) targetBranch author_ st) as H.
  cbv zeta in H. rewrite <- branchKey_collision, Hkey, Hne, Hsv in H.
  cbn [spread] in H.
  destruct H as (v & _ & Hp & _ & Hbr & _ & _ & Hsnap & _ & Hv & Hb & _).
  split.
  - unfold getLatestVersion, head_id. rewrite Hb, lookup_delete_eq. reflexivity.
  - exists v. rewrite Hv, lookup_insert_eq. auto.
Qed.

Lemma mergeBranch_reaches_into_another_playbook_witness :
  exists other,
    getLatestVersion "pb-1:feature" "hotfix" (two_playbooks plain_digest) = Some other
    /\ getLatestVersion "pb-1:feature" "hotfix"
         (fst (mergeBranch (call 9) "pb-1" "feature:hotfix" "main" "bob"
                 (two_playbooks plain_digest))) = None
    /\ exists mergeVersion,
         versions (fst (mergeBranch (call 9) "pb-1" "feature:hotfix" "main" "bob"
                          (two_playbooks plain_digest))) !! "v_0000_9" = Some mergeVersion
         /\ branch mergeVersion = "main"
         /\ playbook_id mergeVersion = playbook_id other
         /\ playbook_snapshot mergeVersion = playbook_snapshot other.
Proof.
  assert (E : is_Some (getLatestVersion "pb-1:feature" "hotfix" (two_playbooks plain_digest)))
    by (vm_compute; eauto).
  destruct E as [other E]. exists other. split; [exact E|].
  apply (mergeBranch_reaches_into_another_playbook plain_digest (two_playbooks plain_digest)
           (call 9) "pb-1" "feature" "hotfix" "main" "bob" "v_0000_8" other
           (reachable_two_playbooks plain_digest)); [vm_compute; reflexivity|exact E].
Defined.

End VersionControlMore.

(** ** Tags, comparison and start-up load *)

Module VersionControlRestFacts.
Import JS JSFacts VersionControlEngine VersionControlFacts VersionControlRest Samples.
Import VersionControlMore.

(** X12.  createTag never changes a tag that exists, nor any version or
    branch pointer, whatever its outcome; and asked for a tag name that is
    taken, on a stored version of that playbook, it throws "Tag <name>
    already exists" and leaves everything as it was. *)
Theorem createTag_never_changes_a_tag (w : World)
    (playbookId tagName versionId author_ description_ : string) (s : Tagged) :
  let r := createTag w playbookId tagName versionId author_ description_ s in
  (forall key tag, snd s !! key = Some tag -> snd (fst r) !! key = Some tag)
  /\ versions (fst (fst r)) = versions (fst s)
  /\ branches (fst (fst r)) = branches (fst s)
  /\ (forall version tag,
        versions (fst s) !! versionId = Some version ->
        same_playbook version playbookId = true ->
        getTag playbookId tagName s = Some tag ->
        r = (s, inl (Rethrown "Tag creation failed: "
                       (Thrown ("Tag " +:+ tagName +:+ " already exists"))))).
Proof.
  cbv zeta. destruct s as [st tags]. unfold createTag, getTag. cbn [fst snd].
  destruct (versions st !! versionId) as [version|] eqn:Ev.
  2:{ cbn [fst snd]. repeat split; auto. intros; discriminate. }
  destruct (same_playbook version playbookId) eqn:Es; cbn [negb].
  2:{ cbn [fst snd]. repeat split; auto. intros ? ? [= <-]. congruence. }
  destruct (tags !! tagKey playbookId tagName) as [t|] eqn:Et.
  { cbn [fst snd]. repeat split; auto. }
  unfold addAuditEntry, log. cbn [fst snd versions branches].
  repeat split; auto.
  - intros key tag Hkey. rewrite lookup_insert_ne; [exact Hkey|]. congruence.
  - intros; discriminate.
Qed.

(** X13.  A tag that createTag returns is the one getTag finds afterwards,
    and it records the tagged version's id and number. *)
Theorem getTag_after_createTag (w : World)
    (playbookId tagName versionId author_ description_ : string) (s s' : Tagged) (tag : Tag) :
  createTag w playbookId tagName versionId author_ description_ s = (s', inr tag) ->
  getTag playbookId tagName s = None
  /\ getTag playbookId tagName s' = Some tag
  /\ tag_version_id tag = versionId
  /\ exists version,
       versions (fst s) !! versionId = Some version
       /\ same_playbook version playbookId = true
       /\ tag_version_number tag = version_number version.
Proof.
  destruct s as [st tags]. unfold createTag, getTag. cbn [fst snd].
  destruct (versions st !! versionId) as [version|] eqn:Ev; [|discriminate].
  destruct (same_playbook version playbookId) eqn:Es; cbn [negb]; [|discriminate].
  destruct (tags !! tagKey playbookId tagName) as [t|] eqn:Et; [discriminate|].
  unfold addAuditEntry, log. intros [= <- <-]. cbn [fst snd tag_version_id tag_version_number].
  rewrite lookup_insert_eq. eauto 10.
Qed.

Lemma getTag_after_createTag_witness :
  exists tag,
    snd (createTag (call 10) "pb-1" "release" "v_0000_2" "alice" "stable"
           (three_versions plain_digest, ∅)) = inr tag
    /\ getTag "pb-1" "release"
         (fst (createTag (call 10) "pb-1" "release" "v_0000_2" "alice" "stable"
                 (three_versions plain_digest, ∅))) = Some tag
    /\ tag_version_id tag = "v_0000_2".
Proof.
  destruct (createTag (call 10) "pb-1" "release" "v_0000_2" "alice" "stable"
              (three_versions plain_digest, ∅)) as [s' [e|tag]] eqn:E.
  { vm_compute in E. discriminate E. }
  destruct (getTag_after_createTag _ _ _ _ _ _ _ _ _ E) as (_ & H2 & H3 & _).
  exists tag. cbn [fst snd]. auto.
Defined.

(** *** The metadata of stored versions *)

(** The snapshot is a playbook whose metadata fields can be read, and the
    stored metadata is what they read. *)
Definition described (v : Version) : Prop :=
  exists p md,
    playbook_snapshot v = Some p /\ readMetadata p = inr md /\ metadata v = Some md.

Ltac stored_version :=
  lazymatch goal with
  | |- context [mbind (versions_set ?id ?v)
                  (fun _ => mbind (branches_set ?key _)
                    (fun _ => mbind (persistVersion ?w _)
                      (fun _ => mbind (addAuditEntry ?e) _))) ?st] =>
      let st' := fresh "st'" in
      let E := fresh "E" in
      let Hv := fresh "Hv" in
      destruct (store_then_persist w v id key e st eq_refl) as (st' & E & Hv & _ & _);
      rewrite E; clear E; right; exists v
  | |- context [mbind (versions_set ?id ?v)
                  (fun _ => mbind (branches_set ?key _)
                    (fun _ => mbind (branches_delete ?src)
                      (fun _ => mbind (persistVersion ?w _)
                        (fun _ => mbind (addAuditEntry ?e) _)))) ?st] =>
      let st' := fresh "st'" in
      let E := fresh "E" in
      let Hv := fresh "Hv" in
      destruct (store_then_delete w v id key src e st eq_refl eq_refl)
        as (st' & E & Hv & _ & _);
      rewrite E; clear E; right; exists v
  end.

Lemma createVersion_describes sha256 (w : World) (p : json) (d a b : string) (st : Engine) :
  let r := createVersion sha256 w p d a b st in
  versions (fst r) = versions st
  \/ exists v, versions (fst r) = <[generateVersionId w := v]> (versions st) /\ described v.
Proof.
  cbv zeta. unfold createVersion, rethrow. rewrite mbind_lift.
  destruct (calculateChecksum sha256 p) as [e|sum]; [left; reflexivity|].
  rewrite mbind_lift.
  destruct (get "playbook_id" (Some p)) as [e|pid]; [left; reflexivity|].
  rewrite mbind_lift.
  destruct (get "playbook_name" (Some p)) as [e|pname]; [left; reflexivity|].
  pose proof (getNextVersionNumber_state pid b st) as Hst.
  rewrite (mbind_run (getNextVersionNumber pid b)).
  destruct (getNextVersionNumber pid b st) as [st1 [e|number]];
    cbn [fst snd] in Hst; subst st1; [left; reflexivity|].
  unfold getParentVersion. rewrite mbind_reads, mbind_lift.
  destruct (readMetadata p) as [e|md] eqn:Emd; [left; reflexivity|].
  rewrite deepClone_id. cbv beta zeta. stored_version.
  destruct (disk_ok w); cbn [fst]; (split; [assumption|]); exists p, md; auto.
Qed.

Lemma createBranch_describes (w : World) (pid bn from a : string) (st : Engine) :
  let r := createBranch w pid bn from a st in
  versions (fst r) = versions st
  \/ exists v fv,
       versions (fst r) = <[generateVersionId w := v]> (versions st)
       /\ versions st !! from = Some fv
       /\ playbook_snapshot v = playbook_snapshot fv /\ metadata v = metadata fv.
Proof.
  cbv zeta. unfold createBranch, rethrow. rewrite mbind_reads.
  destruct (versions st !! from) as [fv|] eqn:Efrom; [|left; reflexivity].
  destruct (same_playbook fv pid); cbn [negb]; [|left; reflexivity].
  rewrite mbind_reads.
  destruct (branches st !! branchKey (Some (JStr pid)) bn); [left; reflexivity|].
  cbv beta zeta. stored_version. exists fv.
  destruct (disk_ok w); cbn [fst]; auto.
Qed.

Lemma mergeBranch_describes (w : World) (pid sb tb a : string) (st : Engine) :
  let r := mergeBranch w pid sb tb a st in
  versions (fst r) = versions st
  \/ exists v sid,
       versions (fst r) = <[generateVersionId w := v]> (versions st)
       /\ branches st !! branchKey (Some (JStr pid)) sb = Some sid
       /\ playbook_snapshot v = playbook_snapshot (spread (versions st !! sid))
       /\ metadata v = metadata (spread (versions st !! sid)).
Proof.
  cbv zeta. unfold mergeBranch, rethrow. rewrite !mbind_reads.
  destruct (branches st !! branchKey (Some (JStr pid)) sb) as [sid|] eqn:Esrc;
    [|left; reflexivity].
  destruct (nonempty sid); cbn [negb]; [|left; reflexivity].
  rewrite mbind_reads. cbv beta zeta. stored_version. exists sid.
  destruct (disk_ok w); cbn [fst]; auto.
Qed.

Lemma rollbackToVersion_describes (w : World) (pid vid a rs : string) (st : Engine) :
  let r := rollbackToVersion w pid vid a rs st in
  (versions (fst r) = versions st /\ exists e, snd r = inl e)
  \/ exists v tv,
       versions (fst r) = <[generateVersionId w := v]> (versions st)
       /\ versions st !! vid = Some tv
       /\ playbook_snapshot v = playbook_snapshot tv /\ metadata v = metadata tv.
Proof.
  cbv zeta. unfold rollbackToVersion, rethrow. rewrite mbind_reads.
  destruct (versions st !! vid) as [tv|] eqn:Evid; [|left; cbn; eauto].
  destruct (same_playbook tv pid); cbn [negb]; [|left; cbn; eauto].
  pose proof (getNextVersionNumber_state (Some (JStr pid)) (branch tv) st) as Hst.
  rewrite (mbind_run (getNextVersionNumber (Some (JStr pid)) (branch tv))).
  destruct (getNextVersionNumber (Some (JStr pid)) (branch tv) st) as [st1 [e|number]];
    cbn [fst snd] in Hst; subst st1; [left; cbn; eauto|].
  rewrite mbind_reads. cbv beta zeta. stored_version. exists tv.
  destruct (disk_ok w); cbn [fst]; auto.
Qed.

Lemma stored_versions_described sha256 (st : Engine) (id : string) (v : Version) :
  reachable sha256 st ->
  versions st !! id = Some v ->
  described v.
Proof.
  unfold described. intros Hr. revert id v.
  induction Hr as [|st st' Hr IH Hstep]; intros id v0.
  { cbn. rewrite lookup_empty. discriminate. }
  pose proof (reachable_consistent sha256 st Hr) as Hc.
  assert (Hcopy : forall v fv,
             (exists i, versions st !! i = Some fv) ->
             playbook_snapshot v = playbook_snapshot fv -> metadata v = metadata fv ->
             described v).
  { intros v fv [i Hi] Hs Hm. destruct (IH _ _ Hi) as (p & md & ? & ? & ?).
    exists p, md. repeat split; congruence. }
  destruct Hstep as [w p d a b st|w pid bn from a st|w pid sb tb a st|w pid vid a rs st].
  - destruct (createVersion_describes sha256 w p d a b st) as [E|(v & E & Hd)];
      rewrite E; [apply IH|].
    rewrite lookup_insert. destruct (decide (generateVersionId w = id)); [|apply IH].
    intros [= <-]. exact Hd.
  - destruct (createBranch_describes w pid bn from a st) as [E|(v & fv & E & Hfv & Hs & Hm)];
      rewrite E; [apply IH|].
    rewrite lookup_insert. destruct (decide (generateVersionId w = id)); [|apply IH].
    intros [= <-]. apply (Hcopy v fv); eauto.
  - destruct (mergeBranch_describes w pid sb tb a st) as [E|(v & sid & E & Hsrc & Hs & Hm)];
      rewrite E; [apply IH|].
    rewrite lookup_insert. destruct (decide (generateVersionId w = id)); [|apply IH].
    intros [= <-].
    destruct (heads_stored sha256 st Hc _ _ Hsrc) as [_ [sv Hsv]].
    rewrite Hsv in Hs, Hm. cbn [spread] in Hs, Hm. apply (Hcopy v sv); eauto.
  - destruct (rollbackToVersion_describes w pid vid a rs st)
      as [[E _]|(v & tv & E & Htv & Hs & Hm)]; rewrite E; [apply IH|].
    rewrite lookup_insert. destruct (decide (generateVersionId w = id)); [|apply IH].
    intros [= <-]. apply (Hcopy v tv); eauto.
Qed.

(** X14.  The metadata kept beside a snapshot is always that snapshot's: in
    a reachable engine every stored version has a snapshot whose metadata
    fields can be read, and its metadata is what readMetadata reads from
    that snapshot. *)
Theorem metadata_is_read_from_the_snapshot sha256 (st : Engine) (id : string) (v : Version) :
  reachable sha256 st ->
  versions st !! id = Some v ->
  exists p md,
    playbook_snapshot v = Some p /\ readMetadata p = inr md /\ metadata v = Some md.
Proof. exact (stored_versions_described sha256 st id v). Qed.

Lemma metadata_is_read_from_the_snapshot_witness :
  exists v p md,
    versions (three_versions plain_digest) !! "v_0000_2" = Some v
    /\ playbook_snapshot v = Some p /\ readMetadata p = inr md /\ metadata v = Some md.
Proof.
  assert (E : is_Some (versions (three_versions plain_digest) !! "v_0000_2"))
    by (vm_compute; eauto).
  destruct E as [v E].
  destruct (metadata_is_read_from_the_snapshot plain_digest _ _ v
              (reachable_three_versions plain_digest) E) as (p & md & H).
  exists v, p, md. split; [exact E|exact H].
Defined.

(** *** compareVersions *)

Definition no_changes : Changes := {| added := []; modified := []; removed := [] |}.

Lemma filter_none {A : Type} (f : A -> bool) (l : list A) :
  (forall x, In x l -> f x = false) -> List.filter f l = [].
Proof.
  induction l as [|x l IH]; intros H; [reflexivity|].
  cbn [List.filter]. rewrite (H x (or_introl eq_refl)).
  apply IH. intros y Hy. apply H. right. exact Hy.
Qed.

Lemma has_In (key : string) (names : list string) : In key names -> has key names = true.
Proof.
  intros H. apply existsb_exists. exists key. split; [exact H|apply String.eqb_refl].
Qed.

Lemma same_text_refl (a : option string) : same_text a a = true.
Proof. destruct a; [apply String.eqb_refl|reflexivity]. Qed.

Lemma detectChanges_same (o : object) : detectChanges o o = no_changes.
Proof.
  unfold detectChanges, no_changes.
  rewrite !filter_none; [reflexivity| |].
  - intros key H. rewrite (has_In _ _ H), same_text_refl. reflexivity.
  - intros key H. rewrite (has_In _ _ H). reflexivity.
Qed.

Lemma readMetadata_properties (p : json) (md : Metadata) :
  readMetadata p = inr md -> exists o, properties (Some p) = inr o.
Proof.
  destruct p; cbn [properties]; eauto. discriminate.
Qed.

Lemma compareVersions_same_content (st : Engine) (a b : string) (va vb : Version) :
  versions st !! a = Some va ->
  versions st !! b = Some vb ->
  playbook_snapshot va = playbook_snapshot vb ->
  metadata va = metadata vb ->
  described va ->
  compareVersions a b st
  = inr {| changes := no_changes; metadata_changes := no_changes |}.
Proof.
  intros Ha Hb Hs Hm (p & md & Hp & Hmd & Hmeta).
  unfold compareVersions. rewrite Ha, Hb, <- Hs, <- Hm, Hp, Hmeta.
  destruct (readMetadata_properties p md Hmd) as [o Ho]. rewrite Ho.
  cbn [bind metadata_object]. rewrite !detectChanges_same. reflexivity.
Qed.

(** X15.  A rollback restores the content: once rollbackToVersion has
    succeeded on a reachable engine, comparing the version rolled back to
    with the version the rollback made succeeds and reports nothing added,
    modified or removed, in the playbook and in the metadata. *)
Theorem compareVersions_after_rollback sha256 (w : World) (pid vid a rs : string)
    (st st' : Engine) (v : Version) :
  reachable sha256 st ->
  rollbackToVersion w pid vid a rs st = (st', inr v) ->
  compareVersions vid (generateVersionId w) st'
  = inr {| changes := no_changes; metadata_changes := no_changes |}.
Proof.
  intros Hr E.
  destruct (rollbackToVersion_describes w pid vid a rs st)
    as [[_ [e He]]|(v0 & tv & Hv & Htv & Hs & Hm)];
    rewrite E in *; cbn [fst snd] in *; [discriminate He|].
  destruct (stored_versions_described sha256 st vid tv Hr Htv)
    as (p & md & Hp & Hmd & Hmeta).
  destruct (decide (generateVersionId w = vid)) as [Heq|Hne].
  - apply (compareVersions_same_content st' _ _ v0 v0);
      try (rewrite Hv, <- ?Heq; apply lookup_insert_eq); try reflexivity.
    exists p, md. repeat split; congruence.
  - apply (compareVersions_same_content st' _ _ tv v0); try congruence.
    + rewrite Hv, lookup_insert_ne by exact Hne. exact Htv.
    + rewrite Hv. apply lookup_insert_eq.
    + exists p, md. auto.
Qed.

Lemma compareVersions_after_rollback_witness :
  exists st' v,
    rollbackToVersion (call 10) "pb-1" "v_0000_1" "alice" "bad release"
      (three_versions plain_digest) = (st', inr v)
    /\ compareVersions "v_0000_1" (generateVersionId (call 10)) st'
       = inr {| changes := no_changes; metadata_changes := no_changes |}.
Proof.
  destruct (rollbackToVersion (call 10) "pb-1" "v_0000_1" "alice" "bad release"
              (three_versions plain_digest)) as [st' [e|v]] eqn:E.
  { vm_compute in E. discriminate E. }
  exists st', v. split; [reflexivity|].
  exact (compareVersions_after_rollback plain_digest _ _ _ _ _ _ _ _
           (reachable_three_versions plain_digest) E).
Defined.

(** *** loadVersions *)

(** X16.  One unreadable version file hides every file listed after it:
    loadVersions loads what was listed before the first .json file whose read
    throws, and nothing listed after it. *)
Theorem loadVersions_stops_at_unreadable_file
    (before after_ : list (string * option Version)) (name : string) (st : Engine) :
  ends_with_json name = true ->
  Forall (fun f => ends_with_json (fst f) = true -> snd f <> None) before ->
  loadVersions (before ++ (name, None) :: after_) st = loadVersions before st.
Proof.
  intros Hn Hb. unfold loadVersions. revert st.
  induction Hb as [|[n [v|]] before Hx Hb IH]; intros st.
  - cbn [app List.filter fst]. rewrite Hn. reflexivity.
  - cbn [app List.filter fst].
    destruct (ends_with_json n); [cbn [load_files]; apply IH|apply IH].
  - cbn [app List.filter fst]. cbn [fst snd] in Hx.
    destruct (ends_with_json n); [reflexivity|apply IH].
Qed.

(** A version as a file of the storage directory holds it. *)
Definition listed (id number branch_ : string) : Version :=
  {| version_id := id;
     playbook_id := Some (JStr "pb-1");
     playbook_name := Some (JStr "Phishing triage");
     version_number := Some number;
     branch := branch_;
     checksum := Some "00";
     created_at := 0;
     created_by := "alice";
     change_description := "listed";
     parent_version := None;
     playbook_snapshot := Some (playbook 10);
     metadata := None;
     merge_source := None;
     rollback_from := None |}.

Lemma loadVersions_stops_at_unreadable_file_witness :
  loadVersions [("a.json", Some (listed "v_a" "1.0.0" "main")); ("b.json", None);
                ("c.json", Some (listed "v_c" "1.0.1" "main"))] initial
  = loadVersions [("a.json", Some (listed "v_a" "1.0.0" "main"))] initial.
Proof.
  apply (loadVersions_stops_at_unreadable_file
           [("a.json", Some (listed "v_a" "1.0.0" "main"))]
           [("c.json", Some (listed "v_c" "1.0.1" "main"))] "b.json" initial).
  - reflexivity.
  - repeat constructor. cbn. discriminate.
Defined.

Lemma load_files_app (l1 l2 : list (string * option Version)) (st : Engine) :
  Forall (fun f => snd f <> None) l1 ->
  load_files (l1 ++ l2) st = load_files l2 (load_files l1 st).
Proof.
  intros H. revert st. induction H as [|[n [v|]] l1 Hx H IH]; intros st.
  - reflexivity.
  - cbn [app load_files]. apply IH.
  - cbn in Hx. congruence.
Qed.

Lemma load_files_keeps_pointer (l : list (string * option Version)) (st : Engine)
    (key id : string) :
  Forall (fun f => forall v, snd f = Some v -> branchKey (playbook_id v) (branch v) <> key) l ->
  branches st !! key = Some id ->
  branches (load_files l st) !! key = Some id.
Proof.
  intros H. revert st. induction H as [|[n [v|]] l Hx H IH]; intros st Hk.
  - exact Hk.
  - cbn [load_files]. apply IH. cbn.
    rewrite lookup_insert_ne; [exact Hk|]. apply (Hx v eq_refl).
  - exact Hk.
Qed.

(** X17.  After a restart a branch points at the version whose file the
    directory listed last, whatever its number or date: when every listed
    file is a readable .json file, loadVersions leaves the pointer of a
    version's branch on that version if no file listed after it holds a
    version of the same playbook and branch. *)
Theorem loadVersions_pointer_is_the_last_listed
    (before after_ : list (string * option Version)) (name : string) (v : Version)
    (st : Engine) :
  Forall (fun f => ends_with_json (fst f) = true /\ snd f <> None) before ->
  ends_with_json name = true ->
  Forall (fun f => forall v', snd f = Some v' ->
            branchKey (playbook_id v') (branch v') <> branchKey (playbook_id v) (branch v))
    after_ ->
  branches (loadVersions (before ++ (name, Some v) :: after_) st)
    !! branchKey (playbook_id v) (branch v)
  = Some (version_id v).
Proof.
  intros Hb Hn Ha. unfold loadVersions.
  rewrite List.filter_app. cbn [List.filter fst]. rewrite Hn.
  rewrite load_files_app.
  - cbn [load_files]. apply load_files_keeps_pointer.
    + clear -Ha. induction Ha as [|f l Hx Ha IH]; cbn [List.filter]; [constructor|].
      destruct (ends_with_json (fst f)); [constructor; assumption|assumption].
    + cbn. apply lookup_insert_eq.
  - clear -Hb. induction Hb as [|f l [Hj Hx] Hb IH]; cbn [List.filter]; [constructor|].
    rewrite Hj. constructor; assumption.
Qed.

Lemma loadVersions_pointer_is_the_last_listed_witness :
  branches (loadVersions [("a.json", Some (listed "v_a" "1.0.1" "main"));
                          ("b.json", Some (listed "v_b" "1.0.0" "main"));
                          ("c.json", Some (listed "v_c" "1.0.0" "hotfix"))] initial)
    !! branchKey (Some (JStr "pb-1")) "main"
  = Some "v_b".
Proof.
  apply (loadVersions_pointer_is_the_last_listed
           [("a.json", Some (listed "v_a" "1.0.1" "main"))]
           [("c.json", Some (listed "v_c" "1.0.0" "hotfix"))]
           "b.json" (listed "v_b" "1.0.0" "main") initial).
  - repeat constructor. cbn. discriminate.
  - reflexivity.
  - repeat constructor. intros v' [= <-]. vm_compute. discriminate.
Defined.

End VersionControlRestFacts.

(** ** The approval engine beyond the claims *)

Module ApprovalGateMore.
Import JS JSFacts Regex ApprovalGateEngine Server ApprovalRest Samples.
Import ApprovalGateClaims.

(** *** The approval map *)

Lemma assoc_map_set_eq {A : Type} (k : string) (x : A) (l : list (string * A)) :
  assoc k (map_set k x l) = Some x.
Proof.
  induction l as [|[k' y] l IH]; cbn [map_set assoc].
  - rewrite String.eqb_refl. reflexivity.
  - destruct (String.eqb k k') eqn:E; cbn [assoc].
    + rewrite String.eqb_refl. reflexivity.
    + rewrite E. exact IH.
Qed.

Lemma assoc_map_set_ne {A : Type} (k k' : string) (x : A) (l : list (string * A)) :
  k' <> k -> assoc k' (map_set k x l) = assoc k' l.
Proof.
  intros Hne. induction l as [|[k0 y] l IH]; cbn [map_set assoc].
  - destruct (String.eqb k' k) eqn:E; [apply String.eqb_eq in E; contradiction|reflexivity].
  - destruct (String.eqb k k0) eqn:E; cbn [assoc].
    + apply String.eqb_eq in E. subst k0.
      destruct (String.eqb k' k) eqn:E'; [apply String.eqb_eq in E'; contradiction|reflexivity].
    + destruct (String.eqb k' k0); [reflexivity|exact IH].
Qed.

Lemma map_set_keys {A : Type} (k : string) (x : A) (l : list (string * A)) :
  map fst (map_set k x l)
  = if existsb (String.eqb k) (map fst l) then map fst l else (map fst l ++ [k])%list.
Proof.
  induction l as [|[k' y] l IH]; cbn [map_set map fst existsb app]; [reflexivity|].
  destruct (String.eqb k k') eqn:E; cbn [map fst orb].
  - apply String.eqb_eq in E. subst k'. reflexivity.
  - rewrite IH. destruct (existsb (String.eqb k) (map fst l)); reflexivity.
Qed.

(** *** The decision of evaluateApprovalGates *)

Definition priority (g : Gate) : Z := getApprovalLevelPriority (Some (approval_level g)).

Lemma priority_empty : getApprovalLevelPriority (Some EmptyString) = 0.
Proof. reflexivity. Qed.

Lemma consider_level (d : ApprovalDecision) (g : Gate) :
  triggered g = true ->
  getApprovalLevelPriority (decision_level (consider d g))
  = Z.max (getApprovalLevelPriority (decision_level d)) (priority g).
Proof.
  intros Ht. unfold consider, priority. rewrite Ht. cbn [decision_level].
  unfold raises_level.
  destruct (String.eqb (approval_level g) EmptyString) eqn:Eg; cbn [negb andb].
  - apply String.eqb_eq in Eg. rewrite Eg, priority_empty.
    assert (0 <= getApprovalLevelPriority (decision_level d)).
    { unfold getApprovalLevelPriority. destruct (decision_level d); [|lia].
      repeat match goal with |- context [if ?b then _ else _] => destruct b end; lia. }
    lia.
  - destruct (decision_level d) as [l|] eqn:El.
    + destruct (String.eqb l EmptyString) eqn:Ee; cbn [negb orb].
      * apply String.eqb_eq in Ee. subst l. rewrite priority_empty.
        assert (0 <= getApprovalLevelPriority (Some (approval_level g))).
        { unfold getApprovalLevelPriority.
          repeat match goal with |- context [if ?b then _ else _] => destruct b end; lia. }
        lia.
      * destruct (getApprovalLevelPriority (Some l)
                  <? getApprovalLevelPriority (Some (approval_level g))) eqn:Ep.
        -- apply Z.ltb_lt in Ep. lia.
        -- apply Z.ltb_ge in Ep. lia.
    + cbn [negb orb].
      assert (0 <= getApprovalLevelPriority (Some (approval_level g))).
      { unfold getApprovalLevelPriority.
        repeat match goal with |- context [if ?b then _ else _] => destruct b end; lia. }
      change (getApprovalLevelPriority None) with 0. lia.
Qed.

Lemma consider_triggered (d : ApprovalDecision) (g : Gate) :
  triggered g = true ->
  decision_gates (consider d g) = (decision_gates d ++ [g])%list
  /\ requires_approval (consider d g) = true
  /\ auto_approve (consider d g) = auto_approve d
  /\ decision_id (consider d g) = decision_id d
  /\ (decision_level (consider d g) = decision_level d
      \/ decision_level (consider d g) = Some (approval_level g)).
Proof.
  intros Ht. unfold consider. rewrite Ht. cbn. repeat split.
  destruct (raises_level g d); auto.
Qed.

(** What the loop over the gates keeps of a decision and what it adds. *)
Lemma fold_consider (gates : list Gate) (d : ApprovalDecision) :
  let d' := fold_left consider gates d in
  decision_gates d' = (decision_gates d ++ List.filter triggered gates)%list
  /\ requires_approval d' = requires_approval d || existsb triggered gates
  /\ auto_approve d' = auto_approve d
  /\ decision_id d' = decision_id d
  /\ getApprovalLevelPriority (decision_level d')
     = fold_left Z.max (map priority (List.filter triggered gates))
         (getApprovalLevelPriority (decision_level d))
  /\ (decision_level d' = decision_level d
      \/ exists g, In g (List.filter triggered gates)
                   /\ decision_level d' = Some (approval_level g)).
Proof.
  cbv zeta. revert d. induction gates as [|g gates IH]; intros d.
  - cbn. rewrite app_nil_r, orb_false_r. auto 10.
  - cbn [fold_left]. destruct (IH (consider d g)) as (H1 & H2 & H3 & H4 & H5 & H6).
    rewrite H1, H2, H3, H4, H5. clear H1 H2 H3 H4 H5 IH.
    cbn [List.filter existsb].
    destruct (triggered g) eqn:Ht.
    + rewrite (consider_level d g Ht).
      destruct (consider_triggered d g Ht) as (C1 & C2 & C3 & C4 & C5).
      rewrite C1, C2, C3, C4. cbn [map fold_left orb].
      rewrite <- app_assoc. cbn [app]. rewrite orb_true_r. repeat split.
      destruct H6 as [H6|(g' & Hin & H6)].
      * rewrite H6. destruct C5 as [C5|C5]; [left; exact C5|right].
        exists g. split; [left; reflexivity|exact C5].
      * right. exists g'. split; [right; exact Hin|exact H6].
    + unfold consider in *. rewrite Ht in *. cbn [orb]. auto 10.
Qed.

Lemma fold_max_ge (l : list Z) (a : Z) : a <= fold_left Z.max l a.
Proof.
  revert a. induction l as [|x l IH]; intros a; cbn [fold_left]; [lia|].
  specialize (IH (Z.max a x)). lia.
Qed.

Lemma fold_max_In (l : list Z) (a x : Z) : In x l -> x <= fold_left Z.max l a.
Proof.
  revert a. induction l as [|y l IH]; intros a; cbn [fold_left In]; [tauto|].
  intros [->|H]; [|apply IH; exact H].
  pose proof (fold_max_ge l (Z.max a x)). lia.
Qed.

(** The seven gates of a playbook, in the order they are looked at. *)
Definition gates_of (cfg : ApprovalConfig) (w : World) (playbook : json) : result (list Gate) :=
  bind (checkPrivilegedAccountGate playbook) (fun g1 =>
  bind (checkCriticalAssetGate playbook) (fun g2 =>
  bind (checkRiskScoreGate cfg playbook) (fun g3 =>
  bind (checkTechniqueGate cfg playbook) (fun g4 =>
  bind (checkActionGate cfg playbook) (fun g5 =>
  bind (checkBusinessHoursGate cfg w playbook) (fun g6 =>
  bind (checkAssetCriticalityGate playbook) (fun g7 =>
    inr [g1; g2; g3; g4; g5; g6; g7]))))))).

Definition start : ApprovalDecision :=
  {| requires_approval := false; decision_level := None; decision_gates := [];
     auto_approve := false; decision_reason := EmptyString;
     decision_id := None; decision_expires_at := None |}.

(** evaluateApprovalGates, outcome by outcome. *)
Lemma evaluateApprovalGates_cases cfg (w : World) (p ctx : json) (st st' : Store)
    (d : ApprovalDecision) :
  evaluateApprovalGates cfg w p ctx st = (st', inr d) ->
  exists gates,
    gates_of cfg w p = inr gates
    /\ let f := fold_left consider gates start in
       requires_approval d = requires_approval f
       /\ decision_level d = decision_level f
       /\ decision_gates d = decision_gates f
       /\ if requires_approval f then
            auto_approve d = false
            /\ decision_id d = Some (uuid w)
            /\ decision_reason d = generateApprovalReason (decision_gates f)
            /\ decision_expires_at d = Some (calculateExpirationTime cfg w)
            /\ exists r, createApprovalRequest cfg w d (uuid w) (calculateExpirationTime cfg w)
                           p ctx st = (st', inr r)
          else
            auto_approve d = true /\ st' = st /\ decision_id d = None.
Proof.
  unfold evaluateApprovalGates. fold (gates_of cfg w p). fold start.
  destruct (gates_of cfg w p) as [e|gates]; [intros [= ]|].
  intros H. exists gates. split; [reflexivity|]. cbv zeta. revert H.
  pose proof (fold_consider gates start) as (_ & _ & Ha & Hi & _).
  destruct (requires_approval (fold_left consider gates start)) eqn:Er.
  - lazymatch goal with
    | |- context [createApprovalRequest cfg w ?d' _ _ _ _ _] => set (d0 := d')
    end.
    destruct (createApprovalRequest cfg w d0 (uuid w) (calculateExpirationTime cfg w) p ctx st)
      as [st1 [e|r]] eqn:Ec; intros [= <- <-].
    subst d0. cbn [requires_approval decision_level decision_gates auto_approve decision_id
                   decision_reason decision_expires_at].
    rewrite Ha. repeat split; eauto.
  - intros [= <- <-]. cbn [requires_approval decision_level decision_gates auto_approve
                            decision_id]. rewrite Hi. repeat split.
Qed.

Lemma bind_inr {A B : Type} (m : result A) (k : A -> result B) (b : B) :
  bind m k = inr b -> exists a, m = inr a /\ k a = inr b.
Proof. destruct m as [e|a]; cbn; [discriminate|eauto]. Qed.

Ltac known_gate H :=
  repeat (apply bind_inr in H; destruct H as (? & _ & H));
  repeat match type of H with
         | (if ?c then _ else _) = _ => destruct c
         | match ?c with _ => _ end = _ => destruct c
         | bind _ _ = _ => apply bind_inr in H; destruct H as (? & _ & H)
         end;
  injection H as <-; cbn [approval_level]; unfold known_level;
  repeat match goal with |- context [if ?c then _ else _] => destruct c end; auto.

Lemma gates_of_known cfg (w : World) (p : json) (gates : list Gate) :
  gates_of cfg w p = inr gates ->
  Forall (fun g => known_level (Some (approval_level g))) gates.
Proof.
  unfold gates_of. intros H.
  apply bind_inr in H. destruct H as (g1 & H1 & H).
  apply bind_inr in H. destruct H as (g2 & H2 & H).
  apply bind_inr in H. destruct H as (g3 & H3 & H).
  apply bind_inr in H. destruct H as (g4 & H4 & H).
  apply bind_inr in H. destruct H as (g5 & H5 & H).
  apply bind_inr in H. destruct H as (g6 & H6 & H).
  apply bind_inr in H. destruct H as (g7 & H7 & H).
  injection H as <-.
  repeat apply List.Forall_cons; try apply List.Forall_nil.
  - unfold checkPrivilegedAccountGate in H1. known_gate H1.
  - unfold checkCriticalAssetGate in H2. known_gate H2.
  - unfold checkRiskScoreGate in H3. known_gate H3.
  - unfold checkTechniqueGate in H4. known_gate H4.
  - unfold checkActionGate in H5. known_gate H5.
  - unfold checkBusinessHoursGate in H6. known_gate H6.
  - unfold checkAssetCriticalityGate in H7. known_gate H7.
Qed.

Lemma known_priority (l : option string) :
  known_level l -> 1 <= getApprovalLevelPriority l <= 3.
Proof. intros [ -> | [ -> | -> ] ]; cbn; lia. Qed.

Lemma priority_known (l : option string) :
  1 <= getApprovalLevelPriority l -> known_level l.
Proof.
  unfold getApprovalLevelPriority, known_level. destruct l as [l|]; [|lia].
  destruct (String.eqb l "level_1") eqn:E1; [apply String.eqb_eq in E1; subst; auto|].
  destruct (String.eqb l "level_2") eqn:E2; [apply String.eqb_eq in E2; subst; auto|].
  destruct (String.eqb l "level_3") eqn:E3; [apply String.eqb_eq in E3; subst; auto|].
  lia.
Qed.

(** X18.  The decision takes the highest level among the gates that
    triggered: when evaluateApprovalGates returns a decision that requires
    approval, its gates are exactly the triggered ones of the seven, in the
    order they are checked; its level is the level of one of them, is one of
    level_1, level_2 and level_3, and no triggered gate has a higher
    priority. *)
Theorem decision_level_is_the_highest_triggered cfg (w : World) (p ctx : json)
    (st st' : Store) (d : ApprovalDecision) :
  evaluateApprovalGates cfg w p ctx st = (st', inr d) ->
  requires_approval d = true ->
  (exists gates, gates_of cfg w p = inr gates
                 /\ decision_gates d = List.filter triggered gates)
  /\ (exists g, In g (decision_gates d) /\ decision_level d = Some (approval_level g))
  /\ (forall g, In g (decision_gates d) ->
        getApprovalLevelPriority (Some (approval_level g))
        <= getApprovalLevelPriority (decision_level d))
  /\ known_level (decision_level d).
Proof.
  intros E Hr.
  destruct (evaluateApprovalGates_cases cfg w p ctx st st' d E) as (gates & Hg & H).
  cbv zeta in H. destruct H as (H1 & H2 & H3 & _).
  pose proof (fold_consider gates start) as (F1 & F2 & _ & _ & F5 & F6).
  cbn [decision_gates requires_approval decision_level start app orb] in F1, F2, F5, F6.
  change (getApprovalLevelPriority None) with 0 in F5.
  rewrite <- H1 in F2. rewrite <- H2 in F5, F6. rewrite <- H3 in F1. clear H1 H2 H3.
  pose proof (gates_of_known cfg w p gates Hg) as Hk.
  assert (Hprio : forall g, In g (decision_gates d) ->
            1 <= priority g <= getApprovalLevelPriority (decision_level d)).
  { intros g Hin. rewrite F1 in Hin. split.
    - apply List.filter_In in Hin. destruct Hin as [Hin _].
      rewrite List.Forall_forall in Hk. apply known_priority, Hk, Hin.
    - rewrite F5. apply fold_max_In, List.in_map, Hin. }
  assert (Hsome : exists g, In g (decision_gates d)).
  { rewrite Hr in F2. symmetry in F2. apply existsb_exists in F2.
    destruct F2 as (g & Hin & Ht). exists g. rewrite F1.
    apply List.filter_In. split; assumption. }
  assert (H1 : 1 <= getApprovalLevelPriority (decision_level d)).
  { destruct Hsome as [g Hin]. specialize (Hprio g Hin). lia. }
  repeat split.
  - exists gates. split; assumption.
  - destruct F6 as [F6|(g & Hin & F6)].
    + rewrite F6 in H1. cbn in H1. lia.
    + exists g. rewrite F1. split; assumption.
  - intros g Hin. apply Hprio, Hin.
  - apply priority_known, H1.
Qed.

Lemma decision_level_is_the_highest_triggered_witness :
  exists d,
    snd (evaluateApprovalGates example_config morning (playbook 85) (JObj []) empty_store)
    = inr d
    /\ (exists g, In g (decision_gates d) /\ decision_level d = Some (approval_level g))
    /\ known_level (decision_level d).
Proof.
  destruct (evaluateApprovalGates example_config morning (playbook 85) (JObj []) empty_store)
    as [st' [e|d]] eqn:E.
  { vm_compute in E. discriminate E. }
  assert (Hr : requires_approval d = true).
  { vm_compute in E. injection E as _ <-. reflexivity. }
  destruct (decision_level_is_the_highest_triggered _ _ _ _ _ _ _ E Hr) as (_ & H2 & _ & H4).
  exists d. cbn [snd]. auto.
Defined.

Lemma map_set_twice {A : Type} (k : string) (x y : A) (l : list (string * A)) :
  map_set k x (map_set k y l) = map_set k x l.
Proof.
  induction l as [|[k' z] l IH]; cbn [map_set].
  - rewrite String.eqb_refl. reflexivity.
  - destruct (String.eqb k k') eqn:E; cbn [map_set].
    + rewrite String.eqb_refl. reflexivity.
    + rewrite E, IH. reflexivity.
Qed.

Lemma createApprovalRequest_effect cfg (w : World) (d : ApprovalDecision)
    (id : string) (expires : Z) (p ctx : json) (st st' : Store) (r : ApprovalRequest) :
  createApprovalRequest cfg w d id expires p ctx st = (st', inr r) ->
  approvalStore st' = map_set id r (approvalStore st)
  /\ approvalHistory st' = approvalHistory st
  /\ approval_id r = id
  /\ status r = pending
  /\ request_level r = decision_level d
  /\ request_approvers r = getApproversForLevel cfg (decision_level d)
  /\ created_at r = now w
  /\ expires_at r = expires.
Proof.
  unfold createApprovalRequest.
  lazymatch goal with
  | |- context [match ?m with inl _ => _ | inr _ => _ end] => destruct m as [e|r0] eqn:Em
  end; [intros [= ]|].
  repeat (apply bind_inr in Em; destruct Em as (? & _ & Em)).
  injection Em as <-.
  destruct (shouldSendNotifications cfg); intros [= <- <-].
  - unfold sendApprovalNotifications, store_set.
    cbn [approval_id approvalStore approvalHistory mark_notified status request_level
         request_approvers created_at expires_at].
    rewrite assoc_map_set_eq. cbn [approvalStore approvalHistory].
    rewrite map_set_twice. repeat split.
  - cbn. repeat split.
Qed.



(** *** approveRequest and rejectRequest *)

Definition default_comments (comments : jsval) : jsval :=
  match comments with
  | None => Some (JStr EmptyString)
  | Some c => Some c
  end.

Lemma approveRequest_cases cfg (w : World) (id : string) (a c : jsval) (st : Store) :
  let res := approveRequest cfg w id a c st in
  (fst res = st /\ exists m, snd res = inl (Thrown m))
  \/ exists r,
       assoc id (approvalStore st) = Some r
       /\ status r = pending
       /\ isValidApprover cfg a (request_level r) = true
       /\ snd res = inr (approved_request r a (default_comments c) (now w))
       /\ approvalStore (fst res)
          = map_set id (approved_request r a (default_comments c) (now w)) (approvalStore st)
       /\ approvalHistory (fst res)
          = (approvalHistory st
             ++ [{| history_action := "approve"; history_approval_id := id;
                    history_approver := a; history_timestamp := now w;
                    history_note := default_comments c |}])%list.
Proof.
  cbv zeta. unfold approveRequest. fold (default_comments c).
  destruct (assoc id (approvalStore st)) as [r|]; [|left; cbn; eauto].
  destruct (status r) eqn:Es; cbn [is_pending negb]; try (left; cbn; eauto; fail).
  destruct (isValidApprover cfg a (request_level r)) eqn:Ev; cbn [negb];
    [|left; cbn; eauto].
  right. exists r. cbn. auto 10.
Qed.

Lemma rejectRequest_cases cfg (w : World) (id : string) (a x : jsval) (st : Store) :
  let res := rejectRequest cfg w id a x st in
  (fst res = st /\ exists m, snd res = inl (Thrown m))
  \/ exists r,
       assoc id (approvalStore st) = Some r
       /\ status r = pending
       /\ isValidApprover cfg a (request_level r) = true
       /\ snd res = inr (rejected_request r a x (now w))
       /\ approvalStore (fst res)
          = map_set id (rejected_request r a x (now w)) (approvalStore st)
       /\ approvalHistory (fst res)
          = (approvalHistory st
             ++ [{| history_action := "reject"; history_approval_id := id;
                    history_approver := a; history_timestamp := now w;
                    history_note := x |}])%list.
Proof.
  cbv zeta. unfold rejectRequest.
  destruct (assoc id (approvalStore st)) as [r|]; [|left; cbn; eauto].
  destruct (status r) eqn:Es; cbn [is_pending negb]; try (left; cbn; eauto; fail).
  destruct (isValidApprover cfg a (request_level r)) eqn:Ev; cbn [negb];
    [|left; cbn; eauto].
  right. exists r. cbn. auto 10.
Qed.

Lemma checkExpiredApprovals_lookup (w : World) (st : Store) (id : string) :
  assoc id (approvalStore (fst (checkExpiredApprovals w st)))
  = option_map (expire_one w) (assoc id (approvalStore st)).
Proof.
  unfold checkExpiredApprovals. cbn [fst approvalStore].
  apply (assoc_map (expire_one w)).
Qed.

Lemma valid_approver_in_roster cfg (a : jsval) (level : option string) :
  isValidApprover cfg a level = true ->
  exists u, a = Some (JStr u) /\ In u (getApproversForLevel cfg level).
Proof.
  unfold isValidApprover, includes. destruct a as [[| | |u| |]|]; try discriminate.
  intros H. apply existsb_exists in H. destruct H as (u' & Hin & He).
  apply String.eqb_eq in He. subst u'. eauto.
Qed.

(** X20.  A request that was approved, rejected or expired is final:
    approveRequest, rejectRequest, checkExpiredApprovals and
    escalatePendingApprovals, on any request id and at any time, leave it
    exactly as it is. *)
Theorem decided_requests_are_final cfg (w : World) (id id' : string) (a x : jsval)
    (st : Store) (r : ApprovalRequest) :
  getApprovalRequest id st = Some r ->
  status r <> pending ->
  getApprovalRequest id (fst (approveRequest cfg w id' a x st)) = Some r
  /\ getApprovalRequest id (fst (rejectRequest cfg w id' a x st)) = Some r
  /\ getApprovalRequest id (fst (checkExpiredApprovals w st)) = Some r
  /\ getApprovalRequest id (fst (escalatePendingApprovals cfg w st)) = Some r.
Proof.
  unfold getApprovalRequest. intros Hr Hs.
  assert (Hp : is_pending (status r) = false) by (destruct (status r); cbn; congruence).
  repeat split.
  - destruct (approveRequest_cases cfg w id' a x st) as [[-> _]|(r0 & H0 & Hp0 & _ & _ & -> & _)];
      [exact Hr|].
    rewrite assoc_map_set_ne; [exact Hr|]. intros ->. congruence.
  - destruct (rejectRequest_cases cfg w id' a x st) as [[-> _]|(r0 & H0 & Hp0 & _ & _ & -> & _)];
      [exact Hr|].
    rewrite assoc_map_set_ne; [exact Hr|]. intros ->. congruence.
  - rewrite checkExpiredApprovals_lookup, Hr. cbn [option_map].
    unfold expire_one. rewrite Hp. reflexivity.
  - rewrite escalatePendingApprovals_lookup, Hr. cbn [option_map].
    unfold escalated, escalate_one, overdue. rewrite Hp. reflexivity.
Qed.

(** The store after team_lead approved the example request in the afternoon. *)
Definition one_approved : Store :=
  fst (approveRequest example_config afternoon "req-1" (Some (JStr "team_lead")) None
         one_request).

Lemma one_approved_request :
  exists r, getApprovalRequest "req-1" one_approved = Some r /\ status r = approved.
Proof. vm_compute. eexists. split; reflexivity. Qed.

Lemma decided_requests_are_final_witness :
  exists r,
    getApprovalRequest "req-1" one_approved = Some r
    /\ getApprovalRequest "req-1"
         (fst (rejectRequest example_config afternoon "req-1" (Some (JStr "team_lead"))
                 (Some (JStr "changed my mind")) one_approved)) = Some r
    /\ getApprovalRequest "req-1"
         (fst (escalatePendingApprovals example_config afternoon one_approved)) = Some r.
Proof.
  destruct one_approved_request as (r & Hr & Hs).
  assert (Hn : status r <> pending) by (rewrite Hs; discriminate).
  destruct (decided_requests_are_final example_config afternoon "req-1" "req-1"
              (Some (JStr "team_lead")) (Some (JStr "changed my mind")) one_approved r Hr Hn)
    as (_ & H2 & _ & H4).
  exists r. auto.
Defined.

(** X21.  approveRequest changes one request or nothing: when it throws the
    store is as it was; when it returns, the approver is a string on the
    configured roster of the request's level, the request under that id is
    the returned one, now approved by that approver at the time of the call,
    every other request is as it was, and the history has one more entry,
    for this id. *)
Theorem approveRequest_changes_one_request cfg (w : World) (id : string) (a c : jsval)
    (st st' : Store) (res : result ApprovalRequest) :
  approveRequest cfg w id a c st = (st', res) ->
  match res with
  | inl _ => st' = st
  | inr r' =>
      (exists u, a = Some (JStr u) /\ In u (getApproversForLevel cfg (request_level r')))
      /\ getApprovalRequest id st' = Some r'
      /\ status r' = approved
      /\ approved_by r' = a
      /\ approved_at r' = Some (now w)
      /\ (forall id', id' <> id -> getApprovalRequest id' st' = getApprovalRequest id' st)
      /\ getApprovalHistory (Some id) st'
         = (getApprovalHistory (Some id) st
            ++ [{| history_action := "approve"; history_approval_id := id;
                   history_approver := a; history_timestamp := now w;
                   history_note := default_comments c |}])%list
  end.
Proof.
  intros E.
  destruct (approveRequest_cases cfg w id a c st)
    as [[H1 [m H2]]|(r & Hr & Hs & Hv & H2 & H3 & H4)];
    rewrite E in *; cbn [fst snd] in *.
  - subst res. exact H1.
  - subst res. unfold getApprovalRequest, getApprovalHistory. rewrite H3, H4.
    repeat split.
    + apply valid_approver_in_roster. exact Hv.
    + apply assoc_map_set_eq.
    + intros id' Hne. apply assoc_map_set_ne, Hne.
    + destruct (String.eqb id EmptyString) eqn:Ee; [reflexivity|].
      rewrite List.filter_app. cbn [List.filter history_approval_id].
      rewrite String.eqb_refl. reflexivity.
Qed.

Lemma approveRequest_changes_one_request_witness :
  exists st' r',
    approveRequest example_config afternoon "req-1" (Some (JStr "team_lead")) None one_request
    = (st', inr r')
    /\ getApprovalRequest "req-1" st' = Some r'
    /\ status r' = approved.
Proof.
  destruct (approveRequest example_config afternoon "req-1" (Some (JStr "team_lead")) None
              one_request) as [st' [e|r']] eqn:E.
  { vm_compute in E. discriminate E. }
  pose proof (approveRequest_changes_one_request _ _ _ _ _ _ _ _ E) as (_ & H2 & H3 & _).
  exists st', r'. auto.
Defined.

(** X22.  A request is decided at most once: after approveRequest or
    rejectRequest has returned for an id, every later approveRequest and
    rejectRequest for that id, by anyone at any time, throws "Approval
    request is approved (or rejected), cannot approve (or reject)" and leaves
    the store as it is. *)
Theorem a_request_is_decided_once cfg (w w' : World) (id : string) (a x a' x' : jsval)
    (st st1 : Store) (r1 : ApprovalRequest) :
  approveRequest cfg w id a x st = (st1, inr r1)
  \/ rejectRequest cfg w id a x st = (st1, inr r1) ->
  exists verdict,
    status r1 = verdict
    /\ (verdict = approved \/ verdict = rejected)
    /\ approveRequest cfg w' id a' x' st1
       = (st1, inl (Thrown ("Approval request is " +:+ status_name verdict
                            +:+ ", cannot approve")))
    /\ rejectRequest cfg w' id a' x' st1
       = (st1, inl (Thrown ("Approval request is " +:+ status_name verdict
                            +:+ ", cannot reject"))).
Proof.
  intros [E|E].
  - destruct (approveRequest_cases cfg w id a x st)
      as [[_ [m H2]]|(r & _ & _ & _ & H2 & H3 & _)];
      rewrite E in *; cbn [fst snd] in *; [discriminate H2|].
    injection H2 as ->. exists approved. split; [reflexivity|]. split; [auto|].
    unfold approveRequest, rejectRequest. rewrite H3, assoc_map_set_eq. cbn. auto.
  - destruct (rejectRequest_cases cfg w id a x st)
      as [[_ [m H2]]|(r & _ & _ & _ & H2 & H3 & _)];
      rewrite E in *; cbn [fst snd] in *; [discriminate H2|].
    injection H2 as ->. exists rejected. split; [reflexivity|]. split; [auto|].
    unfold approveRequest, rejectRequest. rewrite H3, assoc_map_set_eq. cbn. auto.
Qed.

Lemma a_request_is_decided_once_witness :
  exists st1,
    fst (approveRequest example_config afternoon "req-1" (Some (JStr "team_lead")) None
           one_request) = st1
    /\ rejectRequest example_config afternoon "req-1" (Some (JStr "security_analyst"))
         (Some (JStr "too late")) st1
       = (st1, inl (Thrown "Approval request is approved, cannot reject")).
Proof.
  destruct (approveRequest example_config afternoon "req-1" (Some (JStr "team_lead")) None
              one_request) as [st1 [e|r1]] eqn:E.
  { vm_compute in E. discriminate E. }
  destruct (a_request_is_decided_once example_config afternoon afternoon "req-1"
              (Some (JStr "team_lead")) None (Some (JStr "security_analyst"))
              (Some (JStr "too late")) one_request st1 r1 (or_introl E))
    as (verdict & Hv & _ & _ & H).
  assert (Hs : status r1 = approved).
  { destruct (approveRequest_cases example_config afternoon "req-1"
                (Some (JStr "team_lead")) None one_request)
      as [[_ [m H2]]|(q & _ & _ & _ & H2 & _)];
      rewrite E in H2; cbn [snd] in H2; [discriminate H2|].
    injection H2 as ->. reflexivity. }
  rewrite Hs in Hv. subst verdict.
  exists st1. split; [reflexivity|exact H].
Defined.

(** *** Expiry and escalation *)

Lemma assoc_In {A : Type} (k : string) (x : A) (l : list (string * A)) :
  assoc k l = Some x -> In (k, x) l.
Proof.
  induction l as [|[k' y] l IH]; cbn [assoc In]; [discriminate|].
  destruct (String.eqb k k') eqn:E.
  - apply String.eqb_eq in E. intros [= ->]. left. congruence.
  - intros H. right. apply IH, H.
Qed.

Lemma filter_map_In {A B : Type} (f : A -> option B) (l : list A) (x : A) (y : B) :
  In x l -> f x = Some y -> In y (filter_map f l).
Proof.
  intros Hin Hf. induction l as [|z l IH]; [destruct Hin|].
  cbn [filter_map]. destruct Hin as [->|Hin].
  - rewrite Hf. left. reflexivity.
  - destruct (f z); [right|]; apply IH, Hin.
Qed.

Lemma filter_map_none {A B : Type} (f : A -> option B) (l : list A) :
  (forall x, In x l -> f x = None) -> filter_map f l = [].
Proof.
  induction l as [|z l IH]; intros H; [reflexivity|].
  cbn [filter_map]. rewrite (H z (or_introl eq_refl)).
  apply IH. intros x Hx. apply H. right. exact Hx.
Qed.

Lemma expire_one_twice (w : World) (r : ApprovalRequest) :
  expire_one w (expire_one w r) = expire_one w r.
Proof.
  unfold expire_one.
  destruct (is_pending (status r) && (expires_at r <? now w)) eqn:E; [reflexivity|].
  rewrite E. reflexivity.
Qed.

(** X23.  What checkExpiredApprovals does to a pending request whose expiry
    time has passed: the request is marked expired at the time of the run
    and reported; from then on approveRequest and rejectRequest throw
    "Approval request is expired, cannot ..." and change nothing; and a
    second run at that time finds nothing to expire and changes nothing. *)
Theorem expired_requests_cannot_be_decided cfg (w w' : World) (id : string) (a x : jsval)
    (st : Store) (r : ApprovalRequest) :
  getApprovalRequest id st = Some r ->
  status r = pending ->
  expires_at r < now w ->
  let st1 := fst (checkExpiredApprovals w st) in
  getApprovalRequest id st1 = Some (expired_request r (now w))
  /\ In (expired_request r (now w)) (snd (checkExpiredApprovals w st))
  /\ approveRequest cfg w' id a x st1
     = (st1, inl (Thrown "Approval request is expired, cannot approve"))
  /\ rejectRequest cfg w' id a x st1
     = (st1, inl (Thrown "Approval request is expired, cannot reject"))
  /\ checkExpiredApprovals w st1 = (st1, []).
Proof.
  unfold getApprovalRequest. intros Hr Hs He. cbv zeta.
  assert (Hcond : is_pending (status r) && (expires_at r <? now w) = true).
  { rewrite Hs. cbn. apply Z.ltb_lt, He. }
  assert (H1 : assoc id (approvalStore (fst (checkExpiredApprovals w st)))
               = Some (expired_request r (now w))).
  { rewrite checkExpiredApprovals_lookup, Hr. cbn [option_map].
    unfold expire_one. rewrite Hcond. reflexivity. }
  split; [exact H1|]. split.
  { unfold checkExpiredApprovals. cbn [snd].
    apply (filter_map_In _ _ (id, r)); [apply assoc_In, Hr|]. rewrite Hcond. reflexivity. }
  split; [unfold approveRequest; rewrite H1; reflexivity|].
  split; [unfold rejectRequest; rewrite H1; reflexivity|].
  unfold checkExpiredApprovals. cbn [fst approvalStore approvalHistory]. f_equal.
  - f_equal. rewrite List.map_map. apply List.map_ext. intros [k q].
    rewrite expire_one_twice. reflexivity.
  - apply filter_map_none. intros [k q] Hin.
    apply List.in_map_iff in Hin. destruct Hin as ([k0 q0] & [= <- <-] & _).
    unfold expire_one.
    destruct (is_pending (status q0) && (expires_at q0 <? now w)) eqn:E; [reflexivity|].
    rewrite E. reflexivity.
Qed.

(** Fifty hours after the morning of the example request. *)
Definition two_days_later : World :=
  {| uuid := "req-3"; now := 216000000; hour := 12 |}.

Lemma one_request_pending :
  exists r, getApprovalRequest "req-1" one_request = Some r
            /\ status r = pending
            /\ request_level r = Some "level_1"
            /\ created_at r = 36000000
            /\ expires_at r = 208800000.
Proof. vm_compute. eexists. repeat split; reflexivity. Qed.

Lemma expired_requests_cannot_be_decided_witness :
  approveRequest example_config two_days_later "req-1" (Some (JStr "team_lead")) None
    (fst (checkExpiredApprovals two_days_later one_request))
  = (fst (checkExpiredApprovals two_days_later one_request),
     inl (Thrown "Approval request is expired, cannot approve")).
Proof.
  destruct one_request_pending as (r & Hr & Hs & _ & _ & He).
  assert (Hlt : expires_at r < now two_days_later) by (rewrite He; reflexivity).
  destruct (expired_requests_cannot_be_decided example_config two_days_later two_days_later
              "req-1" (Some (JStr "team_lead")) None one_request r Hr Hs Hlt)
    as (_ & _ & H & _).
  exact H.
Defined.

Lemma overdue_later cfg (w1 w2 : World) (r : ApprovalRequest) (l : string)
    (roster : list string) :
  overdue cfg w1 r = true ->
  now w1 <= now w2 ->
  overdue cfg w2 (escalated_request r l roster (now w1)) = true.
Proof.
  unfold overdue. cbn [status created_at escalated_request].
  intros H Hle. apply andb_true_iff in H. destruct H as [Hp H].
  rewrite Hp. cbn [andb]. apply Z.ltb_lt in H. apply Z.ltb_lt. lia.
Qed.

(** X24.  Escalation does not restart the clock: a request is overdue by
    its creation time, which escalation keeps, so a pending level_1 request
    that one run of escalatePendingApprovals moves to level_2 is moved to
    level_3, with the level_3 roster, by the very next run, however soon
    after the first that is. *)
Theorem escalation_does_not_restart_the_clock cfg (w1 w2 : World) (id : string)
    (st : Store) (r : ApprovalRequest) :
  getApprovalRequest id st = Some r ->
  request_level r = Some "level_1" ->
  overdue cfg w1 r = true ->
  now w1 <= now w2 ->
  let st1 := fst (escalatePendingApprovals cfg w1 st) in
  let st2 := fst (escalatePendingApprovals cfg w2 st1) in
  exists r1 r2,
    getApprovalRequest id st1 = Some r1
    /\ request_level r1 = Some "level_2"
    /\ getApprovalRequest id st2 = Some r2
    /\ request_level r2 = Some "level_3"
    /\ request_approvers r2 = getApproversForLevel cfg (Some "level_3")
    /\ status r2 = pending
    /\ created_at r2 = created_at r
    /\ expires_at r2 = expires_at r.
Proof.
  unfold getApprovalRequest. intros Hr Hl Ho Hle. cbv zeta.
  assert (Hp : status r = pending).
  { unfold overdue in Ho. destruct (status r); cbn in Ho; congruence. }
  set (r1 := escalated_request r "level_2" (getApproversForLevel cfg (Some "level_2")) (now w1)).
  assert (E1 : escalated cfg w1 r = r1).
  { unfold escalated, escalate_one. rewrite Ho, Hl, next_of_level_1. reflexivity. }
  assert (Ho1 : overdue cfg w2 r1 = true) by (apply overdue_later; assumption).
  set (r2 := escalated_request r1 "level_3" (getApproversForLevel cfg (Some "level_3")) (now w2)).
  assert (E2 : escalated cfg w2 r1 = r2).
  { unfold escalated, escalate_one. rewrite Ho1.
    change (request_level r1) with (Some "level_2"). rewrite next_of_level_2. reflexivity. }
  exists r1, r2.
  rewrite !escalatePendingApprovals_lookup, Hr. cbn [option_map]. rewrite E1, E2.
  repeat split. exact Hp.
Qed.

Lemma escalation_does_not_restart_the_clock_witness :
  exists r2,
    getApprovalRequest "req-1"
      (fst (escalatePendingApprovals example_config afternoon
              (fst (escalatePendingApprovals example_config afternoon one_request))))
    = Some r2
    /\ request_level r2 = Some "level_3".
Proof.
  destruct one_request_pending as (r & Hr & Hs & Hl & Hc & _).
  assert (Ho : overdue example_config afternoon r = true).
  { unfold overdue. rewrite Hs, Hc. reflexivity. }
  destruct (escalation_does_not_restart_the_clock example_config afternoon afternoon "req-1"
              one_request r Hr Hl Ho (Z.le_refl _))
    as (r1 & r2 & _ & _ & H3 & H4 & _).
  exists r2. auto.
Defined.

(** *** What every operation keeps *)

Lemma createApprovalRequest_error cfg (w : World) (d : ApprovalDecision)
    (id : string) (expires : Z) (p ctx : json) (st st' : Store) (e : exn) :
  createApprovalRequest cfg w d id expires p ctx st = (st', inl e) -> st' = st.
Proof.
  unfold createApprovalRequest.
  lazymatch goal with
  | |- context [match ?m with inl _ => _ | inr _ => _ end] => destruct m as [e0|r0]
  end; [intros [= <- _]; reflexivity|].
  destruct (shouldSendNotifications cfg); intros [= ].
Qed.

(** The store after evaluateApprovalGates: as it was, or with one request
    set under the call's uuid. *)
Lemma evaluateApprovalGates_store cfg (w : World) (p ctx : json) (st : Store) :
  let st' := fst (evaluateApprovalGates cfg w p ctx st) in
  approvalHistory st' = approvalHistory st
  /\ (approvalStore st' = approvalStore st
      \/ exists r, approval_id r = uuid w
                   /\ approvalStore st' = map_set (uuid w) r (approvalStore st)).
Proof.
  cbv zeta. unfold evaluateApprovalGates. fold (gates_of cfg w p). fold start.
  destruct (gates_of cfg w p) as [e|gates]; [cbn; auto|].
  destruct (requires_approval (fold_left consider gates start)); [|cbn; auto].
  lazymatch goal with
  | |- context [createApprovalRequest cfg w ?d' _ _ _ _ _] => set (d0 := d')
  end.
  destruct (createApprovalRequest cfg w d0 (uuid w) (calculateExpirationTime cfg w) p ctx st)
    as [st1 [e|r]] eqn:Ec; cbn [fst].
  - apply createApprovalRequest_error in Ec. subst st1. auto.
  - destruct (createApprovalRequest_effect _ _ _ _ _ _ _ _ _ _ Ec) as (Es & Eh & Ei & _).
    split; [exact Eh|]. right. exists r. auto.
Qed.

Lemma assoc_map_set_some {A : Type} (k k' : string) (x : A) (l : list (string * A)) :
  is_Some (assoc k' l) -> is_Some (assoc k' (map_set k x l)).
Proof.
  intros H. destruct (String.eqb_spec k' k) as [->|Hne].
  - rewrite assoc_map_set_eq. eauto.
  - rewrite assoc_map_set_ne by exact Hne. exact H.
Qed.

(** X25.  Nothing is ever taken out: whichever operation runs, every
    request that was in the approval map is still in it under the same id,
    and the history is the old history with entries added at its end. *)
Theorem requests_and_history_only_grow cfg (st st' : Store) :
  step cfg st st' ->
  (forall id, is_Some (getApprovalRequest id st) -> is_Some (getApprovalRequest id st'))
  /\ exists entries, approvalHistory st' = (approvalHistory st ++ entries)%list.
Proof.
  unfold getApprovalRequest.
  intros [w p ctx st0|w id a c st0|w id a x st0|w st0|w st0].
  - destruct (evaluateApprovalGates_store cfg w p ctx st0) as (Hh & [Hs|(r & _ & Hs)]);
      rewrite Hs; (split; [|exists []; rewrite app_nil_r; exact Hh]);
      intros id H; [exact H|apply assoc_map_set_some, H].
  - destruct (approveRequest_cases cfg w id a c st0) as [[-> _]|(r & _ & _ & _ & _ & -> & ->)].
    + split; [auto|]. exists []. rewrite app_nil_r. reflexivity.
    + split; [intros id0 H; apply assoc_map_set_some, H|eauto].
  - destruct (rejectRequest_cases cfg w id a x st0) as [[-> _]|(r & _ & _ & _ & _ & -> & ->)].
    + split; [auto|]. exists []. rewrite app_nil_r. reflexivity.
    + split; [intros id0 H; apply assoc_map_set_some, H|eauto].
  - split; [|exists []; rewrite app_nil_r; reflexivity].
    intros id [r H]. rewrite checkExpiredApprovals_lookup, H. cbn. eauto.
  - split; [|exists []; rewrite app_nil_r; reflexivity].
    intros id [r H]. rewrite escalatePendingApprovals_lookup, H. cbn. eauto.
Qed.

Lemma requests_and_history_only_grow_witness :
  (forall id, is_Some (getApprovalRequest id one_request) ->
              is_Some (getApprovalRequest id one_approved))
  /\ exists entries,
       approvalHistory one_approved = (approvalHistory one_request ++ entries)%list.
Proof.
  apply (requests_and_history_only_grow example_config one_request one_approved).
  exact (step_approve example_config afternoon "req-1" (Some (JStr "team_lead")) None
           one_request).
Defined.

(** Every request is filed under its own approval_id, and no id twice. *)
Record filed (st : Store) : Prop := {
  ids_once : List.NoDup (map fst (approvalStore st));
  ids_own : List.Forall (fun kr => approval_id (snd kr) = fst kr) (approvalStore st)
}.

Lemma map_set_In_keys {A : Type} (k k' : string) (x : A) (l : list (string * A)) :
  In k' (map fst (map_set k x l)) -> k' = k \/ In k' (map fst l).
Proof.
  induction l as [|[k0 y] l IH]; cbn [map_set map fst In].
  - intros [<-|[]]. auto.
  - destruct (String.eqb k k0) eqn:E; cbn [map fst In].
    + intros [<-|H]; auto.
    + intros [<-|H]; [auto|]. destruct (IH H); auto.
Qed.

Lemma map_set_NoDup {A : Type} (k : string) (x : A) (l : list (string * A)) :
  List.NoDup (map fst l) -> List.NoDup (map fst (map_set k x l)).
Proof.
  induction l as [|[k0 y] l IH]; cbn [map_set map fst]; intros H.
  - constructor; [intros []|constructor].
  - inversion H as [|? ? Hn Hd]; subst.
    destruct (String.eqb k k0) eqn:E; cbn [map fst].
    + apply String.eqb_eq in E. subst k0. constructor; assumption.
    + constructor; [|apply IH, Hd].
      intros Hin. apply map_set_In_keys in Hin. destruct Hin as [->|Hin]; [|contradiction].
      rewrite String.eqb_refl in E. discriminate E.
Qed.

Lemma map_set_Forall {A : Type} (P : string * A -> Prop) (k : string) (x : A)
    (l : list (string * A)) :
  P (k, x) -> List.Forall P l -> List.Forall P (map_set k x l).
Proof.
  intros Hx H. induction H as [|[k0 y] l Hy H IH]; cbn [map_set].
  - constructor; [exact Hx|constructor].
  - destruct (String.eqb k k0); constructor; assumption.
Qed.

Lemma filed_set (st st' : Store) (k : string) (r : ApprovalRequest) :
  filed st -> approval_id r = k ->
  approvalStore st' = map_set k r (approvalStore st) -> filed st'.
Proof.
  intros [H1 H2] Hk Hs. split; rewrite Hs.
  - apply map_set_NoDup, H1.
  - apply map_set_Forall; [exact Hk|exact H2].
Qed.

Lemma filed_map (st st' : Store) (f : ApprovalRequest -> ApprovalRequest) :
  filed st -> (forall r, approval_id (f r) = approval_id r) ->
  approvalStore st' = map (fun '(k, r) => (k, f r)) (approvalStore st) -> filed st'.
Proof.
  intros [H1 H2] Hf Hs. split; rewrite Hs.
  - rewrite List.map_map.
    rewrite (List.map_ext _ fst); [exact H1|]. intros [k r]. reflexivity.
  - clear -H2 Hf. induction H2 as [|[k r] l Hr H IH]; cbn [map]; constructor;
      [cbn [fst snd] in *; rewrite Hf; exact Hr|exact IH].
Qed.

Lemma filed_own (st : Store) (id : string) (r : ApprovalRequest) :
  filed st -> assoc id (approvalStore st) = Some r -> approval_id r = id.
Proof.
  intros [_ H] Hr. apply assoc_In in Hr.
  rewrite List.Forall_forall in H. exact (H _ Hr).
Qed.

Lemma step_filed cfg (st st' : Store) : filed st -> step cfg st st' -> filed st'.
Proof.
  intros Hf Hstep. revert Hf.
  destruct Hstep as [w p ctx st0|w id a c st0|w id a x st0|w st0|w st0]; intros Hf.
  - destruct (evaluateApprovalGates_store cfg w p ctx st0) as (_ & [Hs|(r & Hi & Hs)]).
    + destruct Hf as [H1 H2]. split; rewrite Hs; assumption.
    + exact (filed_set _ _ _ _ Hf Hi Hs).
  - destruct (approveRequest_cases cfg w id a c st0) as [[-> _]|(r & Hr & _ & _ & _ & Hs & _)];
      [exact Hf|].
    apply (filed_set _ _ _ _ Hf) in Hs; [exact Hs|].
    cbn [approval_id approved_request]. exact (filed_own _ _ _ Hf Hr).
  - destruct (rejectRequest_cases cfg w id a x st0) as [[-> _]|(r & Hr & _ & _ & _ & Hs & _)];
      [exact Hf|].
    apply (filed_set _ _ _ _ Hf) in Hs; [exact Hs|].
    cbn [approval_id rejected_request]. exact (filed_own _ _ _ Hf Hr).
  - apply (filed_map st0 _ (expire_one w) Hf); [|reflexivity].
    intros r. unfold expire_one.
    destruct (is_pending (status r) && (expires_at r <? now w)); reflexivity.
  - apply (filed_map st0 _ (escalated cfg w) Hf); [|reflexivity].
    intros r. unfold escalated, escalate_one.
    destruct (overdue cfg w r); [|reflexivity].
    destruct (getNextApprovalLevel (request_level r)) as [l|]; [|reflexivity].
    destruct (negb (String.eqb l EmptyString)); reflexivity.
Qed.

Lemma reachable_filed cfg (st : Store) : reachable cfg st -> filed st.
Proof.
  induction 1 as [|st st' _ IH Hstep].
  - split; cbn; constructor.
  - exact (step_filed cfg st st' IH Hstep).
Qed.

Lemma filed_lookup (st : Store) (r : ApprovalRequest) :
  filed st -> In r (map snd (approvalStore st)) ->
  assoc (approval_id r) (approvalStore st) = Some r.
Proof.
  intros [H1 H2] Hin. apply List.in_map_iff in Hin. destruct Hin as ([k q] & <- & Hin).
  cbn [snd]. rewrite List.Forall_forall in H2.
  pose proof (H2 _ Hin) as Hk. cbn [fst snd] in Hk. rewrite Hk. clear H2 Hk. induction (approvalStore st) as [|[k0 q0] l IH]; [destruct Hin|].
  cbn [map fst] in H1. inversion H1 as [|? ? Hn Hd]; subst.
  cbn [assoc]. destruct Hin as [[= -> ->]|Hin].
  - rewrite String.eqb_refl. reflexivity.
  - destruct (String.eqb_spec k k0) as [->|_]; [|apply IH; assumption].
    exfalso. apply Hn. apply List.in_map_iff. exists (k0, q). auto.
Qed.

Lemma reachable_one_request : reachable example_config one_request.
Proof.
  exact (reachable_step example_config _ _ (reachable_empty example_config)
           (step_evaluate example_config morning (playbook 85) (JObj []) empty_store)).
Qed.

(** X26.  The pending list offers a user only what that user can decide:
    in a reachable store, every request getPendingApprovals lists for a user
    can be approved by that user then and there. *)
Theorem pending_list_is_what_the_user_can_approve cfg (w : World) (user c : jsval)
    (st : Store) (r : ApprovalRequest) :
  reachable cfg st ->
  truthy user = true ->
  In r (getPendingApprovals cfg user st) ->
  exists st' r',
    approveRequest cfg w (approval_id r) user c st = (st', inr r')
    /\ status r' = approved
    /\ getApprovalRequest (approval_id r) st' = Some r'.
Proof.
  intros Hreach Hu Hin. unfold getPendingApprovals in Hin. rewrite Hu in Hin.
  apply List.filter_In in Hin. destruct Hin as [Hin Hv].
  apply List.filter_In in Hin. destruct Hin as [Hin Hp].
  pose proof (filed_lookup st r (reachable_filed cfg st Hreach) Hin) as Hr.
  unfold approveRequest, getApprovalRequest. rewrite Hr, Hp, Hv. cbn [negb].
  eexists _, _. split; [reflexivity|]. split; [reflexivity|].
  cbn [push_history store_set approvalStore]. apply assoc_map_set_eq.
Qed.

Lemma pending_list_is_what_the_user_can_approve_witness :
  exists r st' r',
    In r (getPendingApprovals example_config (Some (JStr "team_lead")) one_request)
    /\ approveRequest example_config afternoon (approval_id r) (Some (JStr "team_lead")) None
         one_request = (st', inr r')
    /\ status r' = approved.
Proof.
  assert (H : exists r,
             In r (getPendingApprovals example_config (Some (JStr "team_lead")) one_request)).
  { vm_compute. eexists. left. reflexivity. }
  destruct H as [r Hin].
  destruct (pending_list_is_what_the_user_can_approve example_config afternoon
              (Some (JStr "team_lead")) None one_request r reachable_one_request eq_refl Hin)
    as (st' & r' & H1 & H2 & _).
  exists r, st', r'. auto.
Defined.

(** X27.  A decided request leaves every pending list: in a reachable
    store, once approveRequest or rejectRequest has returned for an id, no
    list getPendingApprovals gives, for any user or for none, holds a request
    with that id. *)
Theorem decided_request_leaves_the_pending_list cfg (w : World) (id : string)
    (a x user : jsval) (st st' : Store) (r' r : ApprovalRequest) :
  reachable cfg st ->
  approveRequest cfg w id a x st = (st', inr r')
  \/ rejectRequest cfg w id a x st = (st', inr r') ->
  In r (getPendingApprovals cfg user st') ->
  approval_id r <> id.
Proof.
  intros Hreach E Hin Heq.
  assert (Hreach' : reachable cfg st').
  { destruct E as [E|E].
    - pose proof (step_approve cfg w id a x st) as Hs. rewrite E in Hs.
      exact (reachable_step cfg _ _ Hreach Hs).
    - pose proof (step_reject cfg w id a x st) as Hs. rewrite E in Hs.
      exact (reachable_step cfg _ _ Hreach Hs). }
  assert (Hd : exists q, assoc id (approvalStore st') = Some q /\ status q <> pending).
  { destruct E as [E|E].
    - destruct (approveRequest_cases cfg w id a x st)
        as [[_ [m H2]]|(q & _ & _ & _ & _ & H3 & _)];
        rewrite E in *; cbn [fst snd] in *; [discriminate H2|].
      eexists. rewrite H3, assoc_map_set_eq. split; [reflexivity|]. cbn. discriminate.
    - destruct (rejectRequest_cases cfg w id a x st)
        as [[_ [m H2]]|(q & _ & _ & _ & _ & H3 & _)];
        rewrite E in *; cbn [fst snd] in *; [discriminate H2|].
      eexists. rewrite H3, assoc_map_set_eq. split; [reflexivity|]. cbn. discriminate. }
  destruct Hd as (q & Hq & Hs).
  assert (Hp : In r (map snd (approvalStore st')) /\ is_pending (status r) = true).
  { unfold getPendingApprovals in Hin. destruct (truthy user).
    - apply List.filter_In in Hin. destruct Hin as [Hin _].
      apply List.filter_In in Hin. exact Hin.
    - apply List.filter_In in Hin. exact Hin. }
  destruct Hp as [Hr Hp].
  pose proof (filed_lookup st' r (reachable_filed cfg st' Hreach') Hr) as Hl.
  rewrite Heq, Hq in Hl. injection Hl as ->.
  destruct (status r); cbn in Hp; congruence.
Qed.

Lemma decided_request_leaves_the_pending_list_witness :
  exists st' r',
    approveRequest example_config afternoon "req-1" (Some (JStr "team_lead")) None one_request
    = (st', inr r')
    /\ forall r, In r (getPendingApprovals example_config None st') -> approval_id r <> "req-1".
Proof.
  destruct (approveRequest example_config afternoon "req-1" (Some (JStr "team_lead")) None
              one_request) as [st' [e|r']] eqn:E.
  { vm_compute in E. discriminate E. }
  exists st', r'. split; [reflexivity|]. intros r.
  exact (decided_request_leaves_the_pending_list example_config afternoon "req-1"
           (Some (JStr "team_lead")) None None one_request st' r' r
           reachable_one_request (or_introl E)).
Defined.

(** *** The two lists of asset patterns *)

Lemma match_here_star (a : atom) (re : regex) (s : string) :
  match_here (Star a :: re) s
  = match_here re s
    || match s with
       | String c r => atom_matches a c && match_here (Star a :: re) r
       | EmptyString => false
       end.
Proof. destruct s; reflexivity. Qed.

(** A text that starts with a match of a pattern followed by more starts
    with a match of the pattern. *)
Lemma match_here_app (r1 r2 : regex) (s : string) :
  match_here (r1 ++ r2)%list s = true -> match_here r1 s = true.
Proof.
  revert s. induction r1 as [|[a|a|] r1 IH]; intros s.
  - reflexivity.
  - cbn [app match_here]. destruct s as [|c r]; [discriminate|].
    intros H. apply andb_true_iff in H. destruct H as [Ha H].
    rewrite Ha, (IH r H). reflexivity.
  - change ((Star a :: r1) ++ r2)%list with (Star a :: (r1 ++ r2))%list.
    induction s as [|c r IHs]; rewrite (match_here_star a (r1 ++ r2)%list), (match_here_star a r1).
    + rewrite !orb_false_r. apply IH.
    + intros H. apply orb_true_iff in H. destruct H as [H|H].
      * rewrite (IH _ H). reflexivity.
      * apply andb_true_iff in H. destruct H as [Ha H].
        rewrite Ha, (IHs H). apply orb_true_r.
  - cbn [app match_here]. destruct s; [apply IH|discriminate].
Qed.

Lemma test_app (r1 r2 : regex) (s : string) :
  test (r1 ++ r2)%list s = true -> test r1 s = true.
Proof.
  induction s as [|c r IH]; cbn [test]; intros H; apply orb_true_iff in H;
    destruct H as [H|H].
  - rewrite (match_here_app _ _ _ H). reflexivity.
  - discriminate H.
  - rewrite (match_here_app _ _ _ H). reflexivity.
  - rewrite (IH H). apply orb_true_r.
Qed.

Lemma highly_critical_is_critical (hostname : string) :
  isHighlyCriticalAsset hostname = true -> isCriticalAsset hostname = true.
Proof.
  unfold isHighlyCriticalAsset, isCriticalAsset, some. cbn [existsb].
  rewrite orb_false_r. intros H.
  apply orb_true_iff in H. destruct H as [H|H]; [rewrite H; reflexivity|].
  apply orb_true_iff in H. destruct H as [H|H]; [rewrite H; apply orb_true_r|].
  apply orb_true_iff in H. destruct H as [H|H]; apply test_app in H; rewrite H;
    rewrite ?orb_true_r; reflexivity.
Qed.

(** X28.  Every host name on the highly critical list is on the critical
    list, so the level_3 branch of the critical-asset gate is live: a
    playbook whose hostname matches one of the four highly critical patterns
    triggers the gate at level_3. *)
Theorem highly_critical_host_needs_level_3 (p : json) (use_case normalizedFields
    hostname : jsval) :
  get "use_case" (Some p) = inr use_case ->
  get "normalized_fields" use_case = inr normalizedFields ->
  get "hostname" normalizedFields = inr hostname ->
  truthy hostname = true ->
  isHighlyCriticalAsset (to_string hostname) = true ->
  checkCriticalAssetGate p
  = inr {| name := "critical_asset"; triggered := true; approval_level := "level_3";
           reason := "Critical asset detected: " +:+ to_string hostname |}.
Proof.
  intros H1 H2 H3 Ht Hh. unfold checkCriticalAssetGate.
  rewrite H1. cbn [bind]. rewrite H2. cbn [bind]. rewrite H3. cbn [bind].
  rewrite Ht, (highly_critical_is_critical _ Hh), Hh. reflexivity.
Qed.

Definition database_playbook : json :=
  JObj [("playbook_id", JStr "pb-2");
        ("use_case", JObj [("normalized_fields",
                            JObj [("hostname", JStr "PRODUCTION-eu-DB-01")])])].

Lemma highly_critical_host_needs_level_3_witness :
  checkCriticalAssetGate database_playbook
  = inr {| name := "critical_asset"; triggered := true; approval_level := "level_3";
           reason := "Critical asset detected: " +:+ "PRODUCTION-eu-DB-01" |}.
Proof.
  apply (highly_critical_host_needs_level_3 database_playbook
           (Some (JObj [("normalized_fields",
                         JObj [("hostname", JStr "PRODUCTION-eu-DB-01")])]))
           (Some (JObj [("hostname", JStr "PRODUCTION-eu-DB-01")]))
           (Some (JStr "PRODUCTION-eu-DB-01")));
    vm_compute; reflexivity.
Defined.

(** *** The approve and reject routes *)

(** X29.  The approve and the reject route change the approval store only
    when they answer with the request: on a 400 and on a 500 the store is as
    it was.  The approve route answers 400 "Approver is required" when the
    body has no approver, and, unlike the reject route, takes a body without
    comments. *)
Theorem routes_change_the_store_only_on_success cfg (w : World) (id : string)
    (body : json) (st : Store) :
  let a := approveRoute cfg w id body st in
  let r := rejectRoute cfg w id body st in
  ((exists request, snd a = Success request) \/ fst a = st)
  /\ ((exists request, snd r = Success request) \/ fst r = st)
  /\ (forall fields,
        body = JObj fields -> truthy (assoc "approver" fields) = false ->
        a = (st, BadRequest "Approver is required"))
  /\ (forall fields,
        body = JObj fields -> truthy (assoc "approver" fields) = true ->
        a = match approveRequest cfg w id (assoc "approver" fields)
                    (assoc "comments" fields) st with
            | (st', inr request) => (st', Success request)
            | (st', inl e) => (st', ServerError e)
            end).
Proof.
  cbv zeta. repeat split.
  - unfold approveRoute.
    destruct (bind (get "approver" (Some body)) _) as [e|[approver comments]]; [auto|].
    destruct (negb (truthy approver)); [auto|].
    destruct (approveRequest_cases cfg w id approver comments st)
      as [[H1 [m H2]]|(q & _ & _ & _ & H2 & _)];
      destruct (approveRequest cfg w id approver comments st) as [st' [e|q']];
      cbn [fst snd] in *; try discriminate; eauto.
  - unfold rejectRoute.
    destruct (bind (get "approver" (Some body)) _) as [e|[approver reason_]]; [auto|].
    destruct (negb (truthy approver) || negb (truthy reason_)); [auto|].
    destruct (rejectRequest_cases cfg w id approver reason_ st)
      as [[H1 [m H2]]|(q & _ & _ & _ & H2 & _)];
      destruct (rejectRequest cfg w id approver reason_ st) as [st' [e|q']];
      cbn [fst snd] in *; try discriminate; eauto.
  - intros fields -> Ht. unfold approveRoute. cbn [get bind]. rewrite Ht. reflexivity.
  - intros fields -> Ht. unfold approveRoute. cbn [get bind]. rewrite Ht. reflexivity.
Qed.

End ApprovalGateMore.
